(** * ECS.h: a shallow embedding of the entity-component-system runtime

    The development follows src/ECS.h.  Objects that the C++ code reaches
    through pointers (entities, component containers, event subscribers) live
    in explicit stores keyed by address, so that the aliasing between the
    World's entity vector and the [Entity*] a caller holds is kept.  A
    function that dereferences a pointer returns [None] when the pointer is
    dangling (undefined behaviour in the source).

    Code of the host is outside the embedding: [EventSubscriber<T>::receive]
    and the callbacks given to [each] and [all] are recorded as calls and do
    not call back into the World; [T(args...)] is the value it builds.
    [size_t] is 64 bits wide.  Sizes of vectors and positions in them are
    [nat]; the id counter, which can outgrow any vector, is an [N] that
    wraps around. *)

From stdpp Require Import gmap list fin_maps.

Set Default Proof Using "Type".
Open Scope N_scope.

(** ** Type identity *)

(** The types used as components and events.  [getTypeIndex<T>()] yields a
    key that is equal for equal types and different for different types
    (std::type_index, or the per-type registration slot under ECS_NO_RTTI);
    the embedding uses the type's name itself as that key. *)
Inductive CppType : Type :=
| OnEntityCreated_t
| OnEntityDestroyed_t
| OnComponentAssigned_t (T : CppType)
| UserType (n : positive).

#[global] Instance CppType_eq_dec : EqDecision CppType.
Proof. solve_decision. Defined.

Fixpoint CppType_code (T : CppType) : nat * (bool + positive) :=
  match T with
  | OnEntityCreated_t => (O, inl true)
  | OnEntityDestroyed_t => (O, inl false)
  | OnComponentAssigned_t T' => let '(k, b) := CppType_code T' in (S k, b)
  | UserType n => (O, inr n)
  end.

Fixpoint CppType_wrap (k : nat) (T : CppType) : CppType :=
  match k with
  | O => T
  | S k' => OnComponentAssigned_t (CppType_wrap k' T)
  end.

Definition CppType_uncode (c : nat * (bool + positive)) : CppType :=
  CppType_wrap (fst c)
    match snd c with
    | inl true => OnEntityCreated_t
    | inl false => OnEntityDestroyed_t
    | inr n => UserType n
    end.

Lemma CppType_uncode_code (T : CppType) : CppType_uncode (CppType_code T) = T.
Proof.
  induction T as [| |T IH|n]; try reflexivity.
  simpl. destruct (CppType_code T) as [k b]. simpl in *.
  unfold CppType_uncode in *. simpl in *. by rewrite IH.
Qed.

#[global] Instance CppType_countable : Countable CppType :=
  inj_countable' CppType_code CppType_uncode CppType_uncode_code.

Abbreviation TypeIndex := CppType.

Definition getTypeIndex (T : CppType) : TypeIndex := T.

(** ** Addresses *)

(** An address of an object; [nullptr] is address 0. *)
Abbreviation ptr := N.
Definition nullptr : ptr := 0.

(** [std::allocator_traits<A>::allocate(alloc, 1)]: the address of fresh
    storage, different from [nullptr] and from every live object of the
    store.  Which address comes back is up to the allocator; the embedding
    takes the one after the largest live address. *)
Definition allocate {A : Type} (store : gmap ptr A) : ptr :=
  N.succ (foldr N.max 0 (map_to_list store).*1).

(** ** Entities, events and the World *)

(** [class Entity].  The back-pointer [world] is left out: the embedding
    has one World at a time and passes it to every method. *)
Record Entity : Type := mkEntity {
  components : gmap TypeIndex ptr;
  id : N;
  bPendingDestroy : bool
}.

Definition InvalidEntityId : N := 0.

(** [size_t] arithmetic wraps around at [2^64]. *)
Definition size_t_modulus : N := 2 ^ 64.

Section Model.
Context {Value : Type}.

(** The event structs of namespace Events, and events of the host's own
    types.  A [ComponentHandle<T>] is the address of the container holding
    the component, [nullptr] for the invalid handle. *)
Inductive Event : Type :=
| OnEntityCreated (entity : ptr)
| OnEntityDestroyed (entity : ptr)
| OnComponentAssigned (T : CppType) (entity : ptr) (component : ptr)
| UserEvent (n : positive) (data : Value).

Definition eventType (event : Event) : CppType :=
  match event with
  | OnEntityCreated _ => OnEntityCreated_t
  | OnEntityDestroyed _ => OnEntityDestroyed_t
  | OnComponentAssigned T _ _ => OnComponentAssigned_t T
  | UserEvent n _ => UserType n
  end.

(** What an outside observer sees of the event subsystem: the calls of
    [World::emit] and the calls of [EventSubscriber<T>::receive] that they
    make, oldest first.  [receive] is code of the host; the embedding
    records that it was called and with what. *)
Inductive Observation : Type :=
| Emitted (event : Event)
| Received (subscriber : ptr) (event : Event).

(** [class World].  [entityStore] and [containerStore] hold the objects
    allocated through [entAlloc] and its rebound allocators.  [trace] is the
    observer's log.  The [systems] vector plays no part in the operations
    below and is left out. *)
Record World : Type := mkWorld {
  entityStore : gmap ptr Entity;
  containerStore : gmap ptr Value;
  entities : list ptr;
  subscribers : gmap TypeIndex (list ptr);
  lastEntityId : N;
  trace : list Observation
}.

(** [World(Allocator alloc)] *)
Definition newWorld : World :=
  {| entityStore := ∅; containerStore := ∅; entities := [];
     subscribers := ∅; lastEntityId := 0; trace := [] |}.

Definition set_entityStore (f : gmap ptr Entity → gmap ptr Entity) (w : World) : World :=
  {| entityStore := f (entityStore w); containerStore := containerStore w;
     entities := entities w; subscribers := subscribers w;
     lastEntityId := lastEntityId w; trace := trace w |}.

Definition set_containerStore (f : gmap ptr Value → gmap ptr Value) (w : World) : World :=
  {| entityStore := entityStore w; containerStore := f (containerStore w);
     entities := entities w; subscribers := subscribers w;
     lastEntityId := lastEntityId w; trace := trace w |}.

Definition set_entities (f : list ptr → list ptr) (w : World) : World :=
  {| entityStore := entityStore w; containerStore := containerStore w;
     entities := f (entities w); subscribers := subscribers w;
     lastEntityId := lastEntityId w; trace := trace w |}.

Definition set_subscribers
    (f : gmap TypeIndex (list ptr) → gmap TypeIndex (list ptr)) (w : World) : World :=
  {| entityStore := entityStore w; containerStore := containerStore w;
     entities := entities w; subscribers := f (subscribers w);
     lastEntityId := lastEntityId w; trace := trace w |}.

Definition set_lastEntityId (n : N) (w : World) : World :=
  {| entityStore := entityStore w; containerStore := containerStore w;
     entities := entities w; subscribers := subscribers w;
     lastEntityId := n; trace := trace w |}.

Definition observe (o : Observation) (w : World) : World :=
  {| entityStore := entityStore w; containerStore := containerStore w;
     entities := entities w; subscribers := subscribers w;
     lastEntityId := lastEntityId w; trace := trace w ++ [o] |}.

(** The events emitted and the deliveries made, read off a trace. *)
Definition emitted (tr : list Observation) : list Event :=
  omap (λ o, match o with Emitted ev => Some ev | Received _ _ => None end) tr.

Definition received (tr : list Observation) : list (ptr * Event) :=
  omap (λ o, match o with Emitted _ => None | Received s ev => Some (s, ev) end) tr.

(** [*ent] for an [Entity* ent]; [None] when [ent] is dangling. *)
Definition deref (w : World) (ent : ptr) : option Entity := entityStore w !! ent.

(** ** Event subsystem *)

(** [World::subscribe<T>] *)
Definition subscribe (T : CppType) (subscriber : ptr) (w : World) : World :=
  let index := getTypeIndex T in
  match subscribers w !! index with
  | None => set_subscribers (λ m, <[index := [subscriber]]> m) w
  | Some subList => set_subscribers (λ m, <[index := subList ++ [subscriber]]> m) w
  end.

(** [World::emit<T>].  Every subscriber of the event's type has its
    [receive] called, in the order of the subscriber vector. *)
Definition emit (event : Event) (w : World) : World :=
  let w := observe (Emitted event) w in
  match subscribers w !! getTypeIndex (eventType event) with
  | Some subList => foldl (λ w base, observe (Received base event) w) w subList
  | None => w
  end.

(** An iterator into [subscribers]: [None] is [subscribers.end()], [Some k]
    points at the entry of key [k]. *)
Definition find (index : TypeIndex) (w : World) : option TypeIndex :=
  match subscribers w !! index with
  | Some _ => Some index
  | None => None
  end.

(** The erase-remove idiom: [v.erase(std::remove(v.begin(), v.end(), x), v.end())]. *)
Definition erase_remove (x : ptr) (v : list ptr) : list ptr :=
  filter (λ y, y ≠ x) v.

(** [World::unsubscribe<T>].  The body reads [found], a name that no
    declaration in the function binds: the lookup
    [auto found = subscribers.find(index)] of [subscribe] and [emit] is not
    there.  The embedding takes [found] as a parameter; [index] is computed
    and never used, as in the source. *)
Definition unsubscribe (found : option TypeIndex) (T : CppType) (subscriber : ptr)
    (w : World) : World :=
  let index := getTypeIndex T in
  match found with
  | Some k =>
      match subscribers w !! k with
      | Some second =>
          let second := erase_remove subscriber second in
          if (length second =? 0)%nat
          then set_subscribers (λ m, delete k m) w
          else set_subscribers (λ m, <[k := second]> m) w
      | None => w
      end
  | None => w
  end.

(** What the spec describes: [unsubscribe<T>] with the lookup by [T]'s key
    done first. *)
Definition unsubscribe_with_lookup (T : CppType) (subscriber : ptr) (w : World) : World :=
  unsubscribe (find (getTypeIndex T) w) T subscriber w.

(** [World::unsubscribeAll].  [for (auto kv : subscribers)] binds [kv] to a
    copy of each entry, so the erase-remove works on the copy; only
    [subscribers.erase(kv.first)] reaches the map, when the copy is left
    empty.  Erasing the entry the loop stands on invalidates the iterator
    of the loop; the embedding takes the run in which the loop goes on over
    the entries present when it started. *)
Definition unsubscribeAll (subscriber : ptr) (w : World) : World :=
  foldl (λ w (kv : TypeIndex * list ptr),
           let second := erase_remove subscriber kv.2 in
           if (length second =? 0)%nat
           then set_subscribers (λ m, delete kv.1 m) w
           else w)
        w (map_to_list (subscribers w)).

(** The subscribers registered for [T], in the order of their vector; none
    when the map has no entry for [T]. *)
Definition subscribers_of (w : World) (T : CppType) : list ptr :=
  default [] (subscribers w !! getTypeIndex T).

(** Is [subscriber] called when an event of type [T] is emitted? *)
Definition notifies (w : World) (T : CppType) (subscriber : ptr) : Prop :=
  subscriber ∈ subscribers_of w T.

(** ** Entity *)

(** [Entity::has<T>] *)
Definition has (e : Entity) (T : CppType) : bool :=
  match components e !! getTypeIndex T with
  | Some _ => true
  | None => false
  end.

(** [Entity::has<T, V, Types...>]: the head type and then the rest. *)
Fixpoint has_all (e : Entity) (T : CppType) (Types : list CppType) : bool :=
  match Types with
  | [] => has e T
  | V :: Types' => has e T && has_all e V Types'
  end.

(** [Entity::get<T>]: the handle of the component, [nullptr] when there is none. *)
Definition get (e : Entity) (T : CppType) : ptr :=
  match components e !! getTypeIndex T with
  | Some container => container
  | None => nullptr
  end.

(** [ComponentHandle<T>::isValid] *)
Definition isValid (handle : ptr) : bool := negb (handle =? nullptr).

Definition getEntityId (e : Entity) : N := id e.
Definition isPendingDestroy (e : Entity) : bool := bPendingDestroy e.

Definition set_components (f : gmap TypeIndex ptr → gmap TypeIndex ptr) (e : Entity) : Entity :=
  {| components := f (components e); id := id e; bPendingDestroy := bPendingDestroy e |}.

Definition set_bPendingDestroy (b : bool) (e : Entity) : Entity :=
  {| components := components e; id := id e; bPendingDestroy := b |}.

(** [Entity::assign<T>(args...)] on the entity at [ent]; [data] is the value
    [T(args...)].  Returns the World and the handle. *)
Definition assign (ent : ptr) (T : CppType) (data : Value) (w : World)
    : option (World * ptr) :=
  e ← deref w ent;
  match components e !! getTypeIndex T with
  | Some container =>
      _ ← containerStore w !! container;
      let w := set_containerStore (λ st, <[container := data]> st) w in
      let handle := container in
      Some (emit (OnComponentAssigned T ent handle) w, handle)
  | None =>
      let container := allocate (containerStore w) in
      let w := set_containerStore (λ st, <[container := data]> st) w in
      let w := set_entityStore
                 (λ st, <[ent := set_components (λ m, <[getTypeIndex T := container]> m) e]> st) w in
      let handle := container in
      Some (emit (OnComponentAssigned T ent handle) w, handle)
  end.

(** [Entity::removeAll], as far as the containers go: every container of the
    entity is destroyed and deallocated. *)
Definition removeAll (e : Entity) (store : gmap ptr Value) : gmap ptr Value :=
  map_fold (λ _ container st, delete container st) store (components e).

(** [allocator_traits::destroy(entAlloc, ent)], which runs [~Entity] and so
    [removeAll], followed by [allocator_traits::deallocate(entAlloc, ent, 1)]. *)
Definition destroy_deallocate (ent : ptr) (w : World) : option World :=
  e ← deref w ent;
  Some (set_entityStore (λ st, delete ent st) (set_containerStore (removeAll e) w)).

(** ** World *)

(** [World::create] *)
Definition create (w : World) : World * ptr :=
  let w := set_lastEntityId ((lastEntityId w + 1) mod size_t_modulus) w in
  let ent := allocate (entityStore w) in
  let w := set_entityStore
             (λ st, <[ent := {| components := ∅; id := lastEntityId w;
                                bPendingDestroy := false |}]> st) w in
  let w := set_entities (λ v, v ++ [ent]) w in
  (emit (OnEntityCreated ent) w, ent).

(** [World::destroy] *)
Definition destroy (ent : ptr) (immediate : bool) (w : World) : option World :=
  if decide (ent = nullptr) then Some w
  else
    e ← deref w ent;
    if isPendingDestroy e then
      if immediate
      then destroy_deallocate ent (set_entities (erase_remove ent) w)
      else Some w
    else
      let w := set_entityStore (λ st, <[ent := set_bPendingDestroy true e]> st) w in
      let w := emit (OnEntityDestroyed ent) w in
      if immediate
      then destroy_deallocate ent (set_entities (erase_remove ent) w)
      else Some w.

(** The [std::remove_if] of [World::cleanup] with its deallocating predicate:
    the elements kept, the World after the deallocations, and [count].
    [count] never exceeds the length of the vector and is a [nat]. *)
Fixpoint cleanup_remove_if (v : list ptr) (w : World) (count : nat)
    : option (list ptr * World * nat) :=
  match v with
  | [] => Some ([], w, count)
  | ent :: v' =>
      e ← deref w ent;
      if isPendingDestroy e then
        w ← destroy_deallocate ent w;
        cleanup_remove_if v' w (S count)
      else
        '(kept, w, count) ← cleanup_remove_if v' w count;
        Some (ent :: kept, w, count)
  end.

(** [World::cleanup] *)
Definition cleanup (w : World) : option (World * bool) :=
  '(kept, w, count) ← cleanup_remove_if (entities w) w 0%nat;
  Some (set_entities (λ _, kept) w, bool_decide (0 < count)%nat).

(** The loop of [World::reset] over the entity vector. *)
Fixpoint reset_loop (v : list ptr) (w : World) : option World :=
  match v with
  | [] => Some w
  | ent :: v' =>
      e ← deref w ent;
      let w :=
        if negb (isPendingDestroy e)
        then emit (OnEntityDestroyed ent)
               (set_entityStore (λ st, <[ent := set_bPendingDestroy true e]> st) w)
        else w in
      w ← destroy_deallocate ent w;
      reset_loop v' w
  end.

(** [World::reset] *)
Definition reset (w : World) : option World :=
  w ← reset_loop (entities w) w;
  Some (set_lastEntityId 0 (set_entities (λ _, []) w)).

(** [World::getCount]; the size of a vector is a [nat]. *)
Definition getCount (w : World) : nat := length (entities w).

(** [World::getByIndex] *)
Definition getByIndex (w : World) (idx : nat) : ptr :=
  if (getCount w <=? idx)%nat then nullptr
  else default nullptr (entities w !! idx).

(** The scan of [World::getById] over the entity vector. *)
Fixpoint getById_loop (w : World) (v : list ptr) (id : N) : option ptr :=
  match v with
  | [] => Some nullptr
  | ent :: v' =>
      e ← deref w ent;
      if getEntityId e =? id then Some ent else getById_loop w v' id
  end.

(** [World::getById] *)
Definition getById (w : World) (id : N) : option ptr :=
  if (id =? InvalidEntityId) || (lastEntityId w <? id) then Some nullptr
  else getById_loop w (entities w) id.

End Model.

(** ** Iteration views *)

Module Internal.
Section Iterators.
Context {Value : Type}.

(** [EntityComponentIterator<Types...>] and [EntityIterator] are the same
    class but for one conjunct: the former also tests
    [get()->has<Types...>()].  [passes] is that test; for [EntityIterator]
    it is the constant [true]. *)
Variable passes : Entity → bool.

(** The iterator's fields; [world] is the World passed to each method. *)
Record Iterator : Type := mkIterator {
  bIsEnd : bool;
  index : nat;
  bIncludePendingDestroy : bool
}.

(** The constructor: [if (index >= world->getCount()) this->bIsEnd = true]. *)
Definition construct (w : @World Value) (index : nat) (bIsEnd bIncludePendingDestroy : bool)
    : Iterator :=
  {| bIsEnd := if (getCount w <=? index)%nat then true else bIsEnd;
     index := index;
     bIncludePendingDestroy := bIncludePendingDestroy |}.

Definition isEnd (w : @World Value) (it : Iterator) : bool :=
  bIsEnd it || (getCount w <=? index it)%nat.

Definition get (w : @World Value) (it : Iterator) : ptr :=
  if isEnd w it then nullptr else getByIndex w (index it).

(** [operator!=], for two iterators of the same World. *)
Definition neq (w : @World Value) (it other : Iterator) : bool :=
  if isEnd w it then negb (isEnd w other)
  else negb (index it =? index other)%nat.

Definition set_index (n : nat) (it : Iterator) : Iterator :=
  {| bIsEnd := bIsEnd it; index := n; bIncludePendingDestroy := bIncludePendingDestroy it |}.

Definition set_bIsEnd (b : bool) (it : Iterator) : Iterator :=
  {| bIsEnd := b; index := index it; bIncludePendingDestroy := bIncludePendingDestroy it |}.

(** The second conjunct of the loop condition of [operator++]:
    [get() == nullptr || !get()->has<Types...>() ||
     (get()->isPendingDestroy() && !bIncludePendingDestroy)]. *)
Definition skipped (w : @World Value) (it : Iterator) : option bool :=
  let ent := get w it in
  if ent =? nullptr then Some true
  else
    e ← deref w ent;
    Some (negb (passes e) || (isPendingDestroy e && negb (bIncludePendingDestroy it))).

(** The [while] loop of [operator++].  Each turn moves [index] one step
    towards [getCount()]; [None] also when [fuel] runs out. *)
Fixpoint advance (fuel : nat) (w : @World Value) (it : Iterator) : option Iterator :=
  match fuel with
  | O => None
  | S fuel' =>
      if (index it <? getCount w)%nat then
        skip ← skipped w it;
        if skip : bool then advance fuel' w (set_index (S (index it)) it) else Some it
      else Some it
  end.

(** [operator++] *)
Definition next (w : @World Value) (it : Iterator) : option Iterator :=
  let it := set_index (S (index it)) it in
  it ← advance (S (getCount w - index it)) w it;
  Some (if (getCount w <=? index it)%nat then set_bIsEnd true it else it).

(** The constructor of [EntityComponentView<Types...>] (and of [EntityView]):
    [firstItr] is moved on when it does not stand on an entity of the view.
    The result is [(begin(), end())]. *)
Definition view (w : @World Value) (first last : Iterator) : option (Iterator * Iterator) :=
  let ent := get w first in
  move ←
    (if ent =? nullptr then Some true
     else
       e ← deref w ent;
       Some ((isPendingDestroy e && negb (bIncludePendingDestroy first)) || negb (passes e)));
  if move : bool then firstItr ← next w first; Some (firstItr, last)
  else Some (first, last).

(** The range-based [for] over a view,
    [for (it = begin(); it != end(); ++it) { ent = *it; ... }]: the entities
    the body is run on, in order.  The body leaves the entity vector and the
    entities alone.  [None] also when [fuel] runs out. *)
Fixpoint range_for (fuel : nat) (w : @World Value) (it last : Iterator) : option (list ptr) :=
  match fuel with
  | O => None
  | S fuel' =>
      if neq w it last then
        let ent := get w it in
        it ← next w it;
        rest ← range_for fuel' w it last;
        Some (ent :: rest)
      else Some []
  end.

End Iterators.
End Internal.

Section Views.
Context {Value : Type}.

(** [World::each<Types...>(bIncludePendingDestroy)] run through a range-based
    [for]: the entities visited.  [Types...] is [T, Types]; the pack has at
    least one type, [has<>] of no type does not exist. *)
Definition each (w : @World Value) (T : CppType) (Types : list CppType)
    (bIncludePendingDestroy : bool) : option (list ptr) :=
  let passes := λ e, has_all e T Types in
  let first := Internal.construct w 0 false bIncludePendingDestroy in
  let last := Internal.construct w (getCount w) true bIncludePendingDestroy in
  '(first, last) ← Internal.view passes w first last;
  Internal.range_for passes (S (getCount w)) w first last.

(** [World::all(bIncludePendingDestroy)] run through a range-based [for]. *)
Definition all (w : @World Value) (bIncludePendingDestroy : bool) : option (list ptr) :=
  let passes := λ _ : Entity, true in
  let first := Internal.construct w 0 false bIncludePendingDestroy in
  let last := Internal.construct w (getCount w) true bIncludePendingDestroy in
  '(first, last) ← Internal.view passes w first last;
  Internal.range_for passes (S (getCount w)) w first last.

(** [World::each<Types...>(viewFunc, bIncludePendingDestroy)]: the argument
    lists [viewFunc] is called with, [(ent, ent->get<Types>()...)], in order. *)
Definition each_call (w : @World Value) (T : CppType) (Types : list CppType)
    (bIncludePendingDestroy : bool) : option (list (ptr * list ptr)) :=
  visited ← each w T Types bIncludePendingDestroy;
  mapM (λ ent, e ← deref w ent; Some (ent, (λ U, get e U) <$> (T :: Types))) visited.

(** [World::all(viewFunc, bIncludePendingDestroy)]: the arguments [viewFunc]
    is called with, in order. *)
Definition all_call (w : @World Value) (bIncludePendingDestroy : bool) : option (list ptr) :=
  all w bIncludePendingDestroy.

End Views.

(** ** Sequences of calls and well-formed Worlds *)

Section Runs.
Context {Value : Type}.

(** [n] calls of [create] in a row: the World after them and the entities
    returned, first call first. *)
Fixpoint create_n (n : nat) (w : @World Value) : World * list ptr :=
  match n with
  | O => (w, [])
  | S n' =>
      let '(w, ent) := create w in
      let '(w, ents) := create_n n' w in
      (w, ent :: ents)
  end.

(** Calls of [destroy] on one entity in a row, one per flag. *)
Fixpoint destroy_many (ent : ptr) (immediates : list bool) (w : @World Value)
    : option World :=
  match immediates with
  | [] => Some w
  | immediate :: rest => w ← destroy ent immediate w; destroy_many ent rest w
  end.

(** Is the entity at [ent] pending destroy? *)
Definition pending (w : @World Value) (ent : ptr) : bool :=
  match deref w ent with
  | Some e => isPendingDestroy e
  | None => false
  end.

(** Every pointer of the entity vector is the address of a live entity. *)
Definition entities_live (w : @World Value) : Prop :=
  Forall (λ ent, ent ≠ nullptr ∧ is_Some (deref w ent)) (entities w).

(** No pointer is twice in the entity vector. *)
Definition entities_distinct (w : @World Value) : Prop := NoDup (entities w).

(** The ids of the entities of the vector, in order. *)
Definition ids (w : @World Value) : list N :=
  omap (λ ent, getEntityId <$> deref w ent) (entities w).

(** No two entities of the vector have the same id. *)
Definition ids_distinct (w : @World Value) : Prop := NoDup (ids w).

(** Every container of the entity is live. *)
Definition containers_live (w : @World Value) (e : Entity) : Prop :=
  map_Forall (λ _ container, container ≠ nullptr ∧ is_Some (containerStore w !! container))
             (components e).

#[global] Instance entities_live_dec (w : @World Value) : Decision (entities_live w).
Proof. unfold entities_live. apply _. Defined.

#[global] Instance entities_distinct_dec (w : @World Value) : Decision (entities_distinct w).
Proof. unfold entities_distinct. apply _. Defined.

#[global] Instance ids_distinct_dec (w : @World Value) : Decision (ids_distinct w).
Proof. unfold ids_distinct. apply _. Defined.

#[global] Instance containers_live_dec (w : @World Value) (e : Entity) :
  Decision (containers_live w e).
Proof. unfold containers_live. apply _. Defined.

End Runs.

(** ** The Worlds the interface can reach *)

Section Reachable.
Context {Value : Type}.

(** Every id of the vector has been issued: it is not 0 and not above the
    counter. *)
Definition ids_bounded (w : @World Value) : Prop :=
  Forall (λ i, 0 < i ∧ i ≤ lastEntityId w) (ids w).

(** The invariant of the entity vector. *)
Definition World_wf (w : @World Value) : Prop :=
  entities_live w ∧ entities_distinct w ∧ ids_distinct w ∧ ids_bounded w.

(** The containers of the live entities are live, and no container belongs
    to two entities or to two types of one entity. *)
Definition containers_owned (w : @World Value) : Prop :=
  (∀ ent e, deref w ent = Some e → containers_live w e)
  ∧ (∀ ent1 ent2 e1 e2 T1 T2 container,
       deref w ent1 = Some e1 → deref w ent2 = Some e2 →
       components e1 !! T1 = Some container → components e2 !! T2 = Some container →
       ent1 = ent2 ∧ T1 = T2).

(** One call of the World's interface that goes through.  [create] is
    taken as long as the id counter does not wrap around. *)
Inductive step : @World Value → @World Value → Prop :=
| step_subscribe T subscriber w :
    step w (subscribe T subscriber w)
| step_unsubscribeAll subscriber w :
    step w (unsubscribeAll subscriber w)
| step_emit event w :
    step w (emit event w)
| step_create w :
    lastEntityId w + 1 < size_t_modulus →
    step w (create w).1
| step_assign ent T data w w' handle :
    assign ent T data w = Some (w', handle) →
    step w w'
| step_destroy ent immediate w w' :
    destroy ent immediate w = Some w' →
    step w w'
| step_cleanup w w' removed :
    cleanup w = Some (w', removed) →
    step w w'
| step_reset w w' :
    reset w = Some w' →
    step w w'.

(** The Worlds reached from a new World. *)
Definition reachable (w : @World Value) : Prop := rtc step newWorld w.

End Reachable.

(** ** What a view is expected to visit *)

Section Expected.
Context {Value : Type}.

(** The entity at [ent] is not hidden by its pending-destroy flag. *)
Definition visible (w : @World Value) (bIncludePendingDestroy : bool) (ent : ptr) : bool :=
  bIncludePendingDestroy || negb (pending w ent).

(** The entity at [ent] is live, passes the component test of the iterator
    and is visible. *)
Definition qualifies (passes : Entity → bool) (w : @World Value)
    (bIncludePendingDestroy : bool) (ent : ptr) : bool :=
  match deref w ent with
  | Some e => passes e && (bIncludePendingDestroy || negb (isPendingDestroy e))
  | None => false
  end.

(** [ent->has<T, Types...>()] *)
Definition has_types (w : @World Value) (ent : ptr) (T : CppType) (Types : list CppType)
    : bool :=
  match deref w ent with
  | Some e => has_all e T Types
  | None => false
  end.

(** [ent->get<Types>()...] *)
Definition handles (w : @World Value) (ent : ptr) (Types : list CppType) : list ptr :=
  match deref w ent with
  | Some e => (λ U, get e U) <$> Types
  | None => []
  end.

End Expected.

(** ** A sample World *)

(** A World with three entities: entity 1 has a component of type
    [UserType 1], entity 2 is pending destroy, entity 3 has components of
    types [UserType 1] and [UserType 2]; subscriber 7 listens to
    [OnEntityDestroyed]. *)
Definition demo_world : @World nat :=
  let w := subscribe OnEntityDestroyed_t 7 newWorld in
  let w := (create_n 3 w).1 in
  let w := default w (destroy 2 false w) in
  let w := default w (fst <$> assign 1 (UserType 1) 42%nat w) in
  let w := default w (fst <$> assign 3 (UserType 1) 43%nat w) in
  default w (fst <$> assign 3 (UserType 2) 44%nat w).

(** Entities 1 and 3 of [demo_world]. *)
Definition demo_entity_1 : Entity :=
  {| components := {[UserType 1 := 1]}; id := 1; bPendingDestroy := false |}.

Definition demo_entity_3 : Entity :=
  {| components := {[UserType 1 := 2; UserType 2 := 3]}; id := 3; bPendingDestroy := false |}.

(** [demo_world] after [destroy] of entity 1. *)
Definition demo_world_destroyed : @World nat :=
  default demo_world (destroy 1 false demo_world).

(** [demo_world_destroyed] after [cleanup]. *)
Definition demo_world_cleaned : @World nat :=
  default demo_world_destroyed (fst <$> cleanup demo_world_destroyed).

(** ** More of Entity and ComponentHandle *)

Section EntityRest.
Context {Value : Type}.

(** [ComponentHandle<T>::get], [*component]; [None] when the handle is
    invalid or dangling. *)
Definition handle_get (w : @World Value) (handle : ptr) : option Value :=
  if isValid handle then containerStore w !! handle else None.

(** [Entity::remove<T>] on the entity at [ent]: the World and the result.
    [found->second->destroy(world)] destroys and deallocates the container. *)
Definition remove (ent : ptr) (T : CppType) (w : @World Value) : option (World * bool) :=
  e ← deref w ent;
  match components e !! getTypeIndex T with
  | Some container =>
      _ ← containerStore w !! container;
      let w := set_containerStore (λ st, delete container st) w in
      let w := set_entityStore
                 (λ st, <[ent := set_components (λ m, delete (getTypeIndex T) m) e]> st) w in
      Some (w, true)
  | None => Some (w, false)
  end.

(** [Entity::removeAll] on the entity at [ent]: every container is destroyed
    and deallocated, then [components.clear()]. *)
Definition Entity_removeAll (ent : ptr) (w : @World Value) : option World :=
  e ← deref w ent;
  let w := set_containerStore (removeAll e) w in
  Some (set_entityStore (λ st, <[ent := set_components (λ _, ∅) e]> st) w).

(** [Entity::with<T, Types...>(view)]: the result, and the handles [view]
    is called with when it is called. *)
Definition with_ (e : Entity) (T : CppType) (Types : list CppType)
    : bool * option (list ptr) :=
  if negb (has_all e T Types) then (false, None)
  else (true, Some ((λ U, get e U) <$> (T :: Types))).

End EntityRest.

(** ** Equality of iterators *)

Section IteratorEquality.
Context {Value : Type}.

(** [operator==] of [EntityIterator] and [EntityComponentIterator<Types...>],
    for two iterators of the same World. *)
Definition iterator_eq (w : @World Value) (it other : Internal.Iterator) : bool :=
  if Internal.isEnd w it then Internal.isEnd w other
  else (Internal.index it =? Internal.index other)%nat.

(** The end flag of the iterator is set only at or past the end of the
    vector: so the constructor leaves an iterator whose flag was not given
    set, and so [operator++] leaves such an iterator. *)
Definition flag_agrees (w : @World Value) (it : Internal.Iterator) : Prop :=
  Internal.bIsEnd it = true → (getCount w ≤ Internal.index it)%nat.

End IteratorEquality.

(** ** Type registration without RTTI *)

(** [TypeIndex] under ECS_NO_RTTI is a [uint32_t]. *)
Definition uint32_modulus : N := 2 ^ 32.

(** [TypeRegistry::TypeRegistry()]: [index = nextIndex; ++nextIndex;].
    [nextIndex] is the static counter; the result is the [index] of the new
    registry and the counter after. *)
Definition TypeRegistry_construct (nextIndex : N) : N * N :=
  (nextIndex, (nextIndex + 1) mod uint32_modulus).

(** The static counter starts at 1. *)
Definition TypeRegistry_nextIndex_init : N := 1.

(** [n] registries constructed one after the other, as static
    initialisation does for the types declared with ECS_DEFINE_TYPE: their
    indices, first the first constructed, and the counter after. *)
Fixpoint TypeRegistry_construct_n (n : nat) (nextIndex : N) : list N * N :=
  match n with
  | O => ([], nextIndex)
  | S n' =>
      let '(index, nextIndex) := TypeRegistry_construct nextIndex in
      let '(indices, nextIndex) := TypeRegistry_construct_n n' nextIndex in
      (index :: indices, nextIndex)
  end.

(** ** Systems, tick and the destructor *)

Section Systems.
Context {Value Data : Type}.

(** The calls the World makes into [EntitySystem] objects, oldest first.
    [configure], [unconfigure] and [tick] are code of the host and are
    recorded as calls. [Data] is ECS_TICK_TYPE. *)
Inductive SystemCall : Type :=
| Configured (system : ptr)
| Unconfigured (system : ptr)
| Ticked (system : ptr) (data : Data).

(** The World with the member left out of [World]: the [systems] vector,
    and the log of the calls into the systems. *)
Record SystemWorld : Type := mkSystemWorld {
  world : @World Value;
  systems : list ptr;
  systemCalls : list SystemCall
}.

(** [World::registerSystem] *)
Definition registerSystem (system : ptr) (sw : SystemWorld) : SystemWorld :=
  {| world := world sw;
     systems := systems sw ++ [system];
     systemCalls := systemCalls sw ++ [Configured system] |}.

(** [World::unregisterSystem] *)
Definition unregisterSystem (system : ptr) (sw : SystemWorld) : SystemWorld :=
  {| world := world sw;
     systems := erase_remove system (systems sw);
     systemCalls := systemCalls sw ++ [Unconfigured system] |}.

(** [World::tick(data)], with ECS_TICK_NO_CLEANUP not defined: [cleanup()]
    and then [tick] of every system. *)
Definition tick (data : Data) (sw : SystemWorld) : option SystemWorld :=
  '(w, _) ← cleanup (world sw);
  Some {| world := w;
          systems := systems sw;
          systemCalls := systemCalls sw ++ ((λ system, Ticked system data) <$> systems sw) |}.



End Systems.

(** ** Calls of the interface, with those of Entity *)

Section Calls.
Context {Value : Type}.

(** A call of [step], or a call of [Entity::remove] or [Entity::removeAll]
    that goes through. *)
Inductive call : @World Value → @World Value → Prop :=
| call_step w w' :
    step w w' →
    call w w'
| call_remove ent T w w' removed :
    remove ent T w = Some (w', removed) →
    call w w'
| call_removeAll ent w w' :
    Entity_removeAll ent w = Some w' →
    call w w'.

End Calls.

(** ** Nothing allocated is lost *)

Section NoLeak.
Context {Value : Type}.

(** Every live entity is in the entity vector. *)
Definition entities_listed (w : @World Value) : Prop :=
  ∀ ent, is_Some (deref w ent) → ent ∈ entities w.

(** Every live container holds a component of a live entity. *)
Definition containers_held (w : @World Value) : Prop :=
  ∀ container, is_Some (containerStore w !! container) →
    ∃ ent e T, deref w ent = Some e ∧ components e !! T = Some container.

End NoLeak.

(** ** More sample Worlds *)

(** Entity 2 of [demo_world], pending destroy. *)
Definition demo_entity_2 : Entity :=
  {| components := ∅; id := 2; bPendingDestroy := true |}.

(** Three entities and nothing else. *)
Definition demo_world_created : @World nat := (create_n 3 newWorld).1.

(** [demo_world] after [remove<UserType 1>] on entity 3. *)
Definition demo_world_removed : @World nat :=
  default demo_world (fst <$> remove 3 (UserType 1) demo_world).

(** [demo_world] with systems 11 and 12 registered. *)
Definition demo_system_world : @SystemWorld nat nat :=
  registerSystem 12 (registerSystem 11 (mkSystemWorld demo_world [] [])).

(** Iterators over [demo_world]: at its first entity, at its end, and
    constructed past its end. *)
Definition demo_begin : Internal.Iterator := Internal.construct demo_world 0 false false.
Definition demo_end : Internal.Iterator := Internal.construct demo_world 3 true false.
Definition demo_past : Internal.Iterator := Internal.construct demo_world 5 false true.

(** * Properties *)

Section Properties.
Context {Value : Type}.
Implicit Types (w : @World Value) (event : @Event Value) (e : Entity).
Implicit Types (ent subscriber : ptr) (T : CppType).

(** ** Allocation *)

Lemma foldr_max_ge (l : list N) (k : N) : k ∈ l → k ≤ foldr N.max 0 l.
Proof.
  induction l as [|x l IH]; intros Hin.
  - by apply elem_of_nil in Hin.
  - apply elem_of_cons in Hin as [->|Hin]; simpl; [lia|].
    specialize (IH Hin). lia.
Qed.

Lemma allocate_fresh {A : Type} (store : gmap ptr A) : store !! allocate store = None.
Proof.
  destruct (store !! allocate store) as [x|] eqn:E; [|done].
  apply elem_of_map_to_list in E.
  assert (allocate store ∈ (map_to_list store).*1) as Hin.
  { apply list_elem_of_fmap. by exists (allocate store, x). }
  apply foldr_max_ge in Hin. unfold allocate in Hin at 1. lia.
Qed.

Lemma allocate_not_null {A : Type} (store : gmap ptr A) : allocate store ≠ nullptr.
Proof. unfold allocate, nullptr. lia. Qed.

(** ** Events *)

Lemma foldl_observe_received event (subList : list ptr) w :
  foldl (λ w base, observe (Received base event) w) w subList
  = {| entityStore := entityStore w; containerStore := containerStore w;
       entities := entities w; subscribers := subscribers w;
       lastEntityId := lastEntityId w;
       trace := trace w ++ ((λ s, Received s event) <$> subList) |}.
Proof.
  revert w. induction subList as [|s l IH]; intros w; simpl.
  - rewrite app_nil_r. by destruct w.
  - rewrite IH. simpl. by rewrite <- app_assoc.
Qed.

Lemma emit_eq event w :
  emit event w
  = {| entityStore := entityStore w; containerStore := containerStore w;
       entities := entities w; subscribers := subscribers w;
       lastEntityId := lastEntityId w;
       trace := trace w ++ Emitted event
                  :: ((λ s, Received s event) <$> subscribers_of w (eventType event)) |}.
Proof.
  unfold emit, subscribers_of. simpl.
  destruct (subscribers w !! getTypeIndex (eventType event)) as [subList|]; simpl.
  - rewrite foldl_observe_received. simpl. by rewrite <- app_assoc.
  - reflexivity.
Qed.

Lemma emitted_app (tr1 tr2 : list (@Observation Value)) :
  emitted (tr1 ++ tr2) = emitted tr1 ++ emitted tr2.
Proof. unfold emitted. apply omap_app. Qed.

Lemma received_app (tr1 tr2 : list (@Observation Value)) :
  received (tr1 ++ tr2) = received tr1 ++ received tr2.
Proof. unfold received. apply omap_app. Qed.

Lemma emitted_Received event (l : list ptr) :
  emitted ((λ s, Received s event) <$> l) = [].
Proof. induction l as [|s l IH]; [done|]. simpl. exact IH. Qed.

Lemma received_Received event (l : list ptr) :
  received ((λ s, Received s event) <$> l) = (λ s, (s, event)) <$> l.
Proof. induction l as [|s l IH]; [done|]. simpl. f_equal. exact IH. Qed.

Lemma emit_emitted event w :
  emitted (trace (emit event w)) = emitted (trace w) ++ [event].
Proof.
  rewrite emit_eq. simpl. rewrite emitted_app. f_equal.
  change (emitted (Emitted event :: ?l)) with (event :: emitted l).
  by rewrite emitted_Received.
Qed.

Lemma emit_received event w :
  received (trace (emit event w))
  = received (trace w) ++ ((λ s, (s, event)) <$> subscribers_of w (eventType event)).
Proof.
  rewrite emit_eq. simpl. rewrite received_app. f_equal.
  change (received (Emitted event :: ?l)) with (received l).
  by rewrite received_Received.
Qed.

Lemma subscribers_of_subscribe T subscriber w :
  subscribers_of (subscribe T subscriber w) T = subscribers_of w T ++ [subscriber].
Proof.
  unfold subscribers_of, subscribe.
  destruct (subscribers w !! getTypeIndex T) as [l|] eqn:E; simpl;
    by rewrite lookup_insert_eq.
Qed.

Lemma subscribers_of_subscribe_ne T U subscriber w :
  T ≠ U → subscribers_of (subscribe T subscriber w) U = subscribers_of w U.
Proof.
  intros Hne. unfold subscribers_of, subscribe, getTypeIndex.
  destruct (subscribers w !! T) as [l|] eqn:E; simpl;
    by rewrite lookup_insert_ne.
Qed.

(** C7: [emit<T>(event)] calls [receive] on every subscriber registered for
    [T], in the order of registration, all of them before it returns:
    the trace grows by the emit and then one delivery per subscriber, in
    the order of the subscriber vector; [subscribe] appends, so after
    subscribing [A] and then [B] the delivery to [A] comes before the one
    to [B]; with no subscriber for [T] nothing is delivered and the World is
    as before, the record of the emit apart. *)
Theorem emit_registration_order w event (A B : ptr) :
  let T := eventType event in
  trace (emit event w)
    = trace w ++ Emitted event :: ((λ s, Received s event) <$> subscribers_of w T)
  ∧ subscribers_of (subscribe T B (subscribe T A w)) T = subscribers_of w T ++ [A; B]
  ∧ received (trace (emit event (subscribe T B (subscribe T A w))))
    = received (trace w)
        ++ ((λ s, (s, event)) <$> subscribers_of w T) ++ [(A, event); (B, event)]
  ∧ (subscribers_of w T = [] →
     received (trace (emit event w)) = received (trace w)
     ∧ emit event w = observe (Emitted event) w).
Proof.
  intros T. split; [|split; [|split]].
  - by rewrite emit_eq.
  - rewrite !subscribers_of_subscribe. by rewrite <- app_assoc.
  - rewrite emit_received. fold T.
    rewrite !subscribers_of_subscribe, <- app_assoc, fmap_app.
    unfold subscribe.
    destruct (subscribers w !! getTypeIndex T) as [l|]; simpl;
      (destruct (_ !! getTypeIndex T) as [l'|]; reflexivity).
  - intros Hnone. rewrite emit_received, emit_eq. fold T. rewrite Hnone. simpl.
    by rewrite app_nil_r.
Qed.

(** ** Unsubscribing *)

Lemma erase_remove_not_elem (x : ptr) (v : list ptr) : x ∉ erase_remove x v.
Proof. unfold erase_remove. rewrite list_elem_of_filter. by intros [? _]. Qed.

Lemma erase_remove_elem (x y : ptr) (v : list ptr) :
  y ∈ v → y ≠ x → y ∈ erase_remove x v.
Proof. intros. unfold erase_remove. by apply list_elem_of_filter. Qed.

Lemma length_zero_nil {A : Type} (l : list A) : (length l =? 0)%nat = true ↔ l = [].
Proof. destruct l; simpl; split; congruence. Qed.

(** With the lookup the spec describes, [unsubscribe<T>] does remove the
    subscriber: this is what [found] was meant to be. *)
Lemma unsubscribe_with_lookup_removes T subscriber w :
  ¬ notifies (unsubscribe_with_lookup T subscriber w) T subscriber.
Proof.
  unfold notifies, subscribers_of, unsubscribe_with_lookup, unsubscribe, find, getTypeIndex.
  destruct (subscribers w !! T) as [l|] eqn:E; simpl; [|rewrite E; apply not_elem_of_nil].
  rewrite E.
  destruct (length (erase_remove subscriber l) =? 0)%nat eqn:Elen; simpl.
  - rewrite lookup_delete_eq. apply not_elem_of_nil.
  - rewrite lookup_insert_eq. apply erase_remove_not_elem.
Qed.

(** C1: the body of [unsubscribe<T>] as it stands never looks [T] up.
    Whatever [found] denotes, unless it happens to be the iterator the
    missing [subscribers.find(index)] would have returned, a subscriber
    registered for [T] is still in [T]'s list afterwards and an emit of [T]
    still reaches it. *)
Theorem unsubscribe_without_lookup_keeps_subscriber
    w T subscriber event (found : option TypeIndex) :
  eventType event = T →
  found ≠ find (getTypeIndex T) (subscribe T subscriber w) →
  let w' := unsubscribe found T subscriber (subscribe T subscriber w) in
  notifies w' T subscriber
  ∧ (subscriber, event) ∈ received (trace (emit event w')).
Proof.
  intros HT Hfound w'.
  assert (subscribers_of w' T = subscribers_of w T ++ [subscriber]) as Hsub.
  { rewrite <- subscribers_of_subscribe. subst w'.
    set (w1 := subscribe T subscriber w) in *.
    assert (is_Some (subscribers w1 !! getTypeIndex T)) as [l Hl].
    { unfold w1, subscribe. destruct (subscribers w !! getTypeIndex T); simpl;
        rewrite lookup_insert_eq; eauto. }
    unfold find in Hfound. rewrite Hl in Hfound.
    unfold unsubscribe, subscribers_of.
    destruct found as [k|]; [|done].
    assert (k ≠ getTypeIndex T) as Hk by congruence.
    destruct (subscribers w1 !! k) as [second|]; [|done].
    destruct (length _ =? 0)%nat; simpl.
    - by rewrite lookup_delete_ne.
    - by rewrite lookup_insert_ne. }
  assert (notifies w' T subscriber) as Hn.
  { unfold notifies. rewrite Hsub. apply elem_of_app. right. apply list_elem_of_singleton.
    reflexivity. }
  split; [exact Hn|].
  rewrite emit_received, HT. apply elem_of_app. right.
  apply list_elem_of_fmap. by exists subscriber.
Qed.

Lemma unsubscribeAll_subscribers subscriber w :
  subscribers (unsubscribeAll subscriber w)
  = foldl (λ m (kv : TypeIndex * list ptr),
             if (length (erase_remove subscriber kv.2) =? 0)%nat
             then delete kv.1 m else m)
          (subscribers w) (map_to_list (subscribers w)).
Proof.
  unfold unsubscribeAll. generalize (map_to_list (subscribers w)) as l.
  intros l. revert w. induction l as [|kv l IH]; intros w; simpl; [done|].
  rewrite IH. by destruct (length _ =? 0)%nat.
Qed.

Lemma unsubscribeAll_fold_lookup subscriber (l : list (TypeIndex * list ptr))
    (m : gmap TypeIndex (list ptr)) (k : TypeIndex) :
  (∀ v, (k, v) ∈ l → erase_remove subscriber v ≠ []) →
  foldl (λ m (kv : TypeIndex * list ptr),
           if (length (erase_remove subscriber kv.2) =? 0)%nat
           then delete kv.1 m else m) m l !! k
  = m !! k.
Proof.
  revert m. induction l as [|[k' v'] l IH]; intros m Hl; simpl; [done|].
  rewrite IH.
  - destruct (length _ =? 0)%nat eqn:Elen; [|done].
    apply length_zero_nil in Elen.
    destruct (decide (k' = k)) as [->|Hne]; [|by rewrite lookup_delete_ne].
    exfalso. eapply Hl; [|exact Elen]. apply elem_of_cons. by left.
  - intros v Hv. apply Hl. apply elem_of_cons. by right.
Qed.

(** C2: [unsubscribeAll] works on a copy of each subscriber vector.  Where
    [subscriber] shares the vector of a type [T] with a subscriber other
    than itself, the vector of [T] in the registry is what it was, and an
    emit of [T] still reaches [subscriber]. *)
Theorem unsubscribeAll_keeps_shared_subscriber
    w T subscriber (other : ptr) event :
  eventType event = T →
  notifies w T subscriber →
  notifies w T other →
  other ≠ subscriber →
  subscribers (unsubscribeAll subscriber w) !! getTypeIndex T
    = subscribers w !! getTypeIndex T
  ∧ notifies (unsubscribeAll subscriber w) T subscriber
  ∧ (subscriber, event) ∈ received (trace (emit event (unsubscribeAll subscriber w))).
Proof.
  intros HT Hs Ho Hne.
  assert (subscribers (unsubscribeAll subscriber w) !! getTypeIndex T
          = subscribers w !! getTypeIndex T) as Heq.
  { rewrite unsubscribeAll_subscribers. apply unsubscribeAll_fold_lookup.
    intros v Hv Hnil. apply elem_of_map_to_list in Hv.
    unfold notifies, subscribers_of in Ho. rewrite Hv in Ho. simpl in Ho.
    apply (erase_remove_elem subscriber) in Ho; [|done].
    rewrite Hnil in Ho. by apply not_elem_of_nil in Ho. }
  assert (notifies (unsubscribeAll subscriber w) T subscriber) as Hn.
  { unfold notifies, subscribers_of in *. by rewrite Heq. }
  split; [exact Heq|]. split; [exact Hn|].
  rewrite emit_received, HT. apply elem_of_app. right.
  apply list_elem_of_fmap. by exists subscriber.
Qed.

(** ** Creating entities *)

Lemma create_eq w :
  create w
  = ({| entityStore :=
          <[allocate (entityStore w) :=
              {| components := ∅; id := (lastEntityId w + 1) mod size_t_modulus;
                 bPendingDestroy := false |}]> (entityStore w);
        containerStore := containerStore w;
        entities := entities w ++ [allocate (entityStore w)];
        subscribers := subscribers w;
        lastEntityId := (lastEntityId w + 1) mod size_t_modulus;
        trace := trace w ++ Emitted (OnEntityCreated (allocate (entityStore w)))
                   :: ((λ s, Received s (OnEntityCreated (allocate (entityStore w))))
                         <$> subscribers_of w OnEntityCreated_t) |},
     allocate (entityStore w)).
Proof. unfold create. rewrite emit_eq. reflexivity. Qed.

Lemma create_n_S (n : nat) w :
  create_n (S n) w
  = ((create_n n (create w).1).1, (create w).2 :: (create_n n (create w).1).2).
Proof.
  cbn [create_n]. destruct (create w) as [w1 ent]. cbn [fst snd].
  by destruct (create_n n w1).
Qed.

Lemma create_n_spec (n : nat) : ∀ w (k : N),
  lastEntityId w = k →
  k + N.of_nat n < size_t_modulus →
  (λ ent, getEntityId <$> deref (create_n n w).1 ent) <$> (create_n n w).2
    = (λ i, Some (k + N.of_nat i)) <$> seq 1 n
  ∧ entities (create_n n w).1 = entities w ++ (create_n n w).2
  ∧ lastEntityId (create_n n w).1 = k + N.of_nat n
  ∧ (∀ ent, is_Some (deref w ent) → deref (create_n n w).1 ent = deref w ent).
Proof.
  induction n as [|n IH]; intros w k Hk Hlt.
  - simpl. split; [done|]. split; [by rewrite app_nil_r|]. split; [lia|done].
  - rewrite create_n_S, create_eq. cbn [fst snd].
    set (ent := allocate (entityStore w)).
    set (w1 := {| entityStore := _ |}).
    assert ((lastEntityId w + 1) mod size_t_modulus = k + 1) as Hid.
    { rewrite Hk. apply N.mod_small. lia. }
    destruct (IH w1 (k + 1)) as (Hids & Hents & Hlast & Hkeep).
    { simpl. exact Hid. }
    { lia. }
    destruct (create_n n w1) as [w2 ents] eqn:E. cbn [fst snd] in *.
    assert (deref w1 ent = Some {| components := ∅; id := k + 1; bPendingDestroy := false |})
      as Hent.
    { unfold deref, w1. simpl. rewrite lookup_insert_eq. by rewrite Hid. }
    split; [|split; [|split]].
    + rewrite fmap_cons. cbn [seq]. rewrite fmap_cons. f_equal.
      * rewrite Hkeep by (rewrite Hent; eauto). rewrite Hent. simpl. f_equal; lia.
      * rewrite Hids. rewrite <- (fmap_S_seq 1), <- list_fmap_compose.
        apply list_fmap_ext. intros _ i _. simpl. f_equal; lia.
    + rewrite Hents. simpl. by rewrite <- app_assoc.
    + lia.
    + intros p Hp. rewrite Hkeep.
      * unfold deref, w1. simpl. apply lookup_insert_ne. intros <-.
        unfold deref in Hp. fold ent in Hp.
        pose proof (allocate_fresh (entityStore w)) as Hf. fold ent in Hf.
        rewrite Hf in Hp. by destruct Hp.
      * unfold deref, w1. simpl. destruct (decide (ent = p)) as [->|Hne].
        -- rewrite lookup_insert_eq. eauto.
        -- by rewrite lookup_insert_ne.
Qed.

(** C5: in a World whose id counter is 0 and whose entity vector is empty
    (a new World, or one after [reset]), [n] calls of [create] return
    entities with the ids 1, 2, ..., n in that order, the entity vector is
    the returned entities in that order, and [getCount()] is [n].  The
    number of calls is the size of a vector and fits a [size_t]. *)
Theorem create_ids_one_to_n w (n : nat) :
  lastEntityId w = 0 →
  entities w = [] →
  N.of_nat n < size_t_modulus →
  (λ ent, getEntityId <$> deref (create_n n w).1 ent) <$> (create_n n w).2
    = (λ i, Some (N.of_nat i)) <$> seq 1 n
  ∧ entities (create_n n w).1 = (create_n n w).2
  ∧ getCount (create_n n w).1 = n.
Proof.
  intros Hlast Hnil Hlt.
  destruct (create_n_spec n w 0 Hlast) as (Hids & Hents & _ & _); [lia|].
  rewrite Hnil in Hents. simpl in Hents.
  split; [|split].
  - rewrite Hids. apply list_fmap_ext. intros _ i _. f_equal.
  - exact Hents.
  - unfold getCount. rewrite Hents.
    apply (f_equal length) in Hids. by rewrite !length_fmap, length_seq in Hids.
Qed.

(** ** Destroying entities *)

Lemma deref_emit event w ent : deref (emit event w) ent = deref w ent.
Proof. by rewrite emit_eq. Qed.

Lemma set_bPendingDestroy_pending e :
  isPendingDestroy e = true → set_bPendingDestroy true e = e.
Proof. destruct e as [c i b]. simpl. by intros ->. Qed.

Lemma destroy_spec w ent e (immediate : bool) :
  ent ≠ nullptr →
  deref w ent = Some e →
  ∃ w', destroy ent immediate w = Some w'
    ∧ trace w' = trace w
        ++ (if isPendingDestroy e then []
            else Emitted (OnEntityDestroyed ent)
                   :: ((λ s, Received s (OnEntityDestroyed ent))
                         <$> subscribers_of w OnEntityDestroyed_t))
    ∧ deref w' ent = (if immediate then None else Some (set_bPendingDestroy true e))
    ∧ entities w' = (if immediate then erase_remove ent (entities w) else entities w)
    ∧ subscribers w' = subscribers w.
Proof.
  intros Hnull He. unfold destroy.
  destruct (decide (ent = nullptr)) as [|_]; [done|].
  rewrite He. simpl.
  destruct (isPendingDestroy e) eqn:Ep.
  - destruct immediate.
    + unfold destroy_deallocate, deref in *. simpl. rewrite He. simpl.
      eexists. split; [reflexivity|]. simpl.
      by rewrite app_nil_r, lookup_delete_eq.
    + exists w. by rewrite app_nil_r, set_bPendingDestroy_pending.
  - destruct immediate.
    + unfold destroy_deallocate. simpl.
      unfold deref at 1. simpl. rewrite emit_eq. simpl. rewrite lookup_insert_eq. simpl.
      eexists. split; [reflexivity|]. unfold deref. simpl.
      by rewrite lookup_delete_eq.
    + eexists. split; [reflexivity|]. rewrite emit_eq. unfold deref. simpl.
      by rewrite lookup_insert_eq.
Qed.

Lemma destroy_emitted w ent e (immediate : bool) w' :
  ent ≠ nullptr →
  deref w ent = Some e →
  destroy ent immediate w = Some w' →
  emitted (trace w')
  = emitted (trace w) ++ (if isPendingDestroy e then [] else [OnEntityDestroyed ent]).
Proof.
  intros Hnull He Hd.
  destruct (destroy_spec w ent e immediate Hnull He) as (w2 & Hd2 & Htr & _).
  rewrite Hd in Hd2. injection Hd2 as <-.
  rewrite Htr, emitted_app. f_equal.
  destruct (isPendingDestroy e); [done|].
  change (emitted (Emitted ?ev :: ?l)) with (ev :: emitted l).
  by rewrite emitted_Received.
Qed.

Lemma destroy_many_emitted (flags : list bool) : ∀ w ent e w',
  ent ≠ nullptr →
  deref w ent = Some e →
  destroy_many ent flags w = Some w' →
  emitted (trace w')
  = emitted (trace w)
      ++ (if isPendingDestroy e then []
          else match flags with [] => [] | _ :: _ => [OnEntityDestroyed ent] end).
Proof.
  induction flags as [|flag rest IH]; intros w ent e w' Hnull He Hm.
  - simpl in Hm. injection Hm as <-.
    by destruct (isPendingDestroy e); rewrite app_nil_r.
  - cbn [destroy_many] in Hm.
    destruct (destroy_spec w ent e flag Hnull He) as (w1 & Hd & _ & Hderef & _).
    rewrite Hd in Hm. simpl in Hm.
    pose proof (destroy_emitted w ent e flag w1 Hnull He Hd) as Hem.
    destruct flag.
    + destruct rest as [|flag' rest].
      * simpl in Hm. injection Hm as <-. exact Hem.
      * cbn [destroy_many] in Hm. unfold destroy in Hm.
        destruct (decide (ent = nullptr)) as [|_]; [done|].
        rewrite Hderef in Hm. discriminate.
    + rewrite (IH w1 ent _ w' Hnull Hderef Hm). simpl.
      by rewrite Hem, app_nil_r.
Qed.

Lemma destroy_many_repeat (k : nat) : ∀ w ent e (last : bool),
  ent ≠ nullptr →
  deref w ent = Some e →
  is_Some (destroy_many ent (replicate k false ++ [last]) w).
Proof.
  induction k as [|k IH]; intros w ent e last Hnull He.
  - simpl. destruct (destroy_spec w ent e last Hnull He) as (w1 & -> & _). simpl. eauto.
  - cbn [replicate app destroy_many].
    destruct (destroy_spec w ent e false Hnull He) as (w1 & -> & _ & Hderef & _).
    simpl. by eapply IH.
Qed.

(** C3: on an entity [ent] of the World, [destroy(ent, immediate)] emits
    [OnEntityDestroyed] for [ent] when [ent] was not pending destroy, and
    emits nothing when it was; any run of [destroy] calls on [ent] (calls
    with [immediate] false, then possibly one with [immediate] true, after
    which [ent] is no more) goes through and emits the event once if [ent]
    was live at the start and never if it was pending; whatever the flags,
    a run that goes through emits it at most once; and [destroy(nullptr)]
    leaves the World as it is. *)
Theorem destroy_emits_once w ent e :
  ent ≠ nullptr →
  deref w ent = Some e →
  (∀ immediate : bool, ∃ w',
     destroy ent immediate w = Some w'
     ∧ emitted (trace w')
       = emitted (trace w) ++ (if isPendingDestroy e then [] else [OnEntityDestroyed ent]))
  ∧ (∀ (k : nat) (last : bool), ∃ w',
       destroy_many ent (replicate k false ++ [last]) w = Some w'
       ∧ emitted (trace w')
         = emitted (trace w) ++ (if isPendingDestroy e then [] else [OnEntityDestroyed ent]))
  ∧ (∀ (flags : list bool) w',
       destroy_many ent flags w = Some w' →
       emitted (trace w')
       = emitted (trace w)
           ++ (if isPendingDestroy e then []
               else match flags with [] => [] | _ :: _ => [OnEntityDestroyed ent] end))
  ∧ (∀ immediate : bool, destroy nullptr immediate w = Some w).
Proof.
  intros Hnull He. split; [|split; [|split]].
  - intros immediate.
    destruct (destroy_spec w ent e immediate Hnull He) as (w' & Hd & _).
    exists w'. split; [exact Hd|]. by eapply destroy_emitted.
  - intros k last.
    destruct (destroy_many_repeat k w ent e last Hnull He) as [w' Hm].
    exists w'. split; [exact Hm|].
    rewrite (destroy_many_emitted _ w ent e w' Hnull He Hm).
    by destruct k.
  - intros flags w' Hm. by eapply destroy_many_emitted.
  - intros immediate. unfold destroy. by destruct (decide (nullptr = nullptr)).
Qed.

(** ** Cleanup and reset *)

Lemma filter_ext_elem {A : Type} (P Q : A → Prop)
    `{∀ x, Decision (P x)} `{∀ x, Decision (Q x)} (l : list A) :
  (∀ x, x ∈ l → (P x ↔ Q x)) → filter P l = filter Q l.
Proof.
  induction l as [|x l IH]; intros Hext; [done|].
  rewrite !filter_cons.
  rewrite IH by (intros y Hy; apply Hext; apply elem_of_cons; by right).
  destruct (decide (P x)) as [HP|HP], (decide (Q x)) as [HQ|HQ]; try done.
  - exfalso. apply HQ, Hext; [apply elem_of_cons; by left|done].
  - exfalso. apply HP, Hext; [apply elem_of_cons; by left|done].
Qed.

Lemma destroy_deallocate_eq w ent e :
  deref w ent = Some e →
  destroy_deallocate ent w
  = Some {| entityStore := delete ent (entityStore w);
            containerStore := removeAll e (containerStore w);
            entities := entities w; subscribers := subscribers w;
            lastEntityId := lastEntityId w; trace := trace w |}.
Proof. intros He. unfold destroy_deallocate. by rewrite He. Qed.

Lemma cleanup_remove_if_spec (v : list ptr) : ∀ w (count : nat),
  NoDup v →
  Forall (λ ent, is_Some (deref w ent)) v →
  ∃ w',
    cleanup_remove_if v w count
    = Some (filter (λ ent, pending w ent = false) v, w',
            (count + length (filter (λ ent, pending w ent = true) v))%nat)
    ∧ (∀ ent, ent ∈ v → pending w ent = true → deref w' ent = None)
    ∧ (∀ ent, ¬ (ent ∈ v ∧ pending w ent = true) → deref w' ent = deref w ent)
    ∧ entities w' = entities w
    ∧ subscribers w' = subscribers w
    ∧ lastEntityId w' = lastEntityId w
    ∧ trace w' = trace w.
Proof.
  induction v as [|ent v IH]; intros w count Hnd Hlive.
  - exists w. simpl. rewrite Nat.add_0_r. split_and!; try done.
    intros ent Hin. by apply elem_of_nil in Hin.
  - apply NoDup_cons in Hnd as [Hnotin Hnd].
    apply Forall_cons in Hlive as [[e He] Hlive].
    cbn [cleanup_remove_if]. rewrite He. simpl.
    assert (pending w ent = isPendingDestroy e) as Hpe by (unfold pending; by rewrite He).
    destruct (isPendingDestroy e) eqn:Ep.
    + rewrite (destroy_deallocate_eq w ent e He). simpl.
      set (w1 := {| entityStore := _ |}).
      assert (∀ p, p ≠ ent → deref w1 p = deref w p) as Hother.
      { intros p Hp. unfold deref, w1. simpl. by apply lookup_delete_ne. }
      assert (∀ p, p ∈ v → pending w1 p = pending w p) as Hpend.
      { intros p Hp. unfold pending. rewrite Hother; [done|]. by intros ->. }
      destruct (IH w1 (S count) Hnd) as (w' & Hrun & Hgone & Hkeep & Hrest).
      { apply Forall_forall. intros p Hp. rewrite Hother by (by intros ->).
        by eapply Forall_forall in Hlive. }
      exists w'. split_and!.
      * rewrite Hrun. rewrite (filter_cons_False _ ent) by (by rewrite Hpe).
        rewrite (filter_cons_True _ ent) by done. simpl.
        rewrite (filter_ext_elem (λ p, pending w1 p = false) (λ p, pending w p = false))
          by (intros p Hp; by rewrite Hpend).
        rewrite (filter_ext_elem (λ p, pending w1 p = true) (λ p, pending w p = true))
          by (intros p Hp; by rewrite Hpend).
        do 2 f_equal. lia.
      * intros p Hp Hpp. apply elem_of_cons in Hp as [->|Hp].
        -- rewrite Hkeep by (by intros [? _]).
           unfold deref, w1. simpl. apply lookup_delete_eq.
        -- apply Hgone; [done|]. by rewrite Hpend.
      * intros p Hp.
        assert (p ≠ ent) as Hne.
        { intros ->. apply Hp. split; [apply elem_of_cons; by left|done]. }
        rewrite Hkeep, Hother; [done|done|].
        intros [Hin Hpp]. apply Hp. split; [apply elem_of_cons; by right|].
        by rewrite <- Hpend.
      * by destruct Hrest as (-> & _).
      * by destruct Hrest as (_ & -> & _).
      * by destruct Hrest as (_ & _ & -> & _).
      * by destruct Hrest as (_ & _ & _ & ->).
    + destruct (IH w count Hnd Hlive) as (w' & Hrun & Hgone & Hkeep & Hrest).
      exists w'. split_and!.
      * rewrite Hrun. simpl.
        rewrite (filter_cons_True _ ent) by done.
        rewrite (filter_cons_False _ ent) by (by rewrite Hpe).
        done.
      * intros p Hp Hpp. apply elem_of_cons in Hp as [->|Hp]; [congruence|].
        by apply Hgone.
      * intros p Hp. apply Hkeep. intros [Hin Hpp]. apply Hp.
        split; [apply elem_of_cons; by right|done].
      * by destruct Hrest as (-> & _).
      * by destruct Hrest as (_ & -> & _).
      * by destruct Hrest as (_ & _ & -> & _).
      * by destruct Hrest as (_ & _ & _ & ->).
Qed.

Lemma cleanup_run w :
  entities_distinct w →
  entities_live w →
  ∃ w',
    cleanup w
    = Some (w', bool_decide
                  (0 < length (filter (λ ent, pending w ent = true) (entities w)))%nat)
    ∧ entities w' = filter (λ ent, pending w ent = false) (entities w)
    ∧ (∀ ent, ent ∈ entities w → pending w ent = true → deref w' ent = None)
    ∧ (∀ ent, ¬ (ent ∈ entities w ∧ pending w ent = true) → deref w' ent = deref w ent)
    ∧ subscribers w' = subscribers w
    ∧ lastEntityId w' = lastEntityId w
    ∧ trace w' = trace w.
Proof.
  intros Hnd Hlive.
  destruct (cleanup_remove_if_spec (entities w) w 0 Hnd)
    as (w1 & Hrun & Hgone & Hkeep & _ & Hsub & Hlast & Htrace).
  { eapply Forall_impl; [exact Hlive|]. by intros ent [_ ?]. }
  unfold cleanup. rewrite Hrun. simpl.
  eexists. split; [reflexivity|]. by split_and!.
Qed.

(** C10: [cleanup()] takes the pending-destroy entities, and only them, out
    of the entity vector, the entities that stay keeping their order; it
    returns [true] exactly when the vector had a pending-destroy entity;
    the removed entities are deallocated and the others are as they were. *)
Theorem cleanup_removes_pending w :
  entities_distinct w →
  entities_live w →
  ∃ w' (removed : bool),
    cleanup w = Some (w', removed)
    ∧ entities w' = filter (λ ent, pending w ent = false) (entities w)
    ∧ (removed = true ↔ ∃ ent, ent ∈ entities w ∧ pending w ent = true)
    ∧ (∀ ent, ent ∈ entities w → pending w ent = false → deref w' ent = deref w ent)
    ∧ (∀ ent, ent ∈ entities w → pending w ent = true → deref w' ent = None).
Proof.
  intros Hnd Hlive.
  destruct (cleanup_run w Hnd Hlive) as (w' & Hrun & Hents & Hgone & Hkeep & _).
  eexists _, _. split; [exact Hrun|]. split_and!.
  - exact Hents.
  - rewrite bool_decide_eq_true. split.
    + intros Hlen.
      destruct (filter (λ ent, pending w ent = true) (entities w)) as [|ent l] eqn:E;
        [simpl in Hlen; lia|].
      exists ent.
      assert (ent ∈ filter (λ ent, pending w ent = true) (entities w)) as Hin.
      { rewrite E. apply elem_of_cons. by left. }
      by apply list_elem_of_filter in Hin as [? ?].
    + intros (ent & Hin & Hp).
      assert (ent ∈ filter (λ ent, pending w ent = true) (entities w)) as Hin2.
      { by apply list_elem_of_filter. }
      destruct (filter (λ ent, pending w ent = true) (entities w)); simpl; [|lia].
      by apply elem_of_nil in Hin2.
  - intros ent Hin Hp. apply Hkeep. intros [_ ?]. congruence.
  - exact Hgone.
Qed.

Lemma reset_loop_spec (v : list ptr) : ∀ w,
  NoDup v →
  Forall (λ ent, is_Some (deref w ent)) v →
  ∃ w',
    reset_loop v w = Some w'
    ∧ emitted (trace w')
      = emitted (trace w)
          ++ (OnEntityDestroyed <$> filter (λ ent, pending w ent = false) v)
    ∧ (∀ ent, ent ∈ v → deref w' ent = None)
    ∧ (∀ ent, ent ∉ v → deref w' ent = deref w ent)
    ∧ subscribers w' = subscribers w.
Proof.
  induction v as [|ent v IH]; intros w Hnd Hlive.
  - exists w. simpl. rewrite app_nil_r. split_and!; try done.
    intros ent Hin. by apply elem_of_nil in Hin.
  - apply NoDup_cons in Hnd as [Hnotin Hnd].
    apply Forall_cons in Hlive as [[e He] Hlive].
    cbn [reset_loop]. rewrite He. simpl.
    assert (pending w ent = isPendingDestroy e) as Hpe by (unfold pending; by rewrite He).
    set (w0 := if negb (isPendingDestroy e) then _ else w).
    assert (∃ e0, deref w0 ent = Some e0
            ∧ (∀ p, p ≠ ent → deref w0 p = deref w p)
            ∧ emitted (trace w0)
              = emitted (trace w)
                  ++ (if isPendingDestroy e then [] else [OnEntityDestroyed ent])
            ∧ subscribers w0 = subscribers w) as (e0 & He0 & Hother0 & Hem0 & Hsub0).
    { unfold w0. destruct (isPendingDestroy e); simpl.
      - exists e. by rewrite app_nil_r.
      - exists (set_bPendingDestroy true e). rewrite emit_emitted. simpl.
        split_and!; try done.
        + rewrite deref_emit. unfold deref. simpl. apply lookup_insert_eq.
        + intros p Hp. rewrite deref_emit. unfold deref. simpl.
          by apply lookup_insert_ne.
        + by rewrite emit_eq. }
    rewrite (destroy_deallocate_eq w0 ent e0 He0). simpl.
    set (w1 := {| entityStore := _ |}).
    assert (∀ p, p ≠ ent → deref w1 p = deref w p) as Hother.
    { intros p Hp. rewrite <- Hother0 by done. unfold deref, w1. simpl.
      by apply lookup_delete_ne. }
    assert (∀ p, p ∈ v → pending w1 p = pending w p) as Hpend.
    { intros p Hp. unfold pending. rewrite Hother; [done|]. by intros ->. }
    destruct (IH w1 Hnd) as (w' & Hrun & Hem & Hgone & Hkeep & Hsub).
    { apply Forall_forall. intros p Hp. rewrite Hother by (by intros ->).
      by eapply Forall_forall in Hlive. }
    exists w'. split_and!.
    + exact Hrun.
    + rewrite Hem. change (trace w1) with (trace w0). rewrite Hem0, <- app_assoc.
      f_equal.
      rewrite (filter_ext_elem (λ p, pending w1 p = false) (λ p, pending w p = false))
        by (intros p Hp; by rewrite Hpend).
      rewrite filter_cons. rewrite Hpe.
      destruct (isPendingDestroy e); simpl; done.
    + intros p Hp. apply elem_of_cons in Hp as [->|Hp]; [|by apply Hgone].
      rewrite Hkeep by done. unfold deref, w1. simpl. apply lookup_delete_eq.
    + intros p Hp. apply not_elem_of_cons in Hp as [Hne Hp].
      rewrite Hkeep by done. by apply Hother.
    + rewrite Hsub. exact Hsub0.
Qed.

(** C9: [reset()] emits [OnEntityDestroyed] for the entities of the vector
    that are not pending destroy, in the order of the vector, and for no
    other; every entity of the vector is deallocated; the vector is empty
    and [getCount()] is 0; the id counter is 0, and the next [create()]
    returns an entity of id 1, whatever ids were issued before. *)
Theorem reset_clears_world w :
  entities_distinct w →
  entities_live w →
  ∃ w',
    reset w = Some w'
    ∧ emitted (trace w')
      = emitted (trace w)
          ++ (OnEntityDestroyed <$> filter (λ ent, pending w ent = false) (entities w))
    ∧ (∀ ent, ent ∈ entities w → deref w' ent = None)
    ∧ entities w' = []
    ∧ getCount w' = 0%nat
    ∧ lastEntityId w' = 0
    ∧ getEntityId <$> deref (create w').1 (create w').2 = Some 1
    ∧ entities (create w').1 = [(create w').2].
Proof.
  intros Hnd Hlive.
  destruct (reset_loop_spec (entities w) w Hnd) as (w1 & Hrun & Hem & Hgone & _).
  { eapply Forall_impl; [exact Hlive|]. by intros ent [_ ?]. }
  exists (set_lastEntityId 0 (set_entities (λ _, []) w1)).
  split; [unfold reset; by rewrite Hrun|].
  split_and!; try done.
  - rewrite create_eq. unfold deref. simpl. by rewrite lookup_insert_eq.
  - by rewrite create_eq.
Qed.

(** ** Looking an entity up by id *)

Lemma getById_loop_absent w (v : list ptr) (i : N) :
  Forall (λ ent, is_Some (deref w ent)) v →
  (∀ ent e, ent ∈ v → deref w ent = Some e → getEntityId e ≠ i) →
  getById_loop w v i = Some nullptr.
Proof.
  induction v as [|ent v IH]; intros Hlive Hno; [done|].
  apply Forall_cons in Hlive as [[e He] Hlive].
  cbn [getById_loop]. rewrite He. simpl.
  destruct (getEntityId e =? i) eqn:E.
  - apply N.eqb_eq in E. exfalso. eapply Hno; [|exact He|exact E].
    apply elem_of_cons. by left.
  - apply IH; [done|]. intros p ep Hp. apply Hno. apply elem_of_cons. by right.
Qed.

Lemma getById_loop_first w (v : list ptr) (i : N) ent e :
  Forall (λ ent, is_Some (deref w ent)) v →
  ent ∈ v → deref w ent = Some e → getEntityId e = i →
  ∃ (k : nat) ent' e',
    getById_loop w v i = Some ent'
    ∧ v !! k = Some ent'
    ∧ deref w ent' = Some e'
    ∧ getEntityId e' = i
    ∧ (∀ (j : nat) p ep, (j < k)%nat → v !! j = Some p → deref w p = Some ep →
         getEntityId ep ≠ i).
Proof.
  induction v as [|p v IH]; intros Hlive Hin He Hid; [by apply elem_of_nil in Hin|].
  apply Forall_cons in Hlive as [[ep Hep] Hlive].
  cbn [getById_loop]. rewrite Hep. simpl.
  destruct (getEntityId ep =? i) eqn:E.
  - apply N.eqb_eq in E. exists 0%nat, p, ep. split_and!; try done.
    intros j ? ? Hj. lia.
  - apply N.eqb_neq in E.
    apply elem_of_cons in Hin as [->|Hin]; [congruence|].
    destruct (IH Hlive Hin He Hid) as (k & ent' & e' & Hrun & Hk & He' & Hid' & Hfirst).
    exists (S k), ent', e'. split_and!; try done.
    intros [|j] q eq Hj Hq Hdq.
    + simpl in Hq. injection Hq as <-. congruence.
    + simpl in Hq. eapply Hfirst; [|exact Hq|exact Hdq]. lia.
Qed.

Lemma ids_distinct_inj w (p q : ptr) ep eq :
  ids_distinct w →
  p ∈ entities w → q ∈ entities w →
  deref w p = Some ep → deref w q = Some eq →
  getEntityId ep = getEntityId eq → p = q.
Proof.
  unfold ids_distinct, ids. generalize (entities w) as v.
  induction v as [|x v IH]; intros Hnd Hp Hq Hdp Hdq Hid;
    [by apply elem_of_nil in Hp|].
  assert (∀ y ey, y ∈ v → deref w y = Some ey →
            getEntityId ey ∈ omap (λ ent, getEntityId <$> deref w ent) v) as Hmem.
  { intros y ey Hy Hdy. apply list_elem_of_omap. exists y. split; [done|].
    by rewrite Hdy. }
  simpl in Hnd.
  apply elem_of_cons in Hp as [->|Hp], Hq as [->|Hq].
  - done.
  - rewrite Hdp in Hnd. simpl in Hnd. apply NoDup_cons in Hnd as [Hnotin _].
    exfalso. apply Hnotin. rewrite Hid. by eapply Hmem.
  - rewrite Hdq in Hnd. simpl in Hnd. apply NoDup_cons in Hnd as [Hnotin _].
    exfalso. apply Hnotin. rewrite <- Hid. by eapply Hmem.
  - apply IH; try done.
    destruct (getEntityId <$> deref w x); [|done].
    by apply NoDup_cons in Hnd as [_ ?].
Qed.

Lemma destroy_deref_other w ent (immediate : bool) w' (p : ptr) :
  destroy ent immediate w = Some w' → p ≠ ent → deref w' p = deref w p.
Proof.
  intros Hd Hne. unfold destroy in Hd.
  destruct (decide (ent = nullptr)) as [|_]; [by injection Hd as <-|].
  destruct (deref w ent) as [e|] eqn:He; [|done]. simpl in Hd.
  destruct (isPendingDestroy e), immediate.
  - rewrite (destroy_deallocate_eq _ ent e) in Hd by done.
    injection Hd as <-. unfold deref. simpl. by apply lookup_delete_ne.
  - by injection Hd as <-.
  - rewrite (destroy_deallocate_eq _ ent (set_bPendingDestroy true e)) in Hd.
    + injection Hd as <-. unfold deref. simpl. rewrite emit_eq. simpl.
      rewrite lookup_delete_ne by done. by apply lookup_insert_ne.
    + unfold deref. simpl. rewrite emit_eq. simpl. apply lookup_insert_eq.
  - injection Hd as <-. rewrite deref_emit. unfold deref. simpl.
    by apply lookup_insert_ne.
Qed.

Lemma destroy_lastEntityId w ent (immediate : bool) w' :
  destroy ent immediate w = Some w' → lastEntityId w' = lastEntityId w.
Proof.
  intros Hd. unfold destroy in Hd.
  destruct (decide (ent = nullptr)) as [|_]; [by injection Hd as <-|].
  destruct (deref w ent) as [e|] eqn:He; [|done]. simpl in Hd.
  destruct (isPendingDestroy e), immediate.
  - rewrite (destroy_deallocate_eq _ ent e) in Hd by done. by injection Hd as <-.
  - by injection Hd as <-.
  - rewrite (destroy_deallocate_eq _ ent (set_bPendingDestroy true e)) in Hd.
    + injection Hd as <-. simpl. by rewrite emit_eq.
    + unfold deref. simpl. rewrite emit_eq. simpl. apply lookup_insert_eq.
  - injection Hd as <-. by rewrite emit_eq.
Qed.

Lemma erase_remove_elem_iff (x y : ptr) (v : list ptr) :
  y ∈ erase_remove x v ↔ y ≠ x ∧ y ∈ v.
Proof. unfold erase_remove. by rewrite list_elem_of_filter. Qed.

Lemma destroy_then_cleanup_gone w ent e (immediate : bool) w1 w2 (removed : bool) :
  entities_live w → entities_distinct w → ids_distinct w →
  ent ∈ entities w → deref w ent = Some e →
  destroy ent immediate w = Some w1 →
  cleanup w1 = Some (w2, removed) →
  (ent ∉ entities w2)
  ∧ Forall (λ p, is_Some (deref w2 p)) (entities w2)
  ∧ (∀ p ep, p ∈ entities w2 → deref w2 p = Some ep → getEntityId ep ≠ getEntityId e)
  ∧ lastEntityId w2 = lastEntityId w.
Proof.
  intros Hlive Hnd Hids Hin He Hd Hc.
  assert (ent ≠ nullptr) as Hnull.
  { eapply Forall_forall in Hlive as [? _]; [done|exact Hin]. }
  destruct (destroy_spec w ent e immediate Hnull He) as (w1' & Hd' & _ & Hdent & Hents & _).
  rewrite Hd in Hd'. injection Hd' as <-.
  assert (∀ p, p ≠ ent → deref w1 p = deref w p) as Hother.
  { intros p Hp. by eapply destroy_deref_other. }
  assert (∀ p, p ∈ entities w1 → p ∈ entities w) as Hsub.
  { intros p. rewrite Hents. destruct immediate; [|done].
    rewrite erase_remove_elem_iff. by intros [_ ?]. }
  assert (entities_distinct w1) as Hnd1.
  { unfold entities_distinct. rewrite Hents. destruct immediate; [|done].
    by apply NoDup_filter. }
  assert (entities_live w1) as Hlive1.
  { apply Forall_forall. intros p Hp.
    pose proof (Hsub p Hp) as Hpw.
    eapply Forall_forall in Hlive as [Hpn Hps]; [|exact Hpw].
    split; [done|].
    destruct (decide (p = ent)) as [->|Hne]; [|by rewrite Hother].
    rewrite Hdent. destruct immediate; [|eauto].
    rewrite Hents in Hp. apply erase_remove_elem_iff in Hp as [? _]. done. }
  destruct (cleanup_run w1 Hnd1 Hlive1)
    as (w2' & Hc' & Hents2 & _ & Hkeep & _ & Hlast2 & _).
  rewrite Hc in Hc'. injection Hc' as <- _.
  assert (∀ p, p ∈ entities w2 → p ≠ ent ∧ p ∈ entities w ∧ deref w2 p = deref w p) as Hsurv.
  { intros p Hp. rewrite Hents2 in Hp. apply list_elem_of_filter in Hp as [Hpp Hp1].
    assert (p ≠ ent) as Hne.
    { intros ->. destruct immediate.
      - rewrite Hents in Hp1. apply erase_remove_elem_iff in Hp1 as [? _]. done.
      - unfold pending in Hpp. rewrite Hdent in Hpp. simpl in Hpp. done. }
    split_and!; [done|by apply Hsub|].
    rewrite Hkeep; [by apply Hother|]. intros [_ ?]. congruence. }
  split_and!.
  - intros Hin2. by apply Hsurv in Hin2 as [? _].
  - apply Forall_forall. intros p Hp. apply Hsurv in Hp as (_ & Hpw & ->).
    eapply Forall_forall in Hlive as [_ ?]; [done|exact Hpw].
  - intros p ep Hp Hdp Hid. apply Hsurv in Hp as (Hne & Hpw & Heq).
    rewrite Heq in Hdp. apply Hne.
    by eapply (ids_distinct_inj w p ent ep e).
  - rewrite Hlast2. by eapply destroy_lastEntityId.
Qed.

(** C8: in a World whose entity vector holds live entities, no pointer and
    no id twice, [getById(id)] returns [nullptr] when [id] is 0, when [id]
    is greater than the last id issued, when no entity of the vector has
    that id, and so when the entity of that id was destroyed and cleaned
    up; for any other [id] that an entity of the vector has, it returns the
    first entity of the vector with that id. *)
Theorem getById_absent_or_found w (i : N) :
  entities_live w → entities_distinct w → ids_distinct w →
  getById w InvalidEntityId = Some nullptr
  ∧ (lastEntityId w < i → getById w i = Some nullptr)
  ∧ ((∀ ent e, ent ∈ entities w → deref w ent = Some e → getEntityId e ≠ i) →
     getById w i = Some nullptr)
  ∧ (∀ ent e (immediate removed : bool) w1 w2,
       ent ∈ entities w → deref w ent = Some e →
       destroy ent immediate w = Some w1 →
       cleanup w1 = Some (w2, removed) →
       getById w2 (getEntityId e) = Some nullptr)
  ∧ (i ≠ InvalidEntityId → i ≤ lastEntityId w →
     ∀ ent e, ent ∈ entities w → deref w ent = Some e → getEntityId e = i →
     ∃ (k : nat) ent' e',
       getById w i = Some ent'
       ∧ entities w !! k = Some ent'
       ∧ deref w ent' = Some e'
       ∧ getEntityId e' = i
       ∧ (∀ (j : nat) p ep, (j < k)%nat → entities w !! j = Some p →
            deref w p = Some ep → getEntityId ep ≠ i)).
Proof.
  intros Hlive Hnd Hids.
  assert (Forall (λ ent, is_Some (deref w ent)) (entities w)) as Hlive'.
  { eapply Forall_impl; [exact Hlive|]. by intros ? [_ ?]. }
  split_and!.
  - reflexivity.
  - intros Hlt. unfold getById. apply N.ltb_lt in Hlt. rewrite Hlt.
    by rewrite orb_true_r.
  - intros Hno. unfold getById.
    destruct ((i =? InvalidEntityId) || (lastEntityId w <? i)); [done|].
    by apply getById_loop_absent.
  - intros ent e immediate removed w1 w2 Hin He Hd Hc.
    destruct (destroy_then_cleanup_gone w ent e immediate w1 w2 removed)
      as (_ & Hlive2 & Hno & _); try done.
    unfold getById.
    destruct ((_ =? InvalidEntityId) || (lastEntityId w2 <? _)); [done|].
    by apply getById_loop_absent.
  - intros Hnz Hle ent e Hin He Hid.
    unfold getById.
    apply N.eqb_neq in Hnz. rewrite Hnz.
    assert ((lastEntityId w <? i) = false) as -> by (apply N.ltb_ge; lia).
    simpl. by eapply getById_loop_first.
Qed.

(** ** Assigning components *)

(** C4: on a live entity whose containers are live, [assign<T>(args...)]
    goes through and emits [OnComponentAssigned<T>] once, with the entity
    and the handle returned; afterwards [get<T>()] is that handle, the
    handle is valid and holds [T(args...)], and [has<T>()] is true; when
    the entity had a [T] already, the handle is the one [get<T>()] gave
    before, the entity's component map is unchanged and no container is
    allocated: the live containers are the same as before. *)
Theorem assign_emits_once_and_reuses_storage w ent e T (data : Value) :
  deref w ent = Some e →
  containers_live w e →
  ∃ w' (handle : ptr) e',
    assign ent T data w = Some (w', handle)
    ∧ emitted (trace w') = emitted (trace w) ++ [OnComponentAssigned T ent handle]
    ∧ deref w' ent = Some e'
    ∧ get e' T = handle
    ∧ isValid handle = true
    ∧ containerStore w' !! handle = Some data
    ∧ has e' T = true
    ∧ (has e T = true →
       handle = get e T
       ∧ components e' = components e
       ∧ dom (containerStore w') = dom (containerStore w))
    ∧ (has e T = false →
       containerStore w !! handle = None
       ∧ dom (containerStore w') = {[handle]} ∪ dom (containerStore w)).
Proof.
  intros He Hlive. unfold assign. rewrite He. simpl.
  unfold has, get.
  destruct (components e !! getTypeIndex T) as [container|] eqn:Ec.
  - destruct (Hlive _ _ Ec) as [Hnull [old Hold]].
    rewrite Hold. simpl.
    eexists _, container, e. split; [reflexivity|].
    rewrite emit_emitted, deref_emit, emit_eq. simpl. rewrite Ec.
    split_and!; try done.
    + unfold isValid. apply negb_true_iff. by apply N.eqb_neq.
    + by apply lookup_insert_eq.
    + intros _. split_and!; try done.
      apply dom_insert_lookup_L. by rewrite Hold.
  - set (container := allocate (containerStore w)).
    eexists _, container, _. split; [reflexivity|].
    rewrite emit_emitted, deref_emit, emit_eq. simpl.
    split_and!; try done.
    + unfold deref. simpl. apply lookup_insert_eq.
    + simpl. by rewrite lookup_insert_eq.
    + unfold isValid. apply negb_true_iff. apply N.eqb_neq. apply allocate_not_null.
    + by apply lookup_insert_eq.
    + simpl. by rewrite lookup_insert_eq.
    + intros _. split; [apply allocate_fresh|apply dom_insert_L].
Qed.

(** ** Iteration *)

Section IteratorProperties.
Variable passes : Entity → bool.
Variable w0 : @World Value.
Variable incl : bool.

Let Q : ptr → Prop := λ ent, qualifies passes w0 incl ent = true.
Let n : nat := getCount w0.

Lemma set_index_same (it : Internal.Iterator) :
  Internal.set_index (Internal.index it) it = it.
Proof. by destruct it. Qed.

Lemma iterator_get_lookup (it : Internal.Iterator) :
  entities_live w0 →
  Internal.bIsEnd it = false →
  (Internal.index it < n)%nat →
  ∃ ent e,
    entities w0 !! Internal.index it = Some ent
    ∧ Internal.get w0 it = ent
    ∧ ent ≠ nullptr
    ∧ deref w0 ent = Some e.
Proof.
  intros Hlive Hend Hlt.
  destruct (lookup_lt_is_Some_2 (entities w0) (Internal.index it) Hlt) as [ent Hent].
  assert (ent ∈ entities w0) as Hin by (by eapply list_elem_of_lookup_2).
  eapply Forall_forall in Hlive as [Hnull [e He]]; [|exact Hin].
  exists ent, e. split_and!; try done.
  unfold Internal.get, Internal.isEnd, getByIndex. rewrite Hend. simpl.
  fold n. assert ((n <=? Internal.index it)%nat = false) as -> by (apply Nat.leb_gt; lia).
  by rewrite Hent.
Qed.

Lemma skipped_spec (it : Internal.Iterator) ent :
  entities_live w0 →
  Internal.bIsEnd it = false →
  Internal.bIncludePendingDestroy it = incl →
  entities w0 !! Internal.index it = Some ent →
  Internal.skipped passes w0 it = Some (negb (qualifies passes w0 incl ent)).
Proof.
  intros Hlive Hend Hincl Hent.
  assert (Internal.index it < n)%nat as Hlt by (by eapply lookup_lt_Some).
  destruct (iterator_get_lookup it Hlive Hend Hlt) as (ent' & e & Hent' & Hget & Hnull & He).
  rewrite Hent in Hent'. injection Hent' as <-.
  unfold Internal.skipped. rewrite Hget.
  apply N.eqb_neq in Hnull. rewrite Hnull, He. simpl.
  unfold qualifies. rewrite He, Hincl. f_equal.
  by destruct (passes e), (isPendingDestroy e), incl.
Qed.

Lemma advance_spec (fuel : nat) : ∀ it : Internal.Iterator,
  entities_live w0 →
  Internal.bIsEnd it = false →
  Internal.bIncludePendingDestroy it = incl →
  (n - Internal.index it < fuel)%nat →
  ∃ j : nat,
    Internal.advance passes fuel w0 it = Some (Internal.set_index j it)
    ∧ (Internal.index it ≤ j)%nat
    ∧ (Internal.index it ≤ n → j ≤ n)%nat
    ∧ filter Q (drop j (entities w0)) = filter Q (drop (Internal.index it) (entities w0))
    ∧ (∀ ent, entities w0 !! j = Some ent → Q ent).
Proof.
  induction fuel as [|fuel IH]; intros it Hlive Hend Hincl Hfuel; [lia|].
  cbn [Internal.advance]. fold n.
  destruct (Internal.index it <? n)%nat eqn:Elt.
  - apply Nat.ltb_lt in Elt.
    destruct (lookup_lt_is_Some_2 (entities w0) (Internal.index it) Elt) as [ent Hent].
    rewrite (skipped_spec it ent) by done. simpl.
    destruct (qualifies passes w0 incl ent) eqn:Eq; simpl.
    + exists (Internal.index it). rewrite set_index_same.
      split_and!; try done. intros ent' Hent'. congruence.
    + destruct (IH (Internal.set_index (S (Internal.index it)) it))
        as (j & Hrun & Hle & Hn & Hfilter & Hq); try done.
      { simpl. lia. }
      exists j. simpl in *. split_and!.
      * rewrite Hrun. by destruct it.
      * lia.
      * lia.
      * rewrite Hfilter. rewrite (drop_S _ ent (Internal.index it)) by done.
        rewrite filter_cons_False; [done|]. unfold Q. by rewrite Eq.
      * exact Hq.
  - apply Nat.ltb_ge in Elt.
    exists (Internal.index it). rewrite set_index_same. split_and!; try done.
    intros ent Hent. apply lookup_lt_Some in Hent. unfold n, getCount in Elt. lia.
Qed.

Lemma next_spec (it : Internal.Iterator) :
  entities_live w0 →
  Internal.bIsEnd it = false →
  Internal.bIncludePendingDestroy it = incl →
  ∃ j : nat,
    Internal.next passes w0 it
    = Some (if (n <=? j)%nat
            then Internal.set_bIsEnd true (Internal.set_index j it)
            else Internal.set_index j it)
    ∧ (S (Internal.index it) ≤ j)%nat
    ∧ filter Q (drop j (entities w0))
      = filter Q (drop (S (Internal.index it)) (entities w0))
    ∧ (∀ ent, entities w0 !! j = Some ent → Q ent).
Proof.
  intros Hlive Hend Hincl. unfold Internal.next. fold n.
  destruct (advance_spec (S (n - S (Internal.index it)))
              (Internal.set_index (S (Internal.index it)) it))
    as (j & Hrun & Hle & _ & Hfilter & Hq); try done.
  { simpl. lia. }
  exists j. cbn [Internal.index Internal.set_index] in *.
  rewrite Hrun. simpl. done.
Qed.

Lemma range_for_end (fuel : nat) (it last : Internal.Iterator) :
  Internal.isEnd w0 it = true →
  Internal.isEnd w0 last = true →
  Internal.range_for passes (S fuel) w0 it last = Some [].
Proof.
  intros Hit Hlast. cbn [Internal.range_for]. unfold Internal.neq.
  by rewrite Hit, Hlast.
Qed.

Lemma range_for_spec (fuel : nat) : ∀ (it : Internal.Iterator) ent,
  entities_live w0 →
  Internal.bIsEnd it = false →
  Internal.bIncludePendingDestroy it = incl →
  entities w0 !! Internal.index it = Some ent →
  Q ent →
  (n - Internal.index it < fuel)%nat →
  Internal.range_for passes fuel w0 it (Internal.construct w0 n true incl)
  = Some (filter Q (drop (Internal.index it) (entities w0))).
Proof.
  set (last := Internal.construct w0 n true incl).
  assert (Internal.isEnd w0 last = true) as Hlast.
  { unfold Internal.isEnd, last, Internal.construct. simpl.
    by rewrite Nat.leb_refl. }
  induction fuel as [|fuel IH]; intros it ent Hlive Hend Hincl Hent HQ Hfuel; [lia|].
  assert (Internal.index it < n)%nat as Hlt by (by eapply lookup_lt_Some).
  destruct (iterator_get_lookup it Hlive Hend Hlt) as (ent' & e & Hent' & Hget & _).
  rewrite Hent in Hent'. injection Hent' as <-.
  cbn [Internal.range_for].
  assert (Internal.neq w0 it last = true) as ->.
  { unfold Internal.neq, Internal.isEnd. rewrite Hend. fold n. simpl.
    assert ((n <=? Internal.index it)%nat = false) as -> by (apply Nat.leb_gt; lia).
    apply negb_true_iff, Nat.eqb_neq. lia. }
  rewrite Hget.
  destruct (next_spec it Hlive Hend Hincl) as (j & Hnext & Hle & Hfilter & Hq).
  rewrite Hnext. simpl.
  rewrite (drop_S _ ent (Internal.index it)) by done.
  rewrite filter_cons_True by done. rewrite <- Hfilter.
  destruct (n <=? j)%nat eqn:Ej.
  - apply Nat.leb_le in Ej.
    destruct fuel as [|fuel]; [lia|].
    rewrite range_for_end; [|done|done].
    rewrite drop_ge by (unfold n, getCount in Ej; lia). done.
  - apply Nat.leb_gt in Ej.
    destruct (lookup_lt_is_Some_2 (entities w0) j Ej) as [entj Hentj].
    rewrite (IH (Internal.set_index j it) entj); try done.
    + by apply Hq.
    + simpl. lia.
Qed.

#[local] Arguments Internal.range_for : simpl never.
#[local] Arguments Internal.next : simpl never.

(** A view built by [each] or [all] and run through a range-based
    [for] visits the qualifying entities of the vector, in its order. *)
Lemma view_range_for_spec :
  entities_live w0 →
  ('(first, last) ←
     Internal.view passes w0 (Internal.construct w0 0 false incl)
                             (Internal.construct w0 (getCount w0) true incl);
   Internal.range_for passes (S (getCount w0)) w0 first last)
  = Some (filter Q (entities w0)).
Proof.
  intros Hlive. fold n.
  set (last := Internal.construct w0 n true incl).
  set (first := Internal.construct w0 0 false incl).
  assert (Internal.isEnd w0 last = true) as Hlast.
  { unfold Internal.isEnd, last, Internal.construct. simpl.
    by rewrite Nat.leb_refl. }
  assert (Internal.bIncludePendingDestroy first = incl) as Hincl by done.
  destruct (entities w0) as [|ent0 v] eqn:El.
  - (* the empty World: [first] is at the end from the start *)
    assert (n = 0%nat) as Hn by (unfold n, getCount; by rewrite El).
    unfold Internal.view, Internal.get, Internal.isEnd, first, Internal.construct.
    fold n. rewrite Hn. simpl.
    unfold Internal.next, Internal.advance. fold n. rewrite Hn. simpl.
    by apply range_for_end.
  - assert (n = S (length v)) as Hn by (unfold n, getCount; by rewrite El).
    assert (Internal.bIsEnd first = false) as Hend.
    { unfold first, Internal.construct. fold n. rewrite Hn. done. }
    assert (entities w0 !! Internal.index first = Some ent0) as Hent0
      by (by rewrite El).
    assert (Internal.index first < n)%nat as Hlt by (simpl; lia).
    destruct (iterator_get_lookup first Hlive Hend Hlt)
      as (ent' & e & Hent' & Hget & Hnull & He).
    rewrite Hent0 in Hent'. injection Hent' as <-.
    unfold Internal.view. rewrite Hget.
    apply N.eqb_neq in Hnull. rewrite Hnull, He. simpl.
    assert ((isPendingDestroy e && negb incl) || negb (passes e)
            = negb (qualifies passes w0 incl ent0)) as ->.
    { unfold qualifies. rewrite He. by destruct (passes e), (isPendingDestroy e), incl. }
    rewrite <- El.
    destruct (qualifies passes w0 incl ent0) eqn:Eq; simpl.
    + unfold last. rewrite (range_for_spec (S n) first ent0); try done. lia.
    + destruct (next_spec first Hlive Hend Hincl) as (j & Hnext & Hle & Hfilter & Hq).
      rewrite Hnext. simpl.
      assert (filter Q (entities w0) = filter Q (drop j (entities w0))) as ->.
      { rewrite Hfilter. simpl. rewrite El. simpl. rewrite drop_0.
        rewrite filter_cons_False; [done|]. unfold Q. by rewrite Eq. }
      destruct (n <=? j)%nat eqn:Ej.
      * apply Nat.leb_le in Ej.
        rewrite range_for_end; [|done|done].
        rewrite drop_ge by (unfold n, getCount in Ej; lia). done.
      * apply Nat.leb_gt in Ej.
        destruct (lookup_lt_is_Some_2 (entities w0) j Ej) as [entj Hentj].
        unfold last.
        rewrite (range_for_spec (S n) (Internal.set_index j first) entj); try done.
        -- by apply Hq.
        -- simpl. lia.
Qed.

End IteratorProperties.

Lemma mapM_fmap_Some {A B : Type} (f : A → option B) (g : A → B) (l : list A) :
  (∀ x, x ∈ l → f x = Some (g x)) → mapM f l = Some (g <$> l).
Proof.
  induction l as [|x l IH]; intros Hf; [done|].
  cbn [mapM]. rewrite Hf by (apply elem_of_cons; by left).
  rewrite IH by (intros y Hy; apply Hf; apply elem_of_cons; by right).
  done.
Qed.

Lemma has_all_forallb e T (Types : list CppType) :
  has_all e T Types = forallb (has e) (T :: Types).
Proof.
  revert T. induction Types as [|V Types IH]; intros T; simpl.
  - by rewrite andb_true_r.
  - by rewrite IH.
Qed.

(** C6: in a World whose entity vector holds live entities, a range-based
    [for] over [each<T, Types...>(includePendingDestroy)] runs its body on
    the entities of the vector that have all of [T, Types...] and that are
    not pending destroy or are let in by [includePendingDestroy], on those
    only, and in the order of the vector; the callback overload calls
    [viewFunc] on the same entities in the same order, with their handles;
    [all] does the same without the component test. *)
Theorem each_all_visit_in_order w T (Types : list CppType) (incl : bool) :
  entities_live w →
  each w T Types incl
    = Some (filter (λ ent, has_types w ent T Types = true ∧ visible w incl ent = true)
                   (entities w))
  ∧ each_call w T Types incl
    = Some ((λ ent, (ent, handles w ent (T :: Types)))
              <$> filter (λ ent, has_types w ent T Types = true ∧ visible w incl ent = true)
                         (entities w))
  ∧ all w incl = Some (filter (λ ent, visible w incl ent = true) (entities w))
  ∧ all_call w incl = Some (filter (λ ent, visible w incl ent = true) (entities w)).
Proof.
  intros Hlive.
  assert (each w T Types incl
          = Some (filter (λ ent, has_types w ent T Types = true ∧ visible w incl ent = true)
                         (entities w))) as Heach.
  { unfold each. rewrite (view_range_for_spec (λ e, has_all e T Types) w incl Hlive).
    f_equal. apply filter_ext_elem. intros ent Hin.
    eapply Forall_forall in Hlive as [_ [e He]]; [|exact Hin].
    unfold qualifies, has_types, visible, pending. rewrite He.
    rewrite andb_true_iff. done. }
  assert (all w incl = Some (filter (λ ent, visible w incl ent = true) (entities w)))
    as Hall.
  { unfold all. rewrite (view_range_for_spec (λ _, true) w incl Hlive).
    f_equal. apply filter_ext_elem. intros ent Hin.
    eapply Forall_forall in Hlive as [_ [e He]]; [|exact Hin].
    unfold qualifies, visible, pending. by rewrite He. }
  split_and!; try done.
  unfold each_call. rewrite Heach. simpl.
  apply mapM_fmap_Some. intros ent Hin.
  apply list_elem_of_filter in Hin as [_ Hin].
  eapply Forall_forall in Hlive as [_ [e He]]; [|exact Hin].
  unfold handles. by rewrite He.
Qed.

(** ** The invariant of the entity vector *)

Lemma omap_ext_elem {A B : Type} (f g : A → option B) (l : list A) :
  (∀ x, x ∈ l → f x = g x) → omap f l = omap g l.
Proof.
  induction l as [|x l IH]; intros Hext; [done|].
  simpl. rewrite Hext by (apply elem_of_cons; by left).
  assert (omap f l = omap g l) as IH'.
  { apply IH. intros y Hy. apply Hext. apply elem_of_cons. by right. }
  destruct (g x); [f_equal|]; exact IH'.
Qed.

Lemma omap_sublist {A B : Type} (f : A → option B) (l1 l2 : list A) :
  l1 `sublist_of` l2 → omap f l1 `sublist_of` omap f l2.
Proof.
  induction 1 as [|x l1 l2 _ IH|x l1 l2 _ IH]; simpl.
  - constructor.
  - destruct (f x); [by constructor|done].
  - destruct (f x); [by constructor|done].
Qed.

Lemma newWorld_wf : World_wf (@newWorld Value).
Proof.
  split_and!.
  - apply Forall_nil_2.
  - apply NoDup_nil_2.
  - apply NoDup_nil_2.
  - apply Forall_nil_2.
Qed.

(** A call that drops entities from the vector or leaves it alone, keeps
    the ids of the entities that stay and does not lower the id counter,
    keeps the invariant. *)
Lemma World_wf_shrink w w' :
  World_wf w →
  entities w' `sublist_of` entities w →
  (∀ p, p ∈ entities w' →
     ∃ ep ep', deref w p = Some ep ∧ deref w' p = Some ep'
               ∧ getEntityId ep' = getEntityId ep) →
  lastEntityId w ≤ lastEntityId w' →
  World_wf w'.
Proof.
  intros (Hlive & Hnd & Hids & Hbound) Hsub Hkeep Hlast.
  assert (ids w' `sublist_of` ids w) as Hidsub.
  { unfold ids.
    rewrite (omap_ext_elem (λ ent, getEntityId <$> deref w' ent)
                           (λ ent, getEntityId <$> deref w ent) (entities w')).
    - by apply omap_sublist.
    - intros p Hp. destruct (Hkeep p Hp) as (ep & ep' & -> & -> & Hid). simpl.
      by rewrite Hid. }
  split_and!.
  - apply Forall_forall. intros p Hp. split.
    + eapply Forall_forall in Hlive as [? _]; [done|]. by eapply sublist_subseteq.
    + destruct (Hkeep p Hp) as (_ & ep' & _ & -> & _). eauto.
  - exact (sublist_NoDup _ _ Hnd Hsub).
  - exact (sublist_NoDup _ _ Hids Hidsub).
  - apply Forall_forall. intros i Hi.
    eapply Forall_forall in Hbound as [? ?]; [|by eapply sublist_subseteq].
    split; [done|lia].
Qed.

Lemma World_wf_create w :
  World_wf w →
  lastEntityId w + 1 < size_t_modulus →
  World_wf (create w).1.
Proof.
  intros (Hlive & Hnd & Hids & Hbound) Hlt. rewrite create_eq. cbn [fst].
  set (ent := allocate (entityStore w)).
  set (w' := {| entityStore := _ |}).
  assert ((lastEntityId w + 1) mod size_t_modulus = lastEntityId w + 1) as Hid
    by (by apply N.mod_small).
  assert (ent ∉ entities w) as Hfresh.
  { intros Hin. eapply Forall_forall in Hlive as [_ [e He]]; [|exact Hin].
    unfold deref, ent in He. by rewrite allocate_fresh in He. }
  assert (∀ p, p ∈ entities w → deref w' p = deref w p) as Hold.
  { intros p Hp. unfold deref, w'. simpl. apply lookup_insert_ne. by intros ->. }
  assert (ids w' = ids w ++ [lastEntityId w + 1]) as Hids'.
  { unfold ids. change (entities w') with (entities w ++ [ent]).
    rewrite omap_app. f_equal.
    - apply omap_ext_elem. intros p Hp. by rewrite Hold.
    - simpl. unfold deref, w'. simpl. rewrite lookup_insert_eq. simpl. by rewrite Hid. }
  split_and!.
  - apply Forall_app. split.
    + apply Forall_forall. intros p Hp. rewrite Hold by done.
      by eapply Forall_forall in Hlive.
    + apply Forall_singleton. split; [apply allocate_not_null|].
      unfold deref, w'. simpl. rewrite lookup_insert_eq. eauto.
  - apply NoDup_app. split_and!; [done| |apply NoDup_singleton].
    intros p Hp Hp'. apply list_elem_of_singleton in Hp' as ->. done.
  - unfold ids_distinct. rewrite Hids'. apply NoDup_app.
    split_and!; [done| |apply NoDup_singleton].
    intros i Hi Hi'. apply list_elem_of_singleton in Hi' as ->.
    eapply Forall_forall in Hbound as [_ ?]; [|exact Hi]. lia.
  - unfold ids_bounded. rewrite Hids'. change (lastEntityId w') with
      ((lastEntityId w + 1) mod size_t_modulus). rewrite Hid.
    apply Forall_app. split.
    + eapply Forall_impl; [exact Hbound|]. intros i [? ?]. simpl. lia.
    + apply Forall_singleton. lia.
Qed.

Lemma unsubscribeAll_frame subscriber w :
  entityStore (unsubscribeAll subscriber w) = entityStore w
  ∧ containerStore (unsubscribeAll subscriber w) = containerStore w
  ∧ entities (unsubscribeAll subscriber w) = entities w
  ∧ lastEntityId (unsubscribeAll subscriber w) = lastEntityId w
  ∧ trace (unsubscribeAll subscriber w) = trace w.
Proof.
  unfold unsubscribeAll. generalize (map_to_list (subscribers w)) as l.
  intros l. revert w. induction l as [|kv l IH]; intros w; simpl; [done|].
  destruct (IH (if (length (erase_remove subscriber kv.2) =? 0)%nat
                then set_subscribers (λ m, delete kv.1 m) w else w))
    as (-> & -> & -> & -> & ->).
  by destruct (length _ =? 0)%nat.
Qed.

Lemma World_wf_frame w w' :
  World_wf w →
  entityStore w' = entityStore w →
  entities w' = entities w →
  lastEntityId w' = lastEntityId w →
  World_wf w'.
Proof.
  intros Hwf Hstore Hents Hlast.
  apply (World_wf_shrink w w' Hwf).
  - by rewrite Hents.
  - intros p Hp. rewrite Hents in Hp.
    destruct Hwf as (Hlive & _).
    eapply Forall_forall in Hlive as [_ [e He]]; [|exact Hp].
    exists e, e. unfold deref in *. by rewrite Hstore.
  - by rewrite Hlast.
Qed.

Lemma World_wf_assign w ent T (data : Value) w' (handle : ptr) :
  World_wf w →
  assign ent T data w = Some (w', handle) →
  World_wf w'.
Proof.
  intros Hwf Ha. unfold assign in Ha.
  destruct (deref w ent) as [e|] eqn:He; [|done]. simpl in Ha.
  destruct (components e !! getTypeIndex T) as [container|].
  - destruct (containerStore w !! container); [|done]. simpl in Ha.
    injection Ha as <- _. apply (World_wf_frame w); by rewrite ?emit_eq.
  - injection Ha as <- _. apply (World_wf_shrink w); [done|by rewrite emit_eq| |by rewrite emit_eq].
    intros p Hp. rewrite emit_eq in Hp. simpl in Hp.
    destruct Hwf as (Hlive & _).
    eapply Forall_forall in Hlive as [_ [ep Hep]]; [|exact Hp].
    rewrite deref_emit. unfold deref in *. simpl.
    destruct (decide (p = ent)) as [->|Hne].
    + rewrite lookup_insert_eq. rewrite He in Hep. injection Hep as <-. eauto.
    + rewrite lookup_insert_ne by done. eauto.
Qed.

Lemma World_wf_destroy w ent (immediate : bool) w' :
  World_wf w →
  destroy ent immediate w = Some w' →
  World_wf w'.
Proof.
  intros Hwf Hd.
  destruct (decide (ent = nullptr)) as [->|Hnull].
  { unfold destroy in Hd. simpl in Hd. by injection Hd as <-. }
  destruct (deref w ent) as [e|] eqn:He.
  2:{ unfold destroy in Hd. destruct (decide (ent = nullptr)); [done|].
      by rewrite He in Hd. }
  destruct (destroy_spec w ent e immediate Hnull He) as (w2 & Hd2 & _ & Hdent & Hents & _).
  rewrite Hd in Hd2. injection Hd2 as <-.
  apply (World_wf_shrink w); [done| | |].
  - rewrite Hents. destruct immediate; [apply sublist_filter|done].
  - intros p Hp.
    assert (p ∈ entities w) as Hpw.
    { rewrite Hents in Hp. destruct immediate; [|done].
      by apply erase_remove_elem_iff in Hp as [_ ?]. }
    destruct Hwf as (Hlive & _).
    eapply Forall_forall in Hlive as [_ [ep Hep]]; [|exact Hpw].
    destruct (decide (p = ent)) as [->|Hne].
    + destruct immediate.
      * rewrite Hents in Hp. by apply erase_remove_elem_iff in Hp as [? _].
      * rewrite Hdent. rewrite He in Hep. injection Hep as <-. eauto.
    + rewrite (destroy_deref_other w ent immediate w' p Hd Hne). eauto.
  - by rewrite (destroy_lastEntityId w ent immediate w' Hd).
Qed.

Lemma World_wf_cleanup w w' (removed : bool) :
  World_wf w →
  cleanup w = Some (w', removed) →
  World_wf w'.
Proof.
  intros Hwf Hc.
  pose proof Hwf as (Hlive & Hnd & _).
  destruct (cleanup_run w Hnd Hlive) as (w2 & Hc2 & Hents & _ & Hkeep & _ & Hlast & _).
  rewrite Hc in Hc2. injection Hc2 as <- _.
  apply (World_wf_shrink w); [done| | |].
  - rewrite Hents. apply sublist_filter.
  - intros p Hp. rewrite Hents in Hp. apply list_elem_of_filter in Hp as [Hpp Hp].
    eapply Forall_forall in Hlive as [_ [ep Hep]]; [|exact Hp].
    exists ep, ep. rewrite Hkeep; [done|]. intros [_ ?]. congruence.
  - by rewrite Hlast.
Qed.

Lemma World_wf_reset w w' :
  reset w = Some w' →
  World_wf w'.
Proof.
  intros Hr. unfold reset in Hr.
  destruct (reset_loop (entities w) w) as [w1|]; [|done]. simpl in Hr.
  injection Hr as <-.
  split_and!.
  - apply Forall_nil_2.
  - apply NoDup_nil_2.
  - apply NoDup_nil_2.
  - apply Forall_nil_2.
Qed.

(** Every World the interface reaches satisfies the invariant. *)
Lemma reachable_wf w : reachable w → World_wf w.
Proof.
  unfold reachable. intros Hreach.
  apply (rtc_ind_r (R := step) (λ w, World_wf w) newWorld newWorld_wf); [|exact Hreach].
  clear w Hreach. intros w w' _ Hstep Hwf.
  destruct Hstep as [T s w|s w|event w|w Hlt|ent T data w w' handle Ha
                    |ent immediate w w' Hd|w w' removed Hc|w w' Hr].
  - apply (World_wf_frame w); [done| | |];
      unfold subscribe; by destruct (subscribers w !! getTypeIndex T).
  - destruct (unsubscribeAll_frame s w) as (? & _ & ? & ? & _).
    by apply (World_wf_frame w).
  - apply (World_wf_frame w); by rewrite ?emit_eq.
  - by apply World_wf_create.
  - by eapply World_wf_assign.
  - by eapply World_wf_destroy.
  - by eapply World_wf_cleanup.
  - by eapply World_wf_reset.
Qed.

(** ** Ownership of the component containers *)

Lemma removeAll_other e (store : gmap ptr Value) (container : ptr) :
  (∀ T, components e !! T ≠ Some container) →
  removeAll e store !! container = store !! container.
Proof.
  unfold removeAll.
  apply (map_fold_weak_ind
           (λ acc (m : gmap TypeIndex ptr),
              (∀ T, m !! T ≠ Some container) → acc !! container = store !! container)).
  - done.
  - intros T c m acc Hnone IH Hno.
    rewrite lookup_delete_ne.
    + apply IH. intros U HU. apply (Hno U).
      rewrite lookup_insert_ne; [done|]. intros <-. by rewrite Hnone in HU.
    + intros ->. apply (Hno T). by rewrite lookup_insert_eq.
Qed.

Lemma containers_owned_ext w w' :
  entityStore w' = entityStore w →
  containerStore w' = containerStore w →
  containers_owned w → containers_owned w'.
Proof.
  intros Hes Hcs [Hlive Hown]. unfold containers_owned, containers_live, deref in *.
  rewrite Hes, Hcs. by split.
Qed.

(** A call that frees no container and gives no entity a container keeps
    the ownership. *)
Lemma containers_owned_keep w w' :
  containers_owned w →
  (∀ ent e', deref w' ent = Some e' →
     components e' = ∅ ∨ ∃ e, deref w ent = Some e ∧ components e' = components e) →
  (∀ container, is_Some (containerStore w !! container) →
     is_Some (containerStore w' !! container)) →
  containers_owned w'.
Proof.
  intros [Hlive Hown] Hents Hstore. split.
  - intros ent e' He' T c Hc.
    destruct (Hents ent e' He') as [Hempty|(e & He & Hcomp)].
    + by rewrite Hempty in Hc.
    + rewrite Hcomp in Hc. destruct (Hlive ent e He T c Hc) as [? ?]. eauto.
  - intros ent1 ent2 e1' e2' T1 T2 c He1 He2 Hc1 Hc2.
    destruct (Hents ent1 e1' He1) as [Hempty|(e1 & He1w & Hcomp1)];
      [by rewrite Hempty in Hc1|].
    destruct (Hents ent2 e2' He2) as [Hempty|(e2 & He2w & Hcomp2)];
      [by rewrite Hempty in Hc2|].
    rewrite Hcomp1 in Hc1. rewrite Hcomp2 in Hc2.
    by eapply (Hown ent1 ent2 e1 e2).
Qed.

Lemma containers_owned_destroy_deallocate w ent w' :
  containers_owned w →
  destroy_deallocate ent w = Some w' →
  containers_owned w'.
Proof.
  intros [Hlive Hown] Hd. unfold destroy_deallocate in Hd.
  destruct (deref w ent) as [e|] eqn:He; [|done]. simpl in Hd. injection Hd as <-.
  assert (∀ p ep, deref (set_entityStore (λ st, delete ent st)
                           (set_containerStore (removeAll e) w)) p = Some ep →
                  p ≠ ent ∧ deref w p = Some ep) as Hsub.
  { intros p ep. unfold deref. simpl. intros Hp.
    apply lookup_delete_Some in Hp as [? ?]. done. }
  split.
  - intros p ep Hp T c Hc. apply Hsub in Hp as [Hne Hp].
    destruct (Hlive p ep Hp T c Hc) as [Hnull Hsome]. split; [done|].
    simpl. rewrite removeAll_other; [done|].
    intros U HU. destruct (Hown ent p e ep U T c He Hp HU Hc) as [? _]. congruence.
  - intros p1 p2 e1 e2 T1 T2 c Hp1 Hp2.
    apply Hsub in Hp1 as [_ Hp1]. apply Hsub in Hp2 as [_ Hp2].
    by apply Hown.
Qed.

Lemma containers_owned_set_pending w ent e event :
  containers_owned w →
  deref w ent = Some e →
  containers_owned
    (emit event (set_entityStore (λ st, <[ent := set_bPendingDestroy true e]> st) w)).
Proof.
  intros Hown He. apply (containers_owned_keep w); [done| |].
  - intros p ep. rewrite deref_emit. unfold deref in *. simpl.
    destruct (decide (p = ent)) as [->|Hne].
    + rewrite lookup_insert_eq. intros [= <-]. right. eauto.
    + rewrite lookup_insert_ne by done. intros Hp. right. eauto.
  - intros c. by rewrite emit_eq.
Qed.

Lemma containers_owned_create w : containers_owned w → containers_owned (create w).1.
Proof.
  intros Hown. apply (containers_owned_keep w); [done| |].
  - intros p ep. rewrite create_eq. unfold deref. simpl.
    destruct (decide (p = allocate (entityStore w))) as [->|Hne].
    + rewrite lookup_insert_eq. intros [= <-]. by left.
    + rewrite lookup_insert_ne by done. intros Hp. right. eauto.
  - intros c. by rewrite create_eq.
Qed.

Lemma containers_owned_assign w ent T (data : Value) w' (handle : ptr) :
  containers_owned w →
  assign ent T data w = Some (w', handle) →
  containers_owned w'.
Proof.
  intros Hown Ha. unfold assign in Ha.
  destruct (deref w ent) as [e|] eqn:He; [|done]. simpl in Ha.
  destruct (components e !! getTypeIndex T) as [container|] eqn:Ec.
  - destruct (containerStore w !! container) eqn:Est; [|done]. simpl in Ha.
    injection Ha as <- _. apply (containers_owned_keep w); [done| |].
    + intros p ep. rewrite deref_emit. intros Hp. right. eauto.
    + intros c. rewrite emit_eq. simpl.
      destruct (decide (c = container)) as [->|Hne].
      * rewrite lookup_insert_eq. eauto.
      * by rewrite lookup_insert_ne.
  - injection Ha as <- _.
    set (container := allocate (containerStore w)).
    destruct Hown as [Hlive Hown].
    assert (∀ p ep U, deref w p = Some ep → components ep !! U ≠ Some container)
      as Hfresh.
    { intros p ep U Hp HU. destruct (Hlive p ep Hp U container HU) as [_ [x Hx]].
      unfold container in Hx. by rewrite allocate_fresh in Hx. }
    assert (∀ p ep U c,
              deref (emit (OnComponentAssigned T ent container)
                       (set_entityStore
                          (λ st, <[ent := set_components
                                            (λ m, <[getTypeIndex T := container]> m) e]> st)
                          (set_containerStore (λ st, <[container := data]> st) w))) p
              = Some ep →
              components ep !! U = Some c →
              (p = ent ∧ U = getTypeIndex T ∧ c = container)
              ∨ (c ≠ container ∧ ∃ ep0, deref w p = Some ep0 ∧ components ep0 !! U = Some c))
      as Hcases.
    { intros p ep U c. rewrite deref_emit. unfold deref in *. simpl.
      destruct (decide (p = ent)) as [->|Hne].
      - rewrite lookup_insert_eq. intros [= <-]. simpl.
        destruct (decide (U = getTypeIndex T)) as [->|HU].
        + rewrite lookup_insert_eq. intros [= <-]. by left.
        + rewrite lookup_insert_ne by done. intros Hc. right. split; [|eauto].
          intros ->. by eapply (Hfresh ent e U).
      - rewrite lookup_insert_ne by done. intros Hp Hc. right. split; [|eauto].
        intros ->. by eapply (Hfresh p ep U). }
    split.
    + intros p ep Hp U c Hc. rewrite emit_eq. simpl.
      destruct (Hcases p ep U c Hp Hc) as [(-> & -> & ->)|(Hne & ep0 & Hp0 & Hc0)].
      * split; [apply allocate_not_null|]. rewrite lookup_insert_eq. eauto.
      * rewrite lookup_insert_ne by done. by apply (Hlive p ep0 Hp0 U c).
    + intros p1 p2 e1 e2 T1 T2 c Hp1 Hp2 Hc1 Hc2.
      destruct (Hcases p1 e1 T1 c Hp1 Hc1) as [(Hq1 & HT1 & Hcc1)|(Hne1 & ep1 & Hp1' & Hc1')],
               (Hcases p2 e2 T2 c Hp2 Hc2) as [(Hq2 & HT2 & Hcc2)|(Hne2 & ep2 & Hp2' & Hc2')].
      * by subst.
      * done.
      * done.
      * by eapply (Hown p1 p2 ep1 ep2).
Qed.

Lemma containers_owned_destroy w ent (immediate : bool) w' :
  containers_owned w →
  destroy ent immediate w = Some w' →
  containers_owned w'.
Proof.
  intros Hown Hd. unfold destroy in Hd.
  destruct (decide (ent = nullptr)) as [|_]; [by injection Hd as <-|].
  destruct (deref w ent) as [e|] eqn:He; [|done]. simpl in Hd.
  destruct (isPendingDestroy e), immediate.
  - eapply containers_owned_destroy_deallocate; [|exact Hd].
    by apply (containers_owned_ext w).
  - by injection Hd as <-.
  - eapply containers_owned_destroy_deallocate; [|exact Hd].
    eapply containers_owned_ext; [| |by apply (containers_owned_set_pending w ent e)];
      done.
  - injection Hd as <-. by apply containers_owned_set_pending.
Qed.

Lemma containers_owned_cleanup_remove_if (v : list ptr) : ∀ w (count : nat) kept w' count',
  containers_owned w →
  cleanup_remove_if v w count = Some (kept, w', count') →
  containers_owned w'.
Proof.
  induction v as [|ent v IH]; intros w count kept w' count' Hown Hrun.
  - simpl in Hrun. by injection Hrun as _ <- _.
  - cbn [cleanup_remove_if] in Hrun.
    destruct (deref w ent) as [e|]; [|done]. simpl in Hrun.
    destruct (isPendingDestroy e).
    + destruct (destroy_deallocate ent w) as [w1|] eqn:Hd; [|done]. simpl in Hrun.
      eapply IH; [|exact Hrun]. by eapply containers_owned_destroy_deallocate.
    + destruct (cleanup_remove_if v w count) as [[[kept1 w1] count1]|] eqn:Hrec; [|done].
      simpl in Hrun. injection Hrun as _ <- _. by eapply IH.
Qed.

Lemma containers_owned_reset_loop (v : list ptr) : ∀ w w',
  containers_owned w →
  reset_loop v w = Some w' →
  containers_owned w'.
Proof.
  induction v as [|ent v IH]; intros w w' Hown Hrun.
  - simpl in Hrun. by injection Hrun as <-.
  - cbn [reset_loop] in Hrun.
    destruct (deref w ent) as [e|] eqn:He; [|done]. simpl in Hrun.
    destruct (destroy_deallocate ent _) as [w1|] eqn:Hd; [|done]. simpl in Hrun.
    eapply IH; [|exact Hrun].
    eapply containers_owned_destroy_deallocate; [|exact Hd].
    destruct (isPendingDestroy e); simpl; [done|].
    by apply containers_owned_set_pending.
Qed.

(** In every World the interface reaches the containers are owned; so the
    containers of every live entity are live. *)
Lemma reachable_containers_owned w : reachable w → containers_owned w.
Proof.
  unfold reachable. intros Hreach.
  apply (rtc_ind_r (R := step) (λ w, containers_owned w) newWorld); [| |exact Hreach].
  { split; [intros ent e He|intros ent1 ent2 e1 e2 T1 T2 c He]; by unfold deref in He. }
  clear w Hreach. intros w w' _ Hstep Hown.
  destruct Hstep as [T s w|s w|event w|w Hlt|ent T data w w' handle Ha
                    |ent immediate w w' Hd|w w' removed Hc|w w' Hr].
  - apply (containers_owned_ext w); [| |done];
      unfold subscribe; by destruct (subscribers w !! getTypeIndex T).
  - destruct (unsubscribeAll_frame s w) as (? & ? & _).
    by apply (containers_owned_ext w).
  - apply (containers_owned_ext w); [| |done]; by rewrite emit_eq.
  - by apply containers_owned_create.
  - by eapply containers_owned_assign.
  - by eapply containers_owned_destroy.
  - unfold cleanup in Hc.
    destruct (cleanup_remove_if (entities w) w 0) as [[[kept w1] count]|] eqn:Hrun;
      [|done].
    simpl in Hc. injection Hc as <- _.
    eapply containers_owned_ext;
      [| |by eapply containers_owned_cleanup_remove_if]; done.
  - unfold reset in Hr.
    destruct (reset_loop (entities w) w) as [w1|] eqn:Hrun; [|done].
    simpl in Hr. injection Hr as <-.
    eapply containers_owned_ext; [| |by eapply containers_owned_reset_loop]; done.
Qed.

Lemma getById_loop_is_Some w (v : list ptr) (i : N) :
  Forall (λ ent, is_Some (deref w ent)) v → is_Some (getById_loop w v i).
Proof.
  induction v as [|ent v IH]; intros Hlive; [by eexists|].
  apply Forall_cons in Hlive as [[e He] Hlive].
  cbn [getById_loop]. rewrite He. simpl.
  destruct (getEntityId e =? i); [by eexists|by apply IH].
Qed.

(** In a World the interface reaches, no call below meets a dangling
    pointer or runs out of fuel. *)
Corollary reachable_calls_go_through w :
  reachable w →
  is_Some (cleanup w)
  ∧ is_Some (reset w)
  ∧ (∀ T (Types : list CppType) (incl : bool), is_Some (each w T Types incl))
  ∧ (∀ incl : bool, is_Some (all w incl))
  ∧ (∀ i : N, is_Some (getById w i))
  ∧ (∀ ent T (data : Value), is_Some (deref w ent) → is_Some (assign ent T data w)).
Proof.
  intros Hreach.
  pose proof (reachable_wf w Hreach) as (Hlive & Hnd & _).
  pose proof (reachable_containers_owned w Hreach) as [Hcont _].
  assert (Forall (λ ent, is_Some (deref w ent)) (entities w)) as Hlive'.
  { eapply Forall_impl; [exact Hlive|]. by intros ? [_ ?]. }
  split_and!.
  - destruct (cleanup_run w Hnd Hlive) as (w' & -> & _). by eexists.
  - destruct (reset_loop_spec (entities w) w Hnd Hlive') as (w' & Hrun & _).
    unfold reset. rewrite Hrun. by eexists.
  - intros T Types incl. unfold each.
    rewrite (view_range_for_spec (λ e, has_all e T Types) w incl Hlive). by eexists.
  - intros incl. unfold all.
    rewrite (view_range_for_spec (λ _, true) w incl Hlive). by eexists.
  - intros i. unfold getById.
    destruct ((i =? InvalidEntityId) || (lastEntityId w <? i)); [by eexists|].
    by apply getById_loop_is_Some.
  - intros ent T data [e He]. unfold assign. rewrite He. simpl.
    destruct (components e !! getTypeIndex T) as [c|] eqn:Ec; [|by eexists].
    destruct (Hcont ent e He _ c Ec) as [_ [x ->]]. by eexists.
Qed.

(** ** Removing components *)

Lemma removeAll_own e (store : gmap ptr Value) T (container : ptr) :
  components e !! T = Some container →
  removeAll e store !! container = None.
Proof.
  unfold removeAll. revert T container.
  apply (map_fold_weak_ind
           (λ acc (m : gmap TypeIndex ptr),
              ∀ T container, m !! T = Some container → acc !! container = None)).
  - intros T c Hc. by rewrite lookup_empty in Hc.
  - intros T0 c0 m acc Hnone IH T c Hc.
    destruct (decide (c = c0)) as [->|Hne]; [apply lookup_delete_eq|].
    rewrite lookup_delete_ne by done.
    destruct (decide (T = T0)) as [->|HT].
    + rewrite lookup_insert_eq in Hc. congruence.
    + rewrite lookup_insert_ne in Hc by done. by eapply IH.
Qed.

Lemma containers_live_lookup w e T (container : ptr) :
  containers_live w e →
  components e !! getTypeIndex T = Some container →
  container ≠ nullptr ∧ is_Some (containerStore w !! container).
Proof. intros Hlive Hc. exact (Hlive _ _ Hc). Qed.

(** X1: on a live entity whose containers are live, [remove<T>()] returns
    whether the entity had a [T]; afterwards the entity has no [T], the
    container that held it is deallocated, the other components of the
    entity and every other container are as they were, and nothing is
    emitted; a second [remove<T>()] returns [false] and changes nothing. *)
Theorem remove_returns_true_once w ent e T :
  deref w ent = Some e →
  containers_live w e →
  ∃ w' e',
    remove ent T w = Some (w', has e T)
    ∧ deref w' ent = Some e'
    ∧ has e' T = false
    ∧ get e' T = nullptr
    ∧ (∀ U, U ≠ T → get e' U = get e U ∧ has e' U = has e U)
    ∧ (has e T = true → containerStore w' !! get e T = None)
    ∧ (∀ container, container ≠ get e T →
         containerStore w' !! container = containerStore w !! container)
    ∧ (∀ ent2, ent2 ≠ ent → deref w' ent2 = deref w ent2)
    ∧ entities w' = entities w
    ∧ trace w' = trace w
    ∧ remove ent T w' = Some (w', false).
Proof.
  intros He Hlive. unfold remove at 1. rewrite He. simpl.
  unfold has, get, getTypeIndex.
  destruct (components e !! T) as [container|] eqn:Ec.
  - destruct (containers_live_lookup w e T container Hlive Ec) as [Hnull [old Hold]].
    rewrite Hold. simpl.
    eexists _, _. split; [reflexivity|].
    assert (∀ U, U ≠ T →
              delete T (components e) !! U = components e !! U) as Hother
      by (intros U HU; by apply lookup_delete_ne).
    split_and!.
    + unfold deref. simpl. apply lookup_insert_eq.
    + simpl. by rewrite lookup_delete_eq.
    + simpl. by rewrite lookup_delete_eq.
    + intros U HU. simpl. by rewrite Hother.
    + intros _. simpl. apply lookup_delete_eq.
    + intros c Hc. simpl. by apply lookup_delete_ne.
    + intros ent2 Hne. unfold deref. simpl. by apply lookup_insert_ne.
    + done.
    + done.
    + unfold remove, deref. simpl. rewrite lookup_insert_eq. simpl.
      unfold getTypeIndex. by rewrite lookup_delete_eq.
  - exists w, e. split_and!; try done.
    + by rewrite Ec.
    + by rewrite Ec.
    + unfold remove. rewrite He. simpl. unfold getTypeIndex. by rewrite Ec.
Qed.

(** X2: on a live entity that has no [T], [assign<T>(args...)] followed by
    [remove<T>()] goes through, [remove] returns [true], and the World is
    back where it was: the same entities with the same components, the same
    live containers with the same values; only the trace has the one
    [OnComponentAssigned<T>] more. *)
Theorem assign_then_remove_restores w ent e T (data : Value) :
  deref w ent = Some e →
  has e T = false →
  ∃ w1 (handle : ptr) w2,
    assign ent T data w = Some (w1, handle)
    ∧ remove ent T w1 = Some (w2, true)
    ∧ entityStore w2 = entityStore w
    ∧ containerStore w2 = containerStore w
    ∧ entities w2 = entities w
    ∧ subscribers w2 = subscribers w
    ∧ lastEntityId w2 = lastEntityId w
    ∧ emitted (trace w2) = emitted (trace w) ++ [OnComponentAssigned T ent handle].
Proof.
  intros He Hno. unfold has, getTypeIndex in Hno.
  destruct (components e !! T) as [|] eqn:Ec; [done|].
  unfold assign. rewrite He. simpl. unfold getTypeIndex. rewrite Ec.
  set (container := allocate (containerStore w)).
  eexists _, container, _. split; [reflexivity|].
  unfold remove. rewrite deref_emit. unfold deref at 1. simpl.
  rewrite lookup_insert_eq. simpl. unfold getTypeIndex.
  rewrite lookup_insert_eq. rewrite emit_eq. simpl. rewrite lookup_insert_eq. simpl.
  split; [reflexivity|]. simpl.
  split_and!; try done.
  - rewrite insert_insert_eq.
    assert (set_components (λ m, delete T m) (set_components (λ m, <[T:=container]> m) e)
            = e) as ->.
    { destruct e as [c i b]. unfold set_components. simpl in *.
      by rewrite delete_insert_id. }
    apply insert_id. exact He.
  - apply delete_insert_id. apply allocate_fresh.
  - rewrite emitted_app. f_equal.
    change (emitted (Emitted ?ev :: ?l)) with (ev :: emitted l).
    by rewrite emitted_Received.
Qed.

(** X3: on a live entity, [removeAll()] leaves the entity without
    components and deallocates every container it had; the entity keeps its
    id and its pending-destroy flag, nothing is emitted, and, when the
    containers are owned, the components of the other entities are live as
    before. *)
Theorem removeAll_clears_entity w ent e :
  deref w ent = Some e →
  ∃ w' e',
    Entity_removeAll ent w = Some w'
    ∧ deref w' ent = Some e'
    ∧ components e' = ∅
    ∧ getEntityId e' = getEntityId e
    ∧ isPendingDestroy e' = isPendingDestroy e
    ∧ (∀ T, has e' T = false ∧ get e' T = nullptr)
    ∧ (∀ T container, components e !! T = Some container →
         containerStore w' !! container = None)
    ∧ entities w' = entities w
    ∧ trace w' = trace w
    ∧ (containers_owned w →
       ∀ ent2 e2 U container,
         ent2 ≠ ent → deref w ent2 = Some e2 → components e2 !! U = Some container →
         deref w' ent2 = Some e2
         ∧ containerStore w' !! container = containerStore w !! container).
Proof.
  intros He. unfold Entity_removeAll. rewrite He. simpl.
  eexists _, _. split; [reflexivity|]. split_and!.
  - unfold deref. simpl. apply lookup_insert_eq.
  - done.
  - done.
  - done.
  - intros T. unfold has, get. simpl. by rewrite lookup_empty.
  - intros T c Hc. simpl. by eapply removeAll_own.
  - done.
  - done.
  - intros [_ Hown] ent2 e2 U c Hne He2 Hc. split.
    + unfold deref in *. simpl. by rewrite lookup_insert_ne.
    + simpl. apply removeAll_other. intros T HT.
      destruct (Hown ent ent2 e e2 T U c He He2 HT Hc) as [? _]. congruence.
Qed.

(** X4: in a World where the containers of the entity are live,
    [with<T, Types...>(view)] returns whether the entity has all of
    [T, Types...]; it calls [view] exactly then, once, with the handles
    [get<T>(), get<Types>()...] in that order, and every handle it passes
    is valid and points at a live component. *)
Theorem with_calls_view_with_valid_handles w e T (Types : list CppType) :
  containers_live w e →
  (with_ e T Types).1 = has_all e T Types
  ∧ (has_all e T Types = false → (with_ e T Types).2 = None)
  ∧ (has_all e T Types = true →
     (with_ e T Types).2 = Some ((λ U, get e U) <$> (T :: Types))
     ∧ Forall (λ handle, isValid handle = true ∧ is_Some (handle_get w handle))
              ((λ U, get e U) <$> (T :: Types))).
Proof.
  intros Hlive. unfold with_.
  destruct (has_all e T Types) eqn:Eh; cbn [negb fst snd]; split_and!; try done.
  intros _. split; [done|].
  rewrite has_all_forallb in Eh.
  rewrite Forall_fmap. apply Forall_forall. intros U HU. simpl.
  assert (has e U = true) as HhU.
  { rewrite forallb_forall in Eh. apply Eh. by apply list_elem_of_In. }
  unfold has, get in *. destruct (components e !! getTypeIndex U) as [c|] eqn:Ec; [|done].
  destruct (containers_live_lookup w e U c Hlive Ec) as [Hnull Hsome].
  assert (isValid c = true) as Hv.
  { unfold isValid. by apply negb_true_iff, N.eqb_neq. }
  split; [done|]. unfold handle_get. by rewrite Hv.
Qed.

(** X5: in a World where the containers of the entity are live, the handle
    [get<T>()] is valid exactly when [has<T>()] is true; a valid handle
    points at a live component, and without a [T] the handle is the null
    handle. *)
Theorem get_valid_iff_has w e T :
  containers_live w e →
  (isValid (get e T) = true ↔ has e T = true)
  ∧ (has e T = true → is_Some (handle_get w (get e T)))
  ∧ (has e T = false → get e T = nullptr ∧ handle_get w (get e T) = None).
Proof.
  intros Hlive. unfold has, get.
  destruct (components e !! getTypeIndex T) as [c|] eqn:Ec.
  - destruct (containers_live_lookup w e T c Hlive Ec) as [Hnull Hsome].
    assert (isValid c = true) as Hv.
    { unfold isValid. by apply negb_true_iff, N.eqb_neq. }
    split_and!; try done. intros _. unfold handle_get. by rewrite Hv.
  - by split_and!.
Qed.

(** ** Creating, indexing and looking up *)

Lemma getById_of_member w ent e :
  World_wf w →
  ent ∈ entities w →
  deref w ent = Some e →
  getById w (getEntityId e) = Some ent.
Proof.
  intros (Hlive & Hnd & Hids & Hbound) Hin He.
  assert (Forall (λ p, is_Some (deref w p)) (entities w)) as Hlive'.
  { eapply Forall_impl; [exact Hlive|]. by intros ? [_ ?]. }
  assert (getEntityId e ∈ ids w) as Hid.
  { apply list_elem_of_omap. exists ent. split; [done|]. by rewrite He. }
  eapply Forall_forall in Hbound as [Hpos Hle]; [|exact Hid].
  unfold getById.
  assert ((getEntityId e =? InvalidEntityId) = false) as ->
    by (apply N.eqb_neq; unfold InvalidEntityId; lia).
  assert ((lastEntityId w <? getEntityId e) = false) as -> by (apply N.ltb_ge; lia).
  simpl.
  destruct (getById_loop_first w (entities w) (getEntityId e) ent e Hlive' Hin He eq_refl)
    as (k & ent' & e' & Hrun & Hk & He' & Hid' & _).
  rewrite Hrun. f_equal.
  eapply (ids_distinct_inj w ent' ent e' e); try done.
  by eapply list_elem_of_lookup_2.
Qed.

(** X6: in a World whose entity vector holds live entities,
    [getByIndex(idx)] is [nullptr] exactly when [idx] is at or past
    [getCount()]; below it, it is the entity at that position of the
    vector, a live one. *)
Theorem getByIndex_null_iff_out_of_range w (idx : nat) :
  entities_live w →
  (getByIndex w idx = nullptr ↔ (getCount w ≤ idx)%nat)
  ∧ ((idx < getCount w)%nat →
     entities w !! idx = Some (getByIndex w idx)
     ∧ is_Some (deref w (getByIndex w idx))).
Proof.
  intros Hlive. unfold getByIndex.
  destruct (getCount w <=? idx)%nat eqn:E.
  - apply Nat.leb_le in E. split; [done|]. intros ?. lia.
  - apply Nat.leb_gt in E.
    destruct (lookup_lt_is_Some_2 (entities w) idx E) as [ent Hent].
    rewrite Hent. simpl.
    assert (ent ∈ entities w) as Hin by (by eapply list_elem_of_lookup_2).
    eapply Forall_forall in Hlive as [Hnull Hsome]; [|exact Hin].
    split; [|done]. split; [done|lia].
Qed.

(** X7: in a World that satisfies the invariant of the entity vector,
    [getById(ent->getEntityId())] is [ent] for every entity of the vector,
    pending destroy or not. *)
Theorem getById_getEntityId_round_trip w ent e :
  World_wf w →
  ent ∈ entities w →
  deref w ent = Some e →
  getById w (getEntityId e) = Some ent.
Proof. apply getById_of_member. Qed.

Lemma create_fresh w : entities_live w → (create w).2 ∉ entities w.
Proof.
  intros Hlive Hin. rewrite create_eq in Hin. simpl in Hin.
  eapply Forall_forall in Hlive as [_ [e He]]; [|exact Hin].
  unfold deref in He. by rewrite allocate_fresh in He.
Qed.

(** X8: in a World whose entity vector holds live entities, [create()]
    returns a pointer that is not null and was not live, to an entity with
    the next id, no component and no pending destroy; the entity is put at
    the end of the vector and the entities that were live are as they were;
    one [OnEntityCreated] carrying the new entity is emitted and delivered
    to the subscribers of [OnEntityCreated] in their order. *)
Theorem create_adds_fresh_entity w :
  entities_live w →
  (create w).2 ≠ nullptr
  ∧ deref w (create w).2 = None
  ∧ ((create w).2 ∉ entities w)
  ∧ deref (create w).1 (create w).2
    = Some {| components := ∅; id := (lastEntityId w + 1) mod size_t_modulus;
              bPendingDestroy := false |}
  ∧ entities (create w).1 = entities w ++ [(create w).2]
  ∧ getCount (create w).1 = S (getCount w)
  ∧ (∀ ent, is_Some (deref w ent) → deref (create w).1 ent = deref w ent)
  ∧ containerStore (create w).1 = containerStore w
  ∧ emitted (trace (create w).1) = emitted (trace w) ++ [OnEntityCreated (create w).2]
  ∧ received (trace (create w).1)
    = received (trace w)
        ++ ((λ s, (s, OnEntityCreated (create w).2)) <$> subscribers_of w OnEntityCreated_t).
Proof.
  intros Hlive. pose proof (create_fresh w Hlive) as Hfresh.
  rewrite create_eq in *. cbn [fst snd] in *.
  set (ent := allocate (entityStore w)) in *.
  split_and!.
  - apply allocate_not_null.
  - apply allocate_fresh.
  - exact Hfresh.
  - unfold deref. simpl. apply lookup_insert_eq.
  - done.
  - unfold getCount. simpl. rewrite length_app. simpl. lia.
  - intros p [ep Hp]. unfold deref in *. simpl. apply lookup_insert_ne.
    intros <-. unfold ent in Hp. by rewrite allocate_fresh in Hp.
  - done.
  - simpl. rewrite emitted_app. f_equal.
    change (emitted (Emitted ?ev :: ?l)) with (ev :: emitted l).
    by rewrite emitted_Received.
  - simpl. rewrite received_app. f_equal.
    change (received (Emitted ?ev :: ?l)) with (received l).
    by rewrite received_Received.
Qed.

(** X9: in a World that satisfies the invariant of the entity vector and
    whose id counter is not about to wrap around, after [create()] the id
    of the new entity resolves to the new entity, and the id of every
    entity that was in the vector resolves to that entity as before. *)
Theorem create_then_getById w :
  World_wf w →
  lastEntityId w + 1 < size_t_modulus →
  getById (create w).1 (lastEntityId w + 1) = Some (create w).2
  ∧ (∀ ent e, ent ∈ entities w → deref w ent = Some e →
       getById (create w).1 (getEntityId e) = Some ent).
Proof.
  intros Hwf Hlt.
  pose proof (World_wf_create w Hwf Hlt) as Hwf'.
  pose proof Hwf as (Hlive & _).
  assert (deref (create w).1 (create w).2
          = Some {| components := ∅; id := lastEntityId w + 1; bPendingDestroy := false |})
    as Hnew.
  { rewrite create_eq. unfold deref. simpl. rewrite lookup_insert_eq.
    by rewrite N.mod_small. }
  assert (entities (create w).1 = entities w ++ [(create w).2]) as Hents
    by (by rewrite create_eq).
  split.
  - refine (getById_of_member (create w).1 (create w).2 _ Hwf' _ Hnew).
    rewrite Hents. apply elem_of_app. right. by apply list_elem_of_singleton.
  - intros ent e Hin He.
    apply (getById_of_member (create w).1 ent e Hwf').
    + rewrite Hents. apply elem_of_app. by left.
    + rewrite create_eq. unfold deref in *. simpl. rewrite lookup_insert_ne; [done|].
      intros Heq. rewrite <- Heq, allocate_fresh in He. done.
Qed.

(** ** Deferred and immediate destruction *)

Lemma filter_all {A : Type} (P : A → Prop) `{∀ x, Decision (P x)} (l : list A) :
  (∀ x, x ∈ l → P x) → filter P l = l.
Proof.
  induction l as [|x l IH]; intros Hall; [done|].
  rewrite filter_cons_True by (apply Hall, elem_of_cons; by left).
  f_equal. apply IH. intros y Hy. apply Hall, elem_of_cons. by right.
Qed.

Lemma set_entities_same w : set_entities (λ _, entities w) w = w.
Proof. by destruct w. Qed.

Lemma cleanup_remove_if_none (v : list ptr) w (count : nat) :
  Forall (λ p, ∃ ep, deref w p = Some ep ∧ isPendingDestroy ep = false) v →
  cleanup_remove_if v w count = Some (v, w, count).
Proof.
  induction v as [|p v IH]; intros Hall; [done|].
  apply Forall_cons in Hall as [(ep & Hp & Hpp) Hall].
  cbn [cleanup_remove_if]. rewrite Hp. simpl. rewrite Hpp.
  by rewrite IH.
Qed.

Lemma cleanup_remove_if_one (v : list ptr) : ∀ w ent e W (count : nat),
  NoDup v →
  ent ∈ v →
  deref w ent = Some e →
  isPendingDestroy e = true →
  (∀ p, p ∈ v → p ≠ ent → ∃ ep, deref w p = Some ep ∧ isPendingDestroy ep = false) →
  destroy_deallocate ent w = Some W →
  cleanup_remove_if v w count = Some (erase_remove ent v, W, S count).
Proof.
  induction v as [|p v IH]; intros w ent e W count Hnd Hin He Hpe Hothers HW;
    [by apply elem_of_nil in Hin|].
  apply NoDup_cons in Hnd as [Hnotin Hnd].
  cbn [cleanup_remove_if]. unfold erase_remove. rewrite filter_cons.
  destruct (decide (p = ent)) as [->|Hne].
  - rewrite He. simpl. rewrite Hpe, HW. simpl.
    rewrite decide_False by (intros Hc; by apply Hc).
    rewrite filter_all by (intros y Hy ->; done).
    apply cleanup_remove_if_none.
    apply Forall_forall. intros q Hq.
    destruct (Hothers q) as (eq & Hdq & Hpq);
      [apply elem_of_cons; by right|by intros ->|].
    exists eq. split; [|done].
    rewrite (destroy_deallocate_eq w ent e He) in HW. injection HW as <-.
    unfold deref in *. simpl. rewrite lookup_delete_ne; [done|]. by intros ->.
  - destruct (Hothers p) as (ep & Hdp & Hpp); [apply elem_of_cons; by left|done|].
    rewrite Hdp. simpl. rewrite Hpp.
    apply elem_of_cons in Hin as [->|Hin]; [done|].
    rewrite (IH w ent e W count Hnd Hin He Hpe); [|
      intros q Hq; apply Hothers, elem_of_cons; by right|done].
    simpl. by rewrite decide_True.
Qed.

Lemma cleanup_single_pending w ent e :
  entities_distinct w →
  ent ∈ entities w →
  deref w ent = Some e →
  isPendingDestroy e = true →
  (∀ p, p ∈ entities w → p ≠ ent →
     ∃ ep, deref w p = Some ep ∧ isPendingDestroy ep = false) →
  ∃ W, destroy_deallocate ent (set_entities (erase_remove ent) w) = Some W
       ∧ cleanup w = Some (W, true).
Proof.
  intros Hnd Hin He Hpe Hothers.
  eexists. split.
  - rewrite (destroy_deallocate_eq _ ent e) by done. reflexivity.
  - unfold cleanup.
    rewrite (cleanup_remove_if_one (entities w) w ent e _ 0 Hnd Hin He Hpe Hothers
               (destroy_deallocate_eq w ent e He)).
    simpl. reflexivity.
Qed.

(** X10: on an entity of a vector without duplicates whose other entities
    are live and not pending destroy, [destroy(ent)] followed by
    [cleanup()] leaves the World in the very state [destroy(ent, true)]
    leaves it in, and that [cleanup()] returns [true]. *)
Theorem destroy_then_cleanup_is_immediate_destroy w ent e :
  entities_distinct w →
  ent ≠ nullptr →
  ent ∈ entities w →
  deref w ent = Some e →
  (∀ p, p ∈ entities w → p ≠ ent →
     ∃ ep, deref w p = Some ep ∧ isPendingDestroy ep = false) →
  ∃ w1 w2,
    destroy ent false w = Some w1
    ∧ cleanup w1 = Some (w2, true)
    ∧ destroy ent true w = Some w2.
Proof.
  intros Hnd Hnull Hin He Hothers. unfold destroy.
  destruct (decide (ent = nullptr)) as [|_]; [done|].
  rewrite He. simpl.
  destruct (isPendingDestroy e) eqn:Hpe.
  - destruct (cleanup_single_pending w ent e Hnd Hin He Hpe Hothers) as (W & HW & Hc).
    exists w, W. by rewrite HW.
  - set (w0 := emit (OnEntityDestroyed ent)
                 (set_entityStore (λ st, <[ent := set_bPendingDestroy true e]> st) w)).
    assert (entities w0 = entities w) as Hents by (unfold w0; by rewrite emit_eq).
    assert (deref w0 ent = Some (set_bPendingDestroy true e)) as He0.
    { unfold w0. rewrite deref_emit. unfold deref. simpl. apply lookup_insert_eq. }
    destruct (cleanup_single_pending w0 ent (set_bPendingDestroy true e))
      as (W & HW & Hc); try done.
    + unfold entities_distinct. by rewrite Hents.
    + by rewrite Hents.
    + intros p Hp Hne. rewrite Hents in Hp.
      destruct (Hothers p Hp Hne) as (ep & Hdp & Hpp). exists ep. split; [|done].
      unfold w0. rewrite deref_emit. unfold deref in *. simpl.
      by rewrite lookup_insert_ne.
    + exists w0, W. by rewrite HW.
Qed.

(** X11: in a World whose entity vector holds live entities and no pointer
    twice, [cleanup()] goes through, and a second [cleanup()] right after
    it returns [false] and leaves the World as the first one left it. *)
Theorem cleanup_twice_is_cleanup_once w :
  entities_distinct w →
  entities_live w →
  ∃ w' (removed : bool),
    cleanup w = Some (w', removed)
    ∧ cleanup w' = Some (w', false).
Proof.
  intros Hnd Hlive.
  destruct (cleanup_run w Hnd Hlive) as (w' & Hrun & Hents & _ & Hkeep & _).
  eexists _, _. split; [exact Hrun|].
  unfold cleanup. rewrite cleanup_remove_if_none.
  - simpl. by rewrite set_entities_same.
  - apply Forall_forall. intros p Hp. rewrite Hents in Hp.
    apply list_elem_of_filter in Hp as [Hpp Hp].
    eapply Forall_forall in Hlive as [_ [ep Hep]]; [|exact Hp].
    exists ep. rewrite Hkeep by (intros [_ ?]; congruence).
    split; [done|]. unfold pending in Hpp. by rewrite Hep in Hpp.
Qed.

(** ** Pending destroy and the views *)

Lemma has_all_set_bPendingDestroy (b : bool) e T (Types : list CppType) :
  has_all (set_bPendingDestroy b e) T Types = has_all e T Types.
Proof. by rewrite !has_all_forallb. Qed.

Lemma each_spec w T (Types : list CppType) (incl : bool) :
  entities_live w →
  each w T Types incl
  = Some (filter (λ ent, qualifies (λ e, has_all e T Types) w incl ent = true) (entities w)).
Proof. intros Hlive. unfold each. by rewrite view_range_for_spec. Qed.

Lemma all_spec w (incl : bool) :
  entities_live w →
  all w incl = Some (filter (λ ent, qualifies (λ _, true) w incl ent = true) (entities w)).
Proof. intros Hlive. unfold all. by rewrite view_range_for_spec. Qed.

Lemma views_after_set_pending (passes : Entity → bool) w w' ent e :
  (∀ b, passes (set_bPendingDestroy b e) = passes e) →
  entities w' = entities w →
  deref w ent = Some e →
  isPendingDestroy e = false →
  deref w' ent = Some (set_bPendingDestroy true e) →
  (∀ p, p ≠ ent → deref w' p = deref w p) →
  filter (λ p, qualifies passes w' true p = true) (entities w')
  = filter (λ p, qualifies passes w true p = true) (entities w)
  ∧ filter (λ p, qualifies passes w' false p = true) (entities w')
    = erase_remove ent (filter (λ p, qualifies passes w false p = true) (entities w)).
Proof.
  intros Hpass Hents He Hpe He' Hother. rewrite Hents. split.
  - apply filter_ext_elem. intros p _. unfold qualifies.
    destruct (decide (p = ent)) as [->|Hne].
    + rewrite He, He'. simpl. by rewrite Hpass, !andb_true_r.
    + by rewrite Hother.
  - unfold erase_remove. rewrite list_filter_filter.
    apply filter_ext_elem. intros p _. unfold qualifies.
    destruct (decide (p = ent)) as [->|Hne].
    + rewrite He'. simpl. rewrite andb_false_r. split; [done|]. by intros [? _].
    + rewrite Hother by done. split; [by split|by intros [_ ?]].
Qed.

(** X12: in a World that satisfies the invariant of the entity vector,
    [destroy(ent)] on an entity of the vector that is not pending destroy
    goes through and keeps the entity in the World until [cleanup]:
    [getCount()] and the vector are unchanged, [getById] still finds the
    entity; the views that include pending-destroy entities visit what
    they visited, and the views that do not visit what they visited
    without [ent]. *)
Theorem destroyed_entity_stays_until_cleanup w ent e :
  World_wf w →
  ent ∈ entities w →
  deref w ent = Some e →
  isPendingDestroy e = false →
  ∃ w',
    destroy ent false w = Some w'
    ∧ entities w' = entities w
    ∧ getCount w' = getCount w
    ∧ pending w' ent = true
    ∧ getById w' (getEntityId e) = Some ent
    ∧ all w' true = all w true
    ∧ all w' false = erase_remove ent <$> all w false
    ∧ (∀ T (Types : list CppType),
         each w' T Types true = each w T Types true
         ∧ each w' T Types false = erase_remove ent <$> each w T Types false).
Proof.
  intros Hwf Hin He Hpe.
  pose proof Hwf as (Hlive & _).
  assert (ent ≠ nullptr) as Hnull.
  { eapply Forall_forall in Hlive as [? _]; [done|exact Hin]. }
  destruct (destroy_spec w ent e false Hnull He) as (w' & Hd & _ & He' & Hents & _).
  simpl in He', Hents.
  pose proof (World_wf_destroy w ent false w' Hwf Hd) as Hwf'.
  pose proof Hwf' as (Hlive' & _).
  assert (∀ p, p ≠ ent → deref w' p = deref w p) as Hother.
  { intros p Hp. by eapply destroy_deref_other. }
  exists w'. split_and!; try done.
  - unfold getCount. by rewrite Hents.
  - unfold pending. by rewrite He'.
  - change (getEntityId e) with (getEntityId (set_bPendingDestroy true e)).
    apply getById_of_member; [done| |done]. by rewrite Hents.
  - rewrite !all_spec by done. f_equal.
    by apply (views_after_set_pending (λ _, true) w w' ent e).
  - rewrite !all_spec by done. simpl. f_equal.
    by apply (views_after_set_pending (λ _, true) w w' ent e).
  - intros T Types. rewrite !each_spec by done. simpl.
    destruct (views_after_set_pending (λ e, has_all e T Types) w w' ent e)
      as [Htrue Hfalse]; try done.
    + intros b. apply has_all_set_bPendingDestroy.
    + by rewrite Htrue, Hfalse.
Qed.

(** ** Components and the views *)

Lemma assign_run w ent e T (data : Value) :
  deref w ent = Some e →
  containers_live w e →
  ∃ w' (handle : ptr) e',
    assign ent T data w = Some (w', handle)
    ∧ deref w' ent = Some e'
    ∧ components e' = <[getTypeIndex T := handle]> (components e)
    ∧ isPendingDestroy e' = isPendingDestroy e
    ∧ (∀ p, p ≠ ent → deref w' p = deref w p)
    ∧ entities w' = entities w
    ∧ containerStore w' = <[handle := data]> (containerStore w)
    ∧ (∀ container, components e !! getTypeIndex T = Some container → handle = container)
    ∧ (components e !! getTypeIndex T = None → containerStore w !! handle = None).
Proof.
  intros He Hlive. unfold assign. rewrite He. simpl.
  destruct (components e !! getTypeIndex T) as [container|] eqn:Ec.
  - destruct (containers_live_lookup w e T container Hlive Ec) as [_ [old Hold]].
    rewrite Hold. simpl.
    eexists _, container, e. split; [reflexivity|].
    rewrite deref_emit, emit_eq. simpl.
    split_and!; try done.
    + by rewrite insert_id.
    + by intros c [= ->].
  - eexists _, _, (set_components
                     (λ m, <[getTypeIndex T := allocate (containerStore w)]> m) e).
    split; [reflexivity|].
    rewrite deref_emit, emit_eq. simpl.
    split_and!; try done.
    + unfold deref. simpl. apply lookup_insert_eq.
    + intros p Hp. unfold deref. simpl. by apply lookup_insert_ne.
    + intros _. apply allocate_fresh.
Qed.

Lemma remove_run w ent e T :
  deref w ent = Some e →
  containers_live w e →
  ∃ w' e',
    remove ent T w = Some (w', has e T)
    ∧ deref w' ent = Some e'
    ∧ components e' = delete (getTypeIndex T) (components e)
    ∧ isPendingDestroy e' = isPendingDestroy e
    ∧ (∀ p, p ≠ ent → deref w' p = deref w p)
    ∧ entities w' = entities w.
Proof.
  intros He Hlive. unfold remove, has. rewrite He. simpl.
  destruct (components e !! getTypeIndex T) as [container|] eqn:Ec.
  - destruct (containers_live_lookup w e T container Hlive Ec) as [_ [old Hold]].
    rewrite Hold. simpl.
    eexists _, (set_components (λ m, delete (getTypeIndex T) m) e).
    split; [reflexivity|]. split_and!; try done.
    + unfold deref. simpl. apply lookup_insert_eq.
    + intros p Hp. unfold deref. simpl. by apply lookup_insert_ne.
  - exists w, e. split_and!; try done. by rewrite delete_id.
Qed.

Lemma has_all_ext e e' T (Types : list CppType) :
  (∀ U, U ∈ T :: Types → has e' U = has e U) →
  has_all e' T Types = has_all e T Types.
Proof.
  intros Hext. rewrite !has_all_forallb.
  induction (T :: Types) as [|U l IH]; [done|].
  simpl. rewrite Hext by (apply elem_of_cons; by left).
  f_equal. apply IH. intros V HV. apply Hext, elem_of_cons. by right.
Qed.

Lemma entities_live_same_domain w w' :
  entities_live w →
  entities w' = entities w →
  (∀ p, is_Some (deref w p) → is_Some (deref w' p)) →
  entities_live w'.
Proof.
  intros Hlive Hents Hdom. unfold entities_live. rewrite Hents.
  eapply Forall_impl; [exact Hlive|]. intros p [? ?]. split; [done|by apply Hdom].
Qed.

(** X13: in a World whose entity vector holds live entities, on a live
    entity [ent] whose containers are live: after [assign<T>(args...)] the
    view [each<T>] visits [ent], if its pending-destroy flag lets it in,
    and otherwise the entities it visited before; after [remove<T>()] it
    visits the entities it visited before without [ent]; a view over
    types that do not include [T] visits the same entities after either
    call. *)
Theorem each_follows_assign_and_remove w ent e T (data : Value) (incl : bool) :
  entities_live w →
  deref w ent = Some e →
  containers_live w e →
  ∃ w1 (handle : ptr) w2,
    assign ent T data w = Some (w1, handle)
    ∧ remove ent T w = Some (w2, has e T)
    ∧ each w1 T [] incl
      = Some (filter (λ p, (p = ent ∨ has_types w p T [] = true)
                           ∧ visible w incl p = true) (entities w))
    ∧ each w2 T [] incl
      = Some (filter (λ p, p ≠ ent ∧ has_types w p T [] = true
                           ∧ visible w incl p = true) (entities w))
    ∧ (∀ U (Us : list CppType), T ∉ U :: Us →
         each w1 U Us incl = each w U Us incl
         ∧ each w2 U Us incl = each w U Us incl).
Proof.
  intros Hlive He Hcont.
  destruct (assign_run w ent e T data He Hcont)
    as (w1 & handle & e1 & Ha & He1 & Hc1 & Hp1 & Ho1 & Hents1 & _).
  destruct (remove_run w ent e T He Hcont)
    as (w2 & e2 & Hr & He2 & Hc2 & Hp2 & Ho2 & Hents2).
  assert (entities_live w1) as Hlive1.
  { apply (entities_live_same_domain w); [done|done|]. intros p Hp.
    destruct (decide (p = ent)) as [->|Hne]; [by rewrite He1|by rewrite Ho1]. }
  assert (entities_live w2) as Hlive2.
  { apply (entities_live_same_domain w); [done|done|]. intros p Hp.
    destruct (decide (p = ent)) as [->|Hne]; [by rewrite He2|by rewrite Ho2]. }
  exists w1, handle, w2. split; [exact Ha|]. split; [exact Hr|].
  rewrite !each_spec by done. rewrite Hents1, Hents2.
  split_and!.
  - f_equal. apply filter_ext_elem. intros p _.
    unfold qualifies, has_types, visible, pending. simpl.
    destruct (decide (p = ent)) as [->|Hne].
    + rewrite He1, He. unfold has. rewrite Hc1, lookup_insert_eq, Hp1. simpl.
      split; [intros ->; split; [by left|done]|by intros [_ ->]].
    + rewrite Ho1 by done. destruct (deref w p) as [ep|]; [|by intros; split; [|intros [[?|?] ?]]].
      rewrite andb_true_iff. split; [intros [? ?]; split; [by right|done]|].
      intros [[?|?] ?]; done.
  - f_equal. apply filter_ext_elem. intros p _.
    unfold qualifies, has_types, visible, pending. simpl.
    destruct (decide (p = ent)) as [->|Hne].
    + rewrite He2. unfold has. rewrite Hc2, lookup_delete_eq. simpl.
      split; [done|by intros [? _]].
    + rewrite Ho2 by done. destruct (deref w p) as [ep|]; [|split; [done|by intros (_ & ? & _)]].
      rewrite andb_true_iff. split; [by intros [? ?]|by intros (_ & ? & ?)].
  - intros U Us Hnotin. rewrite !each_spec by done. rewrite Hents1, Hents2.
    assert (∀ e', components e' = <[getTypeIndex T := handle]> (components e) ∨
                  components e' = delete (getTypeIndex T) (components e) →
                  has_all e' U Us = has_all e U Us) as Hsame.
    { intros e' Hc'. apply has_all_ext. intros V HV.
      assert (V ≠ T) as Hne by (intros ->; done).
      unfold has, getTypeIndex in *. destruct Hc' as [-> | ->].
      - by rewrite lookup_insert_ne.
      - by rewrite lookup_delete_ne. }
    split; f_equal; apply filter_ext_elem; intros p _; unfold qualifies;
      (destruct (decide (p = ent)) as [->|Hne]; [|by rewrite ?Ho1, ?Ho2]).
    + rewrite He1, He, Hp1. by rewrite (Hsame e1) by (by left).
    + rewrite He2, He, Hp2. by rewrite (Hsame e2) by (by right).
Qed.

(** X14: in a World whose containers are owned, [assign<T>(args...)] on a
    live entity goes through and leaves every other component of the World
    alone: any component of another entity, or of another type on the same
    entity, keeps its handle and its value. *)
Theorem assign_leaves_other_components w ent e T (data : Value) :
  containers_owned w →
  deref w ent = Some e →
  ∃ w' (handle : ptr),
    assign ent T data w = Some (w', handle)
    ∧ (∀ ent2 e2 U (container : ptr),
         deref w ent2 = Some e2 →
         components e2 !! getTypeIndex U = Some container →
         ent2 ≠ ent ∨ U ≠ T →
         (∃ e2', deref w' ent2 = Some e2'
                 ∧ components e2' !! getTypeIndex U = Some container)
         ∧ handle_get w' container = handle_get w container).
Proof.
  intros [Hlive Hown] He.
  destruct (assign_run w ent e T data He (Hlive ent e He))
    as (w' & handle & e' & Ha & He' & Hc' & _ & Hother & _ & Hstore & Hold & Hnew).
  exists w', handle. split; [exact Ha|].
  intros ent2 e2 U c He2 Hc Hdiff.
  assert (c ≠ handle) as Hne.
  { intros ->. destruct (components e !! getTypeIndex T) as [cT|] eqn:Ec.
    - rewrite (Hold cT eq_refl) in Hc.
      destruct (Hown ent2 ent e2 e (getTypeIndex U) (getTypeIndex T) cT He2 He Hc Ec)
        as [? ?].
      unfold getTypeIndex in *. destruct Hdiff; congruence.
    - destruct (Hlive ent2 e2 He2 _ _ Hc) as [_ [x Hx]].
      rewrite Hnew in Hx by done. done. }
  split.
  - destruct (decide (ent2 = ent)) as [->|Hne2].
    + exists e'. split; [done|]. rewrite Hc'.
      rewrite He in He2. injection He2 as <-.
      rewrite lookup_insert_ne; [done|].
      unfold getTypeIndex. intros ->. destruct Hdiff; congruence.
    + exists e2. by rewrite Hother.
  - unfold handle_get. rewrite Hstore. by rewrite lookup_insert_ne.
Qed.

(** ** Systems, tick and the destructor *)

Section SystemProperties.
Context {Data : Type}.
Implicit Types (sw : @SystemWorld Value Data) (system : ptr) (data : Data).

(** X15: [unregisterSystem(system)] takes every registration of [system]
    out of the systems vector, keeps the other systems in their order and
    calls [unconfigure] on [system], registered or not; right after
    [registerSystem(system)] of a system that was not registered it gives
    the systems vector back as it was, with [configure] and then
    [unconfigure] called; and a [tick] after it, in a World whose entity
    vector holds live entities and no pointer twice, calls [tick] on the
    systems that are left, in the order of registration, and not on
    [system]. *)
Theorem unregistered_system_is_not_ticked sw system data :
  entities_distinct (world sw) →
  entities_live (world sw) →
  (system ∉ systems (unregisterSystem system sw))
  ∧ systemCalls (unregisterSystem system sw) = systemCalls sw ++ [Unconfigured system]
  ∧ (system ∉ systems sw →
     systems (unregisterSystem system (registerSystem system sw)) = systems sw
     ∧ systemCalls (unregisterSystem system (registerSystem system sw))
       = systemCalls sw ++ [Configured system; Unconfigured system])
  ∧ ∃ sw',
      tick data (unregisterSystem system sw) = Some sw'
      ∧ systems sw' = erase_remove system (systems sw)
      ∧ systemCalls sw'
        = systemCalls sw ++ [Unconfigured system]
            ++ ((λ s, Ticked s data) <$> erase_remove system (systems sw))
      ∧ ∀ d, Ticked system d ∉ (λ s, Ticked s data) <$> erase_remove system (systems sw).
Proof.
  intros Hnd Hlive. split_and!.
  - simpl. apply erase_remove_not_elem.
  - done.
  - intros Hnotin. simpl. split.
    + unfold erase_remove. rewrite filter_app, filter_cons_False, filter_nil
        by (intros Hc; by apply Hc).
      rewrite app_nil_r. apply filter_all. by intros s Hs ->.
    + by rewrite <- app_assoc.
  - destruct (cleanup_run (world sw) Hnd Hlive) as (w' & Hrun & _).
    unfold tick. simpl. rewrite Hrun. simpl.
    eexists. split; [reflexivity|]. simpl. split_and!.
    + done.
    + by rewrite <- app_assoc.
    + intros d Hin. apply list_elem_of_fmap in Hin as (s & [= <- _] & Hs).
      by apply erase_remove_not_elem in Hs.
Qed.



End SystemProperties.

(** ** Type registration *)

Lemma TypeRegistry_construct_n_S (n : nat) (k : N) :
  TypeRegistry_construct_n (S n) k
  = (k :: (TypeRegistry_construct_n n ((k + 1) mod uint32_modulus)).1,
     (TypeRegistry_construct_n n ((k + 1) mod uint32_modulus)).2).
Proof.
  cbn [TypeRegistry_construct_n TypeRegistry_construct].
  by destruct (TypeRegistry_construct_n n ((k + 1) mod uint32_modulus)).
Qed.

Lemma TypeRegistry_construct_n_spec (n : nat) : ∀ k : N,
  k + N.of_nat n ≤ uint32_modulus →
  (TypeRegistry_construct_n n k).1 = (λ i, k + N.of_nat i) <$> seq 0 n.
Proof.
  induction n as [|n IH]; intros k Hle; [done|].
  rewrite TypeRegistry_construct_n_S. cbn [fst seq]. rewrite fmap_cons. f_equal.
  - lia.
  - destruct n as [|n]; [done|].
    assert ((k + 1) mod uint32_modulus = k + 1) as -> by (apply N.mod_small; lia).
    rewrite IH by lia.
    rewrite <- (fmap_S_seq 0), <- list_fmap_compose.
    apply list_fmap_ext. intros _ i _. simpl. lia.
Qed.

(** X18: with ECS_NO_RTTI, the registries of [n] types, constructed one
    after the other from the initial counter, get the indices 1, 2, ...,
    [n]: no two types share an index and no type gets 0.  [n] is below
    [2^32], where the [uint32_t] counter wraps around. *)
Theorem TypeRegistry_indices_are_distinct (n : nat) :
  N.of_nat n < uint32_modulus →
  (TypeRegistry_construct_n n TypeRegistry_nextIndex_init).1 = N.of_nat <$> seq 1 n
  ∧ NoDup (TypeRegistry_construct_n n TypeRegistry_nextIndex_init).1
  ∧ (0 ∉ (TypeRegistry_construct_n n TypeRegistry_nextIndex_init).1).
Proof.
  intros Hlt. unfold TypeRegistry_nextIndex_init.
  assert ((TypeRegistry_construct_n n 1).1 = N.of_nat <$> seq 1 n) as ->.
  { rewrite TypeRegistry_construct_n_spec by lia.
    rewrite <- (fmap_S_seq 0), <- list_fmap_compose.
    apply list_fmap_ext. intros _ i _. simpl. lia. }
  split_and!.
  - done.
  - apply NoDup_fmap_2; [intros i j; apply Nat2N.inj|apply NoDup_seq].
  - intros Hin. apply list_elem_of_fmap in Hin as (i & Hi & Hin).
    apply elem_of_seq in Hin. lia.
Qed.

(** ** Equality of iterators *)

Lemma advance_keeps_flag (passes : Entity → bool) (fuel : nat) :
  ∀ w (it it' : Internal.Iterator),
  Internal.advance passes fuel w it = Some it' →
  Internal.bIsEnd it' = Internal.bIsEnd it
  ∧ (Internal.index it ≤ Internal.index it')%nat.
Proof.
  induction fuel as [|fuel IH]; intros w it it' Hrun; [done|].
  cbn [Internal.advance] in Hrun.
  destruct (Internal.index it <? getCount w)%nat.
  - destruct (Internal.skipped passes w it) as [[|]|]; simpl in Hrun; [| |done].
    + apply IH in Hrun as [? ?]. simpl in *. split; [done|lia].
    + by injection Hrun as <-.
  - by injection Hrun as <-.
Qed.

Lemma isEnd_of_flag_agrees w (it : Internal.Iterator) :
  flag_agrees w it →
  Internal.isEnd w it = (getCount w <=? Internal.index it)%nat.
Proof.
  intros Hag. unfold Internal.isEnd.
  destruct (Internal.bIsEnd it) eqn:E; [|done]. simpl.
  symmetry. apply Nat.leb_le. by apply Hag.
Qed.

(** X19: the iterators that the constructor makes for [begin()] and
    [end()] have their end flag set only at or past the end of the vector,
    and [operator++] keeps it so.  On such iterators of one World,
    [operator==] holds exactly when both are at the end or neither is and
    both stand on the same index: it is reflexive, symmetric and
    transitive; and [operator!=] is its negation. *)
Theorem iterator_eq_is_equivalence w (a b c : Internal.Iterator) :
  flag_agrees w a → flag_agrees w b → flag_agrees w c →
  (∀ (idx : nat) (incl : bool), flag_agrees w (Internal.construct w idx false incl))
  ∧ (∀ incl : bool, flag_agrees w (Internal.construct w (getCount w) true incl))
  ∧ (∀ (passes : Entity → bool) a',
       Internal.next passes w a = Some a' → flag_agrees w a')
  ∧ Internal.neq w a b = negb (iterator_eq w a b)
  ∧ (iterator_eq w a b = true ↔
       (Internal.isEnd w a = true ∧ Internal.isEnd w b = true)
       ∨ (Internal.isEnd w a = false ∧ Internal.isEnd w b = false
          ∧ Internal.index a = Internal.index b))
  ∧ iterator_eq w a a = true
  ∧ iterator_eq w a b = iterator_eq w b a
  ∧ (iterator_eq w a b = true → iterator_eq w b c = true → iterator_eq w a c = true).
Proof.
  intros Ha Hb Hc.
  pose proof (isEnd_of_flag_agrees w a Ha) as Hea.
  pose proof (isEnd_of_flag_agrees w b Hb) as Heb.
  pose proof (isEnd_of_flag_agrees w c Hc) as Hec.
  split_and!.
  - intros idx incl. unfold flag_agrees, Internal.construct. simpl.
    destruct (getCount w <=? idx)%nat eqn:E; [|done]. intros _. by apply Nat.leb_le.
  - intros incl. unfold flag_agrees, Internal.construct. simpl. done.
  - intros passes a' Hnext. unfold Internal.next in Hnext.
    destruct (Internal.advance passes _ w _) as [it|] eqn:Hadv; [|done].
    simpl in Hnext. injection Hnext as <-.
    apply advance_keeps_flag in Hadv as [Hflag Hidx]. simpl in Hflag, Hidx.
    unfold flag_agrees in *.
    destruct (getCount w <=? Internal.index it)%nat eqn:E; simpl.
    + intros _. by apply Nat.leb_le.
    + rewrite Hflag. intros Hend. specialize (Ha Hend). apply Nat.leb_gt in E. lia.
  - unfold Internal.neq, iterator_eq. by destruct (Internal.isEnd w a).
  - unfold iterator_eq. rewrite Hea, Heb.
    destruct (getCount w <=? Internal.index a)%nat eqn:E1,
             (getCount w <=? Internal.index b)%nat eqn:E2;
      rewrite ?Nat.eqb_eq; try (apply Nat.leb_le in E1); try (apply Nat.leb_le in E2);
      try (apply Nat.leb_gt in E1); try (apply Nat.leb_gt in E2).
    + split; [by left|done].
    + split; [done|]. intros [[_ ?]|(? & _)]; done.
    + split; [lia|]. intros [[? _]|(_ & ? & _)]; done.
    + split; [by right|]. by intros [[? _]|(_ & _ & ?)].
  - unfold iterator_eq. destruct (Internal.isEnd w a); [done|]. apply Nat.eqb_refl.
  - unfold iterator_eq. rewrite Hea, Heb.
    destruct (getCount w <=? Internal.index a)%nat eqn:E1,
             (getCount w <=? Internal.index b)%nat eqn:E2; try done.
    + apply Nat.leb_le in E1. apply Nat.leb_gt in E2.
      symmetry. apply Nat.eqb_neq. lia.
    + apply Nat.leb_gt in E1. apply Nat.leb_le in E2.
      apply Nat.eqb_neq. lia.
    + apply Nat.eqb_sym.
  - unfold iterator_eq. rewrite Hea, Heb, Hec.
    destruct (getCount w <=? Internal.index a)%nat eqn:E1,
             (getCount w <=? Internal.index b)%nat eqn:E2,
             (getCount w <=? Internal.index c)%nat eqn:E3;
      rewrite ?Nat.eqb_eq; try done.
    + intros Hab _. apply Nat.leb_gt in E1. apply Nat.leb_le in E2. lia.
    + intros _ Hbc. apply Nat.leb_gt in E2. apply Nat.leb_le in E3. lia.
    + intros -> ->. done.
Qed.

(** ** Subscribing more than once, and the order of the types of a view *)

Lemma replicate_snoc {A : Type} (k : nat) (x : A) :
  replicate k x ++ [x] = x :: replicate k x.
Proof. induction k as [|k IH]; [done|]. simpl. by rewrite IH. Qed.

Lemma subscribers_of_iter_subscribe (k : nat) T subscriber w :
  subscribers_of (Nat.iter k (subscribe T subscriber) w) T
  = subscribers_of w T ++ replicate k subscriber.
Proof.
  induction k as [|k IH]; simpl; [by rewrite app_nil_r|].
  rewrite subscribers_of_subscribe, IH, <- app_assoc. by rewrite replicate_snoc.
Qed.

(** X20: [subscribe<T>] does not look for the subscriber in the vector:
    after [k] calls of [subscribe<T>(subscriber)], an emit of [T] calls
    [receive] on the subscribers that were registered and then [k] times
    on [subscriber]; the subscribers of every other type are as before. *)
Theorem subscribe_k_times_notifies_k_times w event subscriber (k : nat) :
  received (trace (emit event (Nat.iter k (subscribe (eventType event) subscriber) w)))
  = received (trace w)
      ++ ((λ s, (s, event)) <$> subscribers_of w (eventType event))
      ++ replicate k (subscriber, event)
  ∧ (∀ U, U ≠ eventType event →
       subscribers_of (Nat.iter k (subscribe (eventType event) subscriber) w) U
       = subscribers_of w U).
Proof.
  split.
  - assert (trace (Nat.iter k (subscribe (eventType event) subscriber) w) = trace w)
      as Htrace.
    { induction k as [|k IH]; [done|]. simpl. rewrite <- IH. unfold subscribe.
      by destruct (subscribers _ !! _). }
    by rewrite emit_received, Htrace, subscribers_of_iter_subscribe, fmap_app,
      fmap_replicate.
  - intros U HU. induction k as [|k IH]; [done|]. simpl.
    rewrite subscribers_of_subscribe_ne by done. exact IH.
Qed.

Lemma has_all_Permutation e T U (Types Us : list CppType) :
  T :: Types ≡ₚ U :: Us → has_all e T Types = has_all e U Us.
Proof.
  intros Hperm. rewrite !has_all_forallb.
  apply eq_true_iff_eq. rewrite !forallb_forall.
  split; intros Hall V HV; apply Hall; apply list_elem_of_In;
    apply list_elem_of_In in HV; [by rewrite Hperm|by rewrite <- Hperm].
Qed.

(** X21: the order of the types does not matter: [has<T, Types...>()] is
    the same for every order of the same types (and is the conjunction of
    the single [has]), and, in a World whose entity vector holds live
    entities, so is what [each<T, Types...>] visits. *)
Theorem has_and_each_ignore_type_order w e T U (Types Us : list CppType) (incl : bool) :
  T :: Types ≡ₚ U :: Us →
  entities_live w →
  has_all e T Types = forallb (has e) (T :: Types)
  ∧ has_all e T Types = has_all e U Us
  ∧ each w T Types incl = each w U Us incl.
Proof.
  intros Hperm Hlive. split_and!.
  - apply has_all_forallb.
  - by apply has_all_Permutation.
  - rewrite !each_spec by done. f_equal. apply filter_ext_elem. intros p _.
    unfold qualifies. destruct (deref w p) as [ep|]; [|done].
    by rewrite (has_all_Permutation ep T U Types Us).
Qed.

(** ** The invariants under every call *)

Lemma containers_owned_shrink w w' :
  containers_owned w →
  (∀ p e' U (container : ptr),
     deref w' p = Some e' → components e' !! U = Some container →
     ∃ e, deref w p = Some e ∧ components e !! U = Some container) →
  (∀ p e' U (container : ptr),
     deref w' p = Some e' → components e' !! U = Some container →
     is_Some (containerStore w' !! container)) →
  containers_owned w'.
Proof.
  intros [Hlive Hown] Hback Hstore. split.
  - intros p e' Hp U c Hc. destruct (Hback p e' U c Hp Hc) as (e & He & Hce).
    destruct (Hlive p e He U c Hce) as [Hnull _]. split; [done|]. by eapply Hstore.
  - intros p1 p2 e1 e2 T1 T2 c Hp1 Hp2 Hc1 Hc2.
    destruct (Hback p1 e1 T1 c Hp1 Hc1) as (e1' & He1 & Hce1).
    destruct (Hback p2 e2 T2 c Hp2 Hc2) as (e2' & He2 & Hce2).
    by eapply (Hown p1 p2 e1' e2').
Qed.

Lemma step_keeps_invariants w w' :
  step w w' →
  World_wf w → containers_owned w →
  World_wf w' ∧ containers_owned w'.
Proof.
  intros Hstep Hwf Hown.
  destruct Hstep as [T s w|s w|event w|w Hlt|ent T data w w' handle Ha
                    |ent immediate w w' Hd|w w' removed Hc|w w' Hr].
  - assert (entityStore (subscribe T s w) = entityStore w
            ∧ containerStore (subscribe T s w) = containerStore w
            ∧ entities (subscribe T s w) = entities w
            ∧ lastEntityId (subscribe T s w) = lastEntityId w) as (? & ? & ? & ?).
    { unfold subscribe. by destruct (subscribers w !! getTypeIndex T). }
    split; [by apply (World_wf_frame w)|by apply (containers_owned_ext w)].
  - destruct (unsubscribeAll_frame s w) as (? & ? & ? & ? & _).
    split; [by apply (World_wf_frame w)|by apply (containers_owned_ext w)].
  - split; [apply (World_wf_frame w)|apply (containers_owned_ext w)];
      by rewrite ?emit_eq.
  - split; [by apply World_wf_create|by apply containers_owned_create].
  - split; [by eapply World_wf_assign|by eapply containers_owned_assign].
  - split; [by eapply World_wf_destroy|by eapply containers_owned_destroy].
  - split; [by eapply World_wf_cleanup|].
    unfold cleanup in Hc.
    destruct (cleanup_remove_if (entities w) w 0) as [[[kept w1] count]|] eqn:Hrun;
      [|done].
    simpl in Hc. injection Hc as <- _.
    eapply containers_owned_ext;
      [| |by eapply containers_owned_cleanup_remove_if]; done.
  - split; [by eapply World_wf_reset|].
    unfold reset in Hr.
    destruct (reset_loop (entities w) w) as [w1|] eqn:Hrun; [|done].
    simpl in Hr. injection Hr as <-.
    eapply containers_owned_ext; [| |by eapply containers_owned_reset_loop]; done.
Qed.

Lemma remove_keeps_invariants w ent T w' (removed : bool) :
  remove ent T w = Some (w', removed) →
  World_wf w → containers_owned w →
  World_wf w' ∧ containers_owned w'.
Proof.
  intros Hr Hwf Hown. pose proof Hown as [Hlive Huniq].
  unfold remove in Hr.
  destruct (deref w ent) as [e|] eqn:He; [|done]. simpl in Hr.
  destruct (components e !! getTypeIndex T) as [container|] eqn:Ec;
    [|by injection Hr as <- _].
  destruct (containerStore w !! container) as [old|] eqn:Hold; [|done].
  simpl in Hr. injection Hr as <- _.
  set (e' := set_components (λ m, delete (getTypeIndex T) m) e).
  assert (∀ p ep U (c : ptr),
            deref (set_entityStore (λ st, <[ent := e']> st)
                     (set_containerStore (λ st, delete container st) w)) p = Some ep →
            components ep !! U = Some c →
            c ≠ container ∧ ∃ e0, deref w p = Some e0 ∧ components e0 !! U = Some c)
    as Hback.
  { intros p ep U c. unfold deref in *. simpl.
    destruct (decide (p = ent)) as [->|Hne].
    - rewrite lookup_insert_eq. intros [= <-]. simpl. intros Hc.
      apply lookup_delete_Some in Hc as [HU Hc]. split; [|eauto].
      intros ->. destruct (Huniq ent ent e e U (getTypeIndex T) container He He Hc Ec).
      congruence.
    - rewrite lookup_insert_ne by done. intros Hp Hc. split; [|eauto].
      intros ->. destruct (Huniq p ent ep e U (getTypeIndex T) container Hp He Hc Ec).
      congruence. }
  split.
  - apply (World_wf_shrink w); [done|done| |done].
    intros p Hp. simpl in Hp. destruct Hwf as (Hl & _).
    eapply Forall_forall in Hl as [_ [ep Hep]]; [|exact Hp].
    unfold deref in *. simpl.
    destruct (decide (p = ent)) as [->|Hne].
    + rewrite lookup_insert_eq. rewrite He in Hep. injection Hep as <-. eauto.
    + rewrite lookup_insert_ne by done. eauto.
  - apply (containers_owned_shrink w); [done| |].
    + intros p ep U c Hp Hc. by destruct (Hback p ep U c Hp Hc) as [_ ?].
    + intros p ep U c Hp Hc.
      destruct (Hback p ep U c Hp Hc) as (Hne & e0 & Hp0 & Hc0).
      simpl. rewrite lookup_delete_ne by done.
      by destruct (Hlive p e0 Hp0 U c Hc0).
Qed.

Lemma removeAll_keeps_invariants w ent w' :
  Entity_removeAll ent w = Some w' →
  World_wf w → containers_owned w →
  World_wf w' ∧ containers_owned w'.
Proof.
  intros Hr Hwf Hown. pose proof Hown as [Hlive Huniq].
  unfold Entity_removeAll in Hr.
  destruct (deref w ent) as [e|] eqn:He; [|done]. simpl in Hr. injection Hr as <-.
  assert (∀ p ep U (c : ptr),
            deref (set_entityStore (λ st, <[ent := set_components (λ _, ∅) e]> st)
                     (set_containerStore (removeAll e) w)) p = Some ep →
            components ep !! U = Some c →
            p ≠ ent ∧ deref w p = Some ep) as Hback.
  { intros p ep U c. unfold deref in *. simpl.
    destruct (decide (p = ent)) as [->|Hne].
    - rewrite lookup_insert_eq. intros [= <-]. simpl. by rewrite lookup_empty.
    - rewrite lookup_insert_ne by done. done. }
  split.
  - apply (World_wf_shrink w); [done|done| |done].
    intros p Hp. simpl in Hp. destruct Hwf as (Hl & _).
    eapply Forall_forall in Hl as [_ [ep Hep]]; [|exact Hp].
    unfold deref in *. simpl.
    destruct (decide (p = ent)) as [->|Hne].
    + rewrite lookup_insert_eq. rewrite He in Hep. injection Hep as <-. eauto.
    + rewrite lookup_insert_ne by done. eauto.
  - apply (containers_owned_shrink w); [done| |].
    + intros p ep U c Hp Hc. destruct (Hback p ep U c Hp Hc) as [_ ?]. eauto.
    + intros p ep U c Hp Hc. destruct (Hback p ep U c Hp Hc) as [Hne Hp0].
      simpl. rewrite removeAll_other.
      * by destruct (Hlive p ep Hp0 U c Hc).
      * intros V HV. destruct (Huniq ent p e ep V U c He Hp0 HV Hc). congruence.
Qed.

(** ** Nothing allocated is lost *)

Lemma removeAll_subset e (store : gmap ptr Value) (container : ptr) (v : Value) :
  removeAll e store !! container = Some v → store !! container = Some v.
Proof.
  unfold removeAll.
  apply (map_fold_weak_ind
           (λ acc (m : gmap TypeIndex ptr),
              acc !! container = Some v → store !! container = Some v)).
  - done.
  - intros T c m acc _ IH Hc. apply lookup_delete_Some in Hc as [_ Hc]. by apply IH.
Qed.

Lemma containers_held_ext w w' :
  entityStore w' = entityStore w →
  containerStore w' = containerStore w →
  containers_held w → containers_held w'.
Proof.
  intros Hes Hcs Hheld. unfold containers_held, deref in *. by rewrite Hes, Hcs.
Qed.

(** A call that allocates no container and takes no component from an
    entity keeps the containers held. *)
Lemma containers_held_keep w w' :
  containers_held w →
  (∀ container, is_Some (containerStore w' !! container) →
     is_Some (containerStore w !! container)) →
  (∀ ent e, deref w ent = Some e →
     ∃ e', deref w' ent = Some e' ∧ components e' = components e) →
  containers_held w'.
Proof.
  intros Hheld Hstore Hents c Hc.
  destruct (Hheld c (Hstore c Hc)) as (ent & e & T & He & HT).
  destruct (Hents ent e He) as (e' & He' & Hcomp).
  exists ent, e', T. by rewrite Hcomp.
Qed.

Lemma containers_held_destroy_deallocate w ent w' :
  containers_held w →
  destroy_deallocate ent w = Some w' →
  containers_held w'.
Proof.
  intros Hheld Hd. unfold destroy_deallocate in Hd.
  destruct (deref w ent) as [e|] eqn:He; [|done]. simpl in Hd. injection Hd as <-.
  intros c [v Hc]. simpl in Hc.
  destruct (Hheld c) as (p & ep & T & Hp & HT).
  { apply removeAll_subset in Hc. eauto. }
  exists p, ep, T. split; [|done].
  unfold deref in *. simpl. rewrite lookup_delete_ne; [done|].
  intros <-. rewrite He in Hp. injection Hp as <-.
  by rewrite (removeAll_own e _ T c HT) in Hc.
Qed.

Lemma containers_held_set_pending w ent e event :
  containers_held w →
  deref w ent = Some e →
  containers_held
    (emit event (set_entityStore (λ st, <[ent := set_bPendingDestroy true e]> st) w)).
Proof.
  intros Hheld He. apply (containers_held_keep w); [done| |].
  - intros c. by rewrite emit_eq.
  - intros p ep Hp. rewrite deref_emit. unfold deref in *. simpl.
    destruct (decide (p = ent)) as [->|Hne].
    + rewrite lookup_insert_eq. rewrite He in Hp. injection Hp as <-. eauto.
    + rewrite lookup_insert_ne by done. eauto.
Qed.

Lemma containers_held_destroy w ent (immediate : bool) w' :
  containers_held w →
  destroy ent immediate w = Some w' →
  containers_held w'.
Proof.
  intros Hheld Hd. unfold destroy in Hd.
  destruct (decide (ent = nullptr)) as [|_]; [by injection Hd as <-|].
  destruct (deref w ent) as [e|] eqn:He; [|done]. simpl in Hd.
  destruct (isPendingDestroy e), immediate.
  - eapply containers_held_destroy_deallocate; [|exact Hd].
    by apply (containers_held_ext w).
  - by injection Hd as <-.
  - eapply containers_held_destroy_deallocate; [|exact Hd].
    eapply containers_held_ext; [| |by apply (containers_held_set_pending w ent e)]; done.
  - injection Hd as <-. by apply containers_held_set_pending.
Qed.

Lemma containers_held_cleanup_remove_if (v : list ptr) : ∀ w (count : nat) kept w' count',
  containers_held w →
  cleanup_remove_if v w count = Some (kept, w', count') →
  containers_held w'.
Proof.
  induction v as [|ent v IH]; intros w count kept w' count' Hheld Hrun.
  - simpl in Hrun. by injection Hrun as _ <- _.
  - cbn [cleanup_remove_if] in Hrun.
    destruct (deref w ent) as [e|]; [|done]. simpl in Hrun.
    destruct (isPendingDestroy e).
    + destruct (destroy_deallocate ent w) as [w1|] eqn:Hd; [|done]. simpl in Hrun.
      eapply IH; [|exact Hrun]. by eapply containers_held_destroy_deallocate.
    + destruct (cleanup_remove_if v w count) as [[[kept1 w1] count1]|] eqn:Hrec; [|done].
      simpl in Hrun. injection Hrun as _ <- _. by eapply IH.
Qed.

Lemma containers_held_reset_loop (v : list ptr) : ∀ w w',
  containers_held w →
  reset_loop v w = Some w' →
  containers_held w'.
Proof.
  induction v as [|ent v IH]; intros w w' Hheld Hrun.
  - simpl in Hrun. by injection Hrun as <-.
  - cbn [reset_loop] in Hrun.
    destruct (deref w ent) as [e|] eqn:He; [|done]. simpl in Hrun.
    destruct (destroy_deallocate ent _) as [w1|] eqn:Hd; [|done]. simpl in Hrun.
    eapply IH; [|exact Hrun].
    eapply containers_held_destroy_deallocate; [|exact Hd].
    destruct (isPendingDestroy e); simpl; [done|].
    by apply containers_held_set_pending.
Qed.

Lemma containers_held_assign w ent T (data : Value) w' (handle : ptr) :
  containers_held w →
  assign ent T data w = Some (w', handle) →
  containers_held w'.
Proof.
  intros Hheld Ha. unfold assign in Ha.
  destruct (deref w ent) as [e|] eqn:He; [|done]. simpl in Ha.
  destruct (components e !! getTypeIndex T) as [container|] eqn:Ec.
  - destruct (containerStore w !! container) as [old|] eqn:Hold; [|done]. simpl in Ha.
    injection Ha as <- _. apply (containers_held_keep w); [done| |].
    + intros c. rewrite emit_eq. simpl.
      destruct (decide (c = container)) as [->|Hne]; [by rewrite Hold|].
      by rewrite lookup_insert_ne.
    + intros p ep Hp. rewrite deref_emit. eauto.
  - injection Ha as <- _. intros c. rewrite emit_eq. simpl. intros Hc.
    destruct (decide (c = allocate (containerStore w))) as [->|Hne].
    + exists ent, (set_components
                     (λ m, <[getTypeIndex T := allocate (containerStore w)]> m) e),
        (getTypeIndex T).
      unfold deref. simpl. by rewrite !lookup_insert_eq.
    + rewrite lookup_insert_ne in Hc by done.
      destruct (Hheld c Hc) as (p & ep & U & Hp & HU).
      unfold deref in *. simpl.
      destruct (decide (p = ent)) as [->|Hnep].
      * rewrite He in Hp. injection Hp as <-.
        eexists ent, _, U. rewrite lookup_insert_eq. split; [done|]. simpl.
        rewrite lookup_insert_ne; [done|]. intros <-. congruence.
      * exists p, ep, U. by rewrite lookup_insert_ne.
Qed.

Lemma containers_held_remove w ent T w' (removed : bool) :
  containers_held w →
  remove ent T w = Some (w', removed) →
  containers_held w'.
Proof.
  intros Hheld Hr. unfold remove in Hr.
  destruct (deref w ent) as [e|] eqn:He; [|done]. simpl in Hr.
  destruct (components e !! getTypeIndex T) as [container|] eqn:Ec;
    [|by injection Hr as <- _].
  destruct (containerStore w !! container) as [old|]; [|done].
  simpl in Hr. injection Hr as <- _.
  intros c. simpl. intros [v Hc]. apply lookup_delete_Some in Hc as [Hne Hc].
  destruct (Hheld c) as (p & ep & U & Hp & HU); [eauto|].
  unfold deref in *. simpl.
  destruct (decide (p = ent)) as [->|Hnep].
  - rewrite He in Hp. injection Hp as <-.
    eexists ent, _, U. rewrite lookup_insert_eq. split; [done|]. simpl.
    rewrite lookup_delete_ne; [done|]. intros <-. congruence.
  - exists p, ep, U. by rewrite lookup_insert_ne.
Qed.

Lemma containers_held_removeAll w ent w' :
  containers_held w →
  Entity_removeAll ent w = Some w' →
  containers_held w'.
Proof.
  intros Hheld Hr. unfold Entity_removeAll in Hr.
  destruct (deref w ent) as [e|] eqn:He; [|done]. simpl in Hr. injection Hr as <-.
  intros c. simpl. intros [v Hc].
  destruct (Hheld c) as (p & ep & U & Hp & HU).
  { apply removeAll_subset in Hc. eauto. }
  exists p, ep, U. split; [|done].
  unfold deref in *. simpl. rewrite lookup_insert_ne; [done|].
  intros <-. rewrite He in Hp. injection Hp as <-.
  by rewrite (removeAll_own e _ U c HU) in Hc.
Qed.

Lemma entities_listed_frame w w' :
  entities_listed w →
  entityStore w' = entityStore w →
  entities w' = entities w →
  entities_listed w'.
Proof. intros Hl Hes Hents. unfold entities_listed, deref in *. by rewrite Hes, Hents. Qed.

Lemma no_leak_step w w' :
  step w w' →
  World_wf w →
  entities_listed w → containers_held w →
  entities_listed w' ∧ containers_held w'.
Proof.
  intros Hstep Hwf Hlist Hheld.
  destruct Hstep as [T s w|s w|event w|w Hlt|ent T data w w' handle Ha
                    |ent immediate w w' Hd|w w' removed Hc|w w' Hr].
  - assert (entityStore (subscribe T s w) = entityStore w
            ∧ containerStore (subscribe T s w) = containerStore w
            ∧ entities (subscribe T s w) = entities w) as (? & ? & ?).
    { unfold subscribe. by destruct (subscribers w !! getTypeIndex T). }
    split; [by apply (entities_listed_frame w)|by apply (containers_held_ext w)].
  - destruct (unsubscribeAll_frame s w) as (? & ? & ? & _).
    split; [by apply (entities_listed_frame w)|by apply (containers_held_ext w)].
  - split; [apply (entities_listed_frame w)|apply (containers_held_ext w)];
      by rewrite ?emit_eq.
  - split.
    + intros p. rewrite create_eq. unfold deref. simpl. intros Hp.
      apply elem_of_app.
      destruct (decide (p = allocate (entityStore w))) as [->|Hne].
      * right. by apply list_elem_of_singleton.
      * left. rewrite lookup_insert_ne in Hp by done. by apply Hlist.
    + apply (containers_held_keep w); [done|by rewrite create_eq|].
      intros p ep Hp. exists ep. split; [|done].
      rewrite create_eq. unfold deref in *. simpl. rewrite lookup_insert_ne; [done|].
      intros <-. by rewrite allocate_fresh in Hp.
  - split; [|by eapply containers_held_assign].
    pose proof Ha as Ha'. unfold assign in Ha'.
    destruct (deref w ent) as [e|] eqn:He; [|done]. simpl in Ha'.
    assert (entities w' = entities w
            ∧ ∀ p, is_Some (deref w' p) → is_Some (deref w p)) as [Hents Hdom].
    { destruct (components e !! getTypeIndex T) as [container|].
      - destruct (containerStore w !! container); [|done]. simpl in Ha'.
        injection Ha' as <- _. split; [by rewrite emit_eq|].
        intros p. by rewrite deref_emit.
      - injection Ha' as <- _. split; [by rewrite emit_eq|].
        intros p. rewrite deref_emit. unfold deref in *. simpl.
        destruct (decide (p = ent)) as [->|Hne]; [by rewrite He|].
        by rewrite lookup_insert_ne. }
    intros p Hp. rewrite Hents. by apply Hlist, Hdom.
  - split; [|by eapply containers_held_destroy].
    destruct (decide (ent = nullptr)) as [->|Hnull].
    { unfold destroy in Hd. simpl in Hd. by injection Hd as <-. }
    destruct (deref w ent) as [e|] eqn:He.
    2:{ unfold destroy in Hd. destruct (decide (ent = nullptr)); [done|].
        by rewrite He in Hd. }
    destruct (destroy_spec w ent e immediate Hnull He) as (w2 & Hd2 & _ & Hdent & Hents & _).
    rewrite Hd in Hd2. injection Hd2 as <-.
    intros p Hp. rewrite Hents.
    destruct (decide (p = ent)) as [->|Hne].
    + destruct immediate; [rewrite Hdent in Hp; by destruct Hp|].
      apply Hlist. by rewrite He.
    + rewrite (destroy_deref_other w ent immediate w' p Hd Hne) in Hp.
      destruct immediate; [|by apply Hlist].
      apply erase_remove_elem_iff. split; [done|by apply Hlist].
  - pose proof Hwf as (Hlive & Hnd & _).
    destruct (cleanup_run w Hnd Hlive) as (w2 & Hc2 & Hents & Hgone & Hkeep & _).
    rewrite Hc in Hc2. injection Hc2 as <- _.
    split.
    + intros p Hp. rewrite Hents.
      destruct (decide (p ∈ entities w ∧ pending w p = true)) as [[Hin Hpp]|Hno].
      * rewrite (Hgone p Hin Hpp) in Hp. by destruct Hp.
      * rewrite (Hkeep p Hno) in Hp. apply list_elem_of_filter.
        split; [|by apply Hlist].
        destruct (pending w p) eqn:E; [|done]. exfalso. apply Hno.
        split; [by apply Hlist|done].
    + unfold cleanup in Hc.
      destruct (cleanup_remove_if (entities w) w 0) as [[[kept w1] count]|] eqn:Hrun;
        [|done].
      simpl in Hc. injection Hc as <- _.
      eapply containers_held_ext;
        [| |by eapply containers_held_cleanup_remove_if]; done.
  - pose proof Hwf as (Hlive & Hnd & _).
    destruct (reset_loop_spec (entities w) w Hnd) as (w1 & Hrun & _ & Hgone & Hkeep & _).
    { eapply Forall_impl; [exact Hlive|]. by intros ? [_ ?]. }
    unfold reset in Hr. rewrite Hrun in Hr. simpl in Hr. injection Hr as <-.
    split.
    + intros p Hp. unfold deref in Hp. simpl in Hp. exfalso.
      destruct (decide (p ∈ entities w)) as [Hin|Hnotin].
      * unfold deref in Hgone. rewrite (Hgone p Hin) in Hp. by destruct Hp.
      * unfold deref in Hkeep. rewrite (Hkeep p Hnotin) in Hp. by apply Hnotin, Hlist.
    + eapply containers_held_ext; [| |by eapply containers_held_reset_loop]; done.
Qed.

Lemma no_leak_remove w ent T w' (removed : bool) :
  remove ent T w = Some (w', removed) →
  entities_listed w → containers_held w →
  entities_listed w' ∧ containers_held w'.
Proof.
  intros Hr Hlist Hheld. split; [|by eapply containers_held_remove].
  unfold remove in Hr.
  destruct (deref w ent) as [e|] eqn:He; [|done]. simpl in Hr.
  destruct (components e !! getTypeIndex T) as [container|];
    [|by injection Hr as <- _].
  destruct (containerStore w !! container); [|done]. simpl in Hr.
  injection Hr as <- _. intros p. unfold deref in *. simpl. intros Hp. apply Hlist.
  unfold deref. destruct (decide (p = ent)) as [->|Hne]; [by rewrite He|].
  by rewrite lookup_insert_ne in Hp.
Qed.

Lemma no_leak_removeAll w ent w' :
  Entity_removeAll ent w = Some w' →
  entities_listed w → containers_held w →
  entities_listed w' ∧ containers_held w'.
Proof.
  intros Hr Hlist Hheld. split; [|by eapply containers_held_removeAll].
  unfold Entity_removeAll in Hr.
  destruct (deref w ent) as [e|] eqn:He; [|done]. simpl in Hr. injection Hr as <-.
  intros p. unfold deref in *. simpl. intros Hp. apply Hlist.
  unfold deref. destruct (decide (p = ent)) as [->|Hne]; [by rewrite He|].
  by rewrite lookup_insert_ne in Hp.
Qed.

Lemma run_keeps_invariants w w' :
  World_wf w →
  containers_owned w →
  entities_listed w →
  containers_held w →
  rtc call w w' →
  World_wf w' ∧ containers_owned w' ∧ entities_listed w' ∧ containers_held w'.
Proof.
  intros Hwf Hown Hlist Hheld Hrun.
  induction Hrun as [w|w w1 w2 Hcall _ IH]; [done|].
  assert ((World_wf w1 ∧ containers_owned w1)
          ∧ (entities_listed w1 ∧ containers_held w1)) as [[Hwf1 Hown1] [Hlist1 Hheld1]].
  { destruct Hcall as [w w1 Hstep|ent T w w1 removed Hr|ent w w1 Hr].
    - split; [by apply (step_keeps_invariants w)|by apply (no_leak_step w)].
    - split; [by eapply remove_keeps_invariants|by eapply no_leak_remove].
    - split; [by eapply removeAll_keeps_invariants|by eapply no_leak_removeAll]. }
  by apply IH.
Qed.

(** X22: every call of the interface that goes through ([subscribe],
    [unsubscribeAll], [emit], [create] short of the wrap-around of the id
    counter, [assign], [remove], [removeAll], [destroy], [cleanup],
    [reset]) keeps the invariants of the World: the entity vector holds
    live entities, no pointer twice, with ids that are distinct, not 0 and
    not above the counter; the containers of the live entities are live,
    and none belongs to two components; every live entity is in the
    vector and every live container holds a component of a live entity.
    So they hold after any run of calls from a World where they hold, a
    new World among them. *)
Theorem calls_keep_invariants w w' :
  World_wf w →
  containers_owned w →
  entities_listed w →
  containers_held w →
  rtc call w w' →
  World_wf w' ∧ containers_owned w' ∧ entities_listed w' ∧ containers_held w'.
Proof. apply run_keeps_invariants. Qed.


Lemma destroy_immediate_eq w ent e :
  ent ≠ nullptr →
  deref w ent = Some e →
  destroy ent true w
  = Some {| entityStore := delete ent (entityStore w);
            containerStore := removeAll e (containerStore w);
            entities := erase_remove ent (entities w);
            subscribers := subscribers w;
            lastEntityId := lastEntityId w;
            trace := trace w
                       ++ (if isPendingDestroy e then []
                           else Emitted (OnEntityDestroyed ent)
                                  :: ((λ s, Received s (OnEntityDestroyed ent))
                                        <$> subscribers_of w OnEntityDestroyed_t)) |}.
Proof.
  intros Hnull He. unfold destroy.
  destruct (decide (ent = nullptr)) as [|_]; [done|].
  rewrite He. simpl. destruct (isPendingDestroy e).
  - rewrite (destroy_deallocate_eq _ ent e) by done. simpl. by rewrite app_nil_r.
  - rewrite (destroy_deallocate_eq _ ent (set_bPendingDestroy true e)).
    + rewrite emit_eq. simpl. by rewrite delete_insert_eq.
    + rewrite emit_eq. unfold deref. simpl. apply lookup_insert_eq.
Qed.

Lemma length_erase_remove (x : ptr) (l : list ptr) :
  NoDup l → x ∈ l → S (length (erase_remove x l)) = length l.
Proof.
  unfold erase_remove. induction l as [|y l IH]; intros Hnd Hin;
    [by apply elem_of_nil in Hin|].
  apply NoDup_cons in Hnd as [Hnotin Hnd]. rewrite filter_cons.
  destruct (decide (y ≠ x)) as [Hne|Heq].
  - apply elem_of_cons in Hin as [->|Hin]; [done|]. simpl. f_equal. by apply IH.
  - apply dec_stable in Heq. subst y. simpl. f_equal.
    f_equal. apply filter_all. by intros z Hz ->.
Qed.

(** X23: [destroy(ent, true)] on a live entity goes through and releases
    the entity at once: the entity is out of the vector and deallocated
    and so is every container it had, while the other entities are as
    they were and, when the containers are owned, so are their
    components; when the vector held [ent], and no pointer twice,
    [getCount()] is one less. *)
Theorem destroy_immediate_releases_entity w ent e :
  ent ≠ nullptr →
  deref w ent = Some e →
  ∃ w',
    destroy ent true w = Some w'
    ∧ deref w' ent = None
    ∧ (ent ∉ entities w')
    ∧ entities w' = erase_remove ent (entities w)
    ∧ (∀ T container, components e !! T = Some container →
         containerStore w' !! container = None)
    ∧ (∀ p, p ≠ ent → deref w' p = deref w p)
    ∧ (containers_owned w →
       ∀ p ep U container,
         p ≠ ent → deref w p = Some ep → components ep !! U = Some container →
         containerStore w' !! container = containerStore w !! container)
    ∧ (entities_distinct w → ent ∈ entities w → S (getCount w') = getCount w).
Proof.
  intros Hnull He. eexists. split; [by apply destroy_immediate_eq|].
  unfold deref. simpl. split_and!.
  - apply lookup_delete_eq.
  - apply erase_remove_not_elem.
  - done.
  - intros T c Hc. by eapply removeAll_own.
  - intros p Hp. by apply lookup_delete_ne.
  - intros [_ Hown] p ep U c Hne Hp Hc. apply removeAll_other.
    intros T HT. destruct (Hown ent p e ep T U c He Hp HT Hc). congruence.
  - intros Hnd Hin. unfold getCount. simpl. by apply length_erase_remove.
Qed.

Section Release.
Context {Data : Type}.


End Release.

Lemma newWorld_invariants :
  World_wf (@newWorld Value) ∧ containers_owned (@newWorld Value)
  ∧ entities_listed (@newWorld Value) ∧ containers_held (@newWorld Value).
Proof.
  split_and!.
  - apply newWorld_wf.
  - split; [intros ent e He|intros ent1 ent2 e1 e2 T1 T2 c He]; by unfold deref in He.
  - intros ent [e He]. by unfold deref in He.
  - intros c [v Hv]. by cbn in Hv.
Qed.

Lemma reachable_invariants w :
  reachable w →
  World_wf w ∧ containers_owned w ∧ entities_listed w ∧ containers_held w.
Proof.
  intros Hreach.
  destruct newWorld_invariants as (Hwf & Hown & Hlist & Hheld).
  apply (run_keeps_invariants newWorld w Hwf Hown Hlist Hheld).
  apply (rtc_subrel step call); [|exact Hreach].
  intros x y Hstep. by apply call_step.
Qed.

End Properties.

(** * Concrete runs *)

Lemma unsubscribe_without_lookup_keeps_subscriber_witness :
  let w' := unsubscribe None (UserType 1) 7 (subscribe (UserType 1) 7 (@newWorld nat)) in
  notifies w' (UserType 1) 7
  ∧ (7, UserEvent 1 0%nat) ∈ received (trace (emit (UserEvent 1 0%nat) w')).
Proof.
  apply (unsubscribe_without_lookup_keeps_subscriber
           (@newWorld nat) (UserType 1) 7 (UserEvent 1 0%nat) None).
  - reflexivity.
  - vm_compute. discriminate.
Defined.

Lemma unsubscribeAll_keeps_shared_subscriber_witness :
  let w := subscribe (UserType 1) 8 (subscribe (UserType 1) 7 (@newWorld nat)) in
  subscribers (unsubscribeAll 7 w) !! getTypeIndex (UserType 1)
    = subscribers w !! getTypeIndex (UserType 1)
  ∧ notifies (unsubscribeAll 7 w) (UserType 1) 7
  ∧ (7, UserEvent 1 0%nat) ∈ received (trace (emit (UserEvent 1 0%nat) (unsubscribeAll 7 w))).
Proof.
  apply (unsubscribeAll_keeps_shared_subscriber
           (subscribe (UserType 1) 8 (subscribe (UserType 1) 7 (@newWorld nat)))
           (UserType 1) 7 8 (UserEvent 1 0%nat)).
  - reflexivity.
  - vm_compute. apply elem_of_cons. by left.
  - vm_compute. apply elem_of_cons. right. apply elem_of_cons. by left.
  - vm_compute. discriminate.
Defined.

Ltac by_computation := apply (bool_decide_unpack _); vm_compute; exact I.

Lemma demo_world_entities_live : entities_live demo_world.
Proof. by_computation. Defined.

Lemma demo_world_entities_distinct : entities_distinct demo_world.
Proof. by_computation. Defined.

Lemma demo_world_ids_distinct : ids_distinct demo_world.
Proof. by_computation. Defined.

Lemma demo_entity_1_containers_live : containers_live demo_world demo_entity_1.
Proof. by_computation. Defined.

Lemma demo_entity_1_deref : deref demo_world 1 = Some demo_entity_1.
Proof. vm_compute. reflexivity. Defined.

Lemma destroy_emits_once_witness :
  1 ≠ nullptr
  ∧ deref demo_world 1 = Some demo_entity_1
  ∧ (∀ immediate : bool, ∃ w',
       destroy 1 immediate demo_world = Some w'
       ∧ emitted (trace w')
         = emitted (trace demo_world)
             ++ (if isPendingDestroy demo_entity_1 then [] else [OnEntityDestroyed 1]))
  ∧ (∀ (k : nat) (last : bool), ∃ w',
       destroy_many 1 (replicate k false ++ [last]) demo_world = Some w'
       ∧ emitted (trace w')
         = emitted (trace demo_world)
             ++ (if isPendingDestroy demo_entity_1 then [] else [OnEntityDestroyed 1]))
  ∧ (∀ (flags : list bool) w',
       destroy_many 1 flags demo_world = Some w' →
       emitted (trace w')
       = emitted (trace demo_world)
           ++ (if isPendingDestroy demo_entity_1 then []
               else match flags with [] => [] | _ :: _ => [OnEntityDestroyed 1] end))
  ∧ (∀ immediate : bool, destroy nullptr immediate demo_world = Some demo_world).
Proof.
  assert (1 ≠ nullptr) as Hnull by (vm_compute; discriminate).
  split; [exact Hnull|]. split; [exact demo_entity_1_deref|].
  exact (destroy_emits_once demo_world 1 demo_entity_1 Hnull demo_entity_1_deref).
Defined.

Lemma assign_emits_once_and_reuses_storage_witness :
  deref demo_world 1 = Some demo_entity_1
  ∧ containers_live demo_world demo_entity_1
  ∧ ∃ w' (handle : ptr) e',
      assign 1 (UserType 1) 5%nat demo_world = Some (w', handle)
      ∧ emitted (trace w')
        = emitted (trace demo_world) ++ [OnComponentAssigned (UserType 1) 1 handle]
      ∧ deref w' 1 = Some e'
      ∧ get e' (UserType 1) = handle
      ∧ isValid handle = true
      ∧ containerStore w' !! handle = Some 5%nat
      ∧ has e' (UserType 1) = true
      ∧ (has demo_entity_1 (UserType 1) = true →
         handle = get demo_entity_1 (UserType 1)
         ∧ components e' = components demo_entity_1
         ∧ dom (containerStore w') = dom (containerStore demo_world))
      ∧ (has demo_entity_1 (UserType 1) = false →
         containerStore demo_world !! handle = None
         ∧ dom (containerStore w') = {[handle]} ∪ dom (containerStore demo_world)).
Proof.
  split; [exact demo_entity_1_deref|]. split; [exact demo_entity_1_containers_live|].
  exact (assign_emits_once_and_reuses_storage demo_world 1 demo_entity_1 (UserType 1) 5%nat
           demo_entity_1_deref demo_entity_1_containers_live).
Defined.

Lemma create_ids_one_to_n_witness :
  lastEntityId (@newWorld nat) = 0
  ∧ entities (@newWorld nat) = []
  ∧ N.of_nat 3 < size_t_modulus
  ∧ (λ ent, getEntityId <$> deref (create_n 3 (@newWorld nat)).1 ent)
      <$> (create_n 3 (@newWorld nat)).2
    = (λ i, Some (N.of_nat i)) <$> seq 1 3
  ∧ entities (create_n 3 (@newWorld nat)).1 = (create_n 3 (@newWorld nat)).2
  ∧ getCount (create_n 3 (@newWorld nat)).1 = 3%nat.
Proof.
  assert (N.of_nat 3 < size_t_modulus) as Hlt by (vm_compute; reflexivity).
  split; [reflexivity|]. split; [reflexivity|]. split; [exact Hlt|].
  exact (create_ids_one_to_n (@newWorld nat) 3 eq_refl eq_refl Hlt).
Defined.

Lemma each_all_visit_in_order_witness :
  entities_live demo_world
  ∧ each demo_world (UserType 1) [UserType 2] false
    = Some (filter (λ ent, has_types demo_world ent (UserType 1) [UserType 2] = true
                           ∧ visible demo_world false ent = true)
                   (entities demo_world))
  ∧ each_call demo_world (UserType 1) [UserType 2] false
    = Some ((λ ent, (ent, handles demo_world ent [UserType 1; UserType 2]))
              <$> filter (λ ent, has_types demo_world ent (UserType 1) [UserType 2] = true
                                 ∧ visible demo_world false ent = true)
                         (entities demo_world))
  ∧ all demo_world false
    = Some (filter (λ ent, visible demo_world false ent = true) (entities demo_world))
  ∧ all_call demo_world false
    = Some (filter (λ ent, visible demo_world false ent = true) (entities demo_world)).
Proof.
  split; [exact demo_world_entities_live|].
  exact (each_all_visit_in_order demo_world (UserType 1) [UserType 2] false
           demo_world_entities_live).
Defined.

Lemma reset_clears_world_witness :
  entities_distinct demo_world
  ∧ entities_live demo_world
  ∧ ∃ w',
      reset demo_world = Some w'
      ∧ emitted (trace w')
        = emitted (trace demo_world)
            ++ (OnEntityDestroyed
                  <$> filter (λ ent, pending demo_world ent = false) (entities demo_world))
      ∧ (∀ ent, ent ∈ entities demo_world → deref w' ent = None)
      ∧ entities w' = []
      ∧ getCount w' = 0%nat
      ∧ lastEntityId w' = 0
      ∧ getEntityId <$> deref (create w').1 (create w').2 = Some 1
      ∧ entities (create w').1 = [(create w').2].
Proof.
  split; [exact demo_world_entities_distinct|]. split; [exact demo_world_entities_live|].
  exact (reset_clears_world demo_world demo_world_entities_distinct demo_world_entities_live).
Defined.

Lemma cleanup_removes_pending_witness :
  entities_distinct demo_world
  ∧ entities_live demo_world
  ∧ ∃ w' (removed : bool),
      cleanup demo_world = Some (w', removed)
      ∧ entities w' = filter (λ ent, pending demo_world ent = false) (entities demo_world)
      ∧ (removed = true ↔ ∃ ent, ent ∈ entities demo_world ∧ pending demo_world ent = true)
      ∧ (∀ ent, ent ∈ entities demo_world → pending demo_world ent = false →
           deref w' ent = deref demo_world ent)
      ∧ (∀ ent, ent ∈ entities demo_world → pending demo_world ent = true →
           deref w' ent = None).
Proof.
  split; [exact demo_world_entities_distinct|]. split; [exact demo_world_entities_live|].
  exact (cleanup_removes_pending demo_world
           demo_world_entities_distinct demo_world_entities_live).
Defined.

Lemma emit_registration_order_witness :
  subscribers_of (@newWorld nat) (UserType 1) = []
  ∧ received (trace (emit (UserEvent 1 0%nat)
                       (subscribe (UserType 1) 9 (subscribe (UserType 1) 8 newWorld))))
    = [(8, UserEvent 1 0%nat); (9, UserEvent 1 0%nat)]
  ∧ received (trace (emit (UserEvent 1 0%nat) newWorld)) = []
  ∧ emit (UserEvent 1 0%nat) newWorld = observe (Emitted (UserEvent 1 0%nat)) newWorld.
Proof.
  destruct (emit_registration_order (@newWorld nat) (UserEvent 1 0%nat) 8 9)
    as (_ & _ & Horder & Hnone).
  split; [reflexivity|]. split; [exact Horder|]. exact (Hnone eq_refl).
Defined.

Lemma getById_absent_or_found_witness :
  entities_live demo_world
  ∧ entities_distinct demo_world
  ∧ ids_distinct demo_world
  ∧ getById demo_world InvalidEntityId = Some nullptr
  ∧ getById demo_world 9 = Some nullptr
  ∧ getById demo_world_cleaned (getEntityId demo_entity_1) = Some nullptr
  ∧ ∃ (k : nat) ent' e',
      getById demo_world 3 = Some ent'
      ∧ entities demo_world !! k = Some ent'
      ∧ deref demo_world ent' = Some e'
      ∧ getEntityId e' = 3
      ∧ (∀ (j : nat) p ep, (j < k)%nat → entities demo_world !! j = Some p →
           deref demo_world p = Some ep → getEntityId ep ≠ 3).
Proof.
  pose proof (getById_absent_or_found demo_world 3
                demo_world_entities_live demo_world_entities_distinct
                demo_world_ids_distinct) as (Hzero & _ & _ & Hgone & Hfound).
  pose proof (getById_absent_or_found demo_world 9
                demo_world_entities_live demo_world_entities_distinct
                demo_world_ids_distinct) as (_ & Hlarge & _).
  split; [exact demo_world_entities_live|].
  split; [exact demo_world_entities_distinct|].
  split; [exact demo_world_ids_distinct|].
  split; [exact Hzero|].
  split; [apply Hlarge; vm_compute; reflexivity|].
  split.
  - apply (Hgone 1 demo_entity_1 false true demo_world_destroyed demo_world_cleaned).
    + by_computation.
    + exact demo_entity_1_deref.
    + vm_compute. reflexivity.
    + vm_compute. reflexivity.
  - apply (Hfound ltac:(vm_compute; discriminate) ltac:(vm_compute; discriminate)
             3 demo_entity_3).
    + by_computation.
    + vm_compute. reflexivity.
    + reflexivity.
Defined.

(** ** Runs of the embedding on small Worlds *)

Example demo_world_entities : entities demo_world = [1; 2; 3].
Proof. vm_compute. reflexivity. Qed.

Example demo_world_emitted :
  emitted (trace demo_world)
  = [OnEntityCreated 1; OnEntityCreated 2; OnEntityCreated 3; OnEntityDestroyed 2;
     OnComponentAssigned (UserType 1) 1 1; OnComponentAssigned (UserType 1) 3 2;
     OnComponentAssigned (UserType 2) 3 3].
Proof. vm_compute. reflexivity. Qed.

Example demo_world_received :
  received (trace demo_world) = [(7, OnEntityDestroyed 2)].
Proof. vm_compute. reflexivity. Qed.

Example demo_world_views :
  all demo_world false = Some [1; 3]
  ∧ all demo_world true = Some [1; 2; 3]
  ∧ each demo_world (UserType 1) [] false = Some [1; 3]
  ∧ each demo_world (UserType 1) [UserType 2] false = Some [3]
  ∧ each demo_world (UserType 2) [UserType 1] true = Some [3]
  ∧ each demo_world (UserType 3) [] true = Some []
  ∧ each_call demo_world (UserType 1) [UserType 2] false = Some [(3, [2; 3])].
Proof. vm_compute. by split_and!. Qed.

Example demo_world_getById :
  getById demo_world 0 = Some nullptr
  ∧ getById demo_world 1 = Some 1
  ∧ getById demo_world 2 = Some 2
  ∧ getById demo_world 3 = Some 3
  ∧ getById demo_world 4 = Some nullptr.
Proof. vm_compute. by split_and!. Qed.

Example demo_world_cleanup :
  (λ r, (entities r.1, r.2)) <$> cleanup demo_world = Some ([1; 3], true)
  ∧ (cleanup demo_world ≫= λ r, getById r.1 2) = Some nullptr
  ∧ (cleanup demo_world ≫= λ r, cleanup r.1 ≫= λ r', Some r'.2) = Some false.
Proof. vm_compute. by split_and!. Qed.

Example demo_world_destroy_twice :
  (λ w, emitted (trace w)) <$> destroy_many 1 [false; false; true] demo_world
  = Some (emitted (trace demo_world) ++ [OnEntityDestroyed 1])
  ∧ destroy_many 1 [true; false] demo_world = None.
Proof. vm_compute. by split_and!. Qed.

Example demo_world_reassign :
  (assign 1 (UserType 1) 5%nat demo_world
     ≫= λ r, Some (r.2, containerStore r.1 !! r.2, dom (containerStore r.1)))
  = Some (1, Some 5%nat, dom (containerStore demo_world)).
Proof. vm_compute. reflexivity. Qed.

Example demo_world_reset :
  (reset demo_world ≫= λ w, Some (entities w, lastEntityId w, (create w).2,
                                   getEntityId <$> deref (create w).1 (create w).2))
  = Some ([], 0, 1, Some 1).
Proof. vm_compute. reflexivity. Qed.

(** [unsubscribeAll] on a subscriber that shares its vector: nothing
    changes, and the subscriber is still called. *)
Example unsubscribeAll_shared_run :
  let w := subscribe (UserType 1) 8 (subscribe (UserType 1) 7 (@newWorld nat)) in
  subscribers_of (unsubscribeAll 7 w) (UserType 1) = [7; 8]
  ∧ received (trace (emit (UserEvent 1 0%nat) (unsubscribeAll 7 w)))
    = [(7, UserEvent 1 0%nat); (8, UserEvent 1 0%nat)].
Proof. vm_compute. by split_and!. Qed.

(** [unsubscribeAll] on a subscriber alone in its vector: the copy becomes
    empty and the entry is erased. *)
Example unsubscribeAll_alone_run :
  let w := subscribe (UserType 2) 8 (subscribe (UserType 1) 7 (@newWorld nat)) in
  subscribers_of (unsubscribeAll 7 w) (UserType 1) = []
  ∧ subscribers_of (unsubscribeAll 7 w) (UserType 2) = [8].
Proof. vm_compute. by split_and!. Qed.

(** [unsubscribe<T>] with [found] standing for [subscribers.end()], and
    with the lookup the body lacks. *)
Example unsubscribe_runs :
  let w := subscribe (UserType 1) 8 (subscribe (UserType 1) 7 (@newWorld nat)) in
  subscribers_of (unsubscribe None (UserType 1) 7 w) (UserType 1) = [7; 8]
  ∧ subscribers_of (unsubscribe_with_lookup (UserType 1) 7 w) (UserType 1) = [8].
Proof. vm_compute. by split_and!. Qed.

(** ** Sample Worlds for the further properties *)

Lemma demo_entity_3_deref : deref demo_world 3 = Some demo_entity_3.
Proof. vm_compute. reflexivity. Defined.

Lemma demo_entity_3_containers_live : containers_live demo_world demo_entity_3.
Proof. by_computation. Defined.

Lemma demo_world_reachable : reachable demo_world.
Proof.
  pose (w0 := subscribe OnEntityDestroyed_t 7 (@newWorld nat)).
  pose (w1 := (create w0).1).
  pose (w2 := (create w1).1).
  pose (w3 := (create w2).1).
  pose (w4 := default w3 (destroy 2 false w3)).
  pose (w5 := default w4 (fst <$> assign 1 (UserType 1) 42%nat w4)).
  pose (w6 := default w5 (fst <$> assign 3 (UserType 1) 43%nat w5)).
  unfold reachable.
  apply (rtc_r _ w6); [|apply (step_assign 3 (UserType 2) 44%nat w6 demo_world 3);
                        vm_compute; reflexivity].
  apply (rtc_r _ w5); [|apply (step_assign 3 (UserType 1) 43%nat w5 w6 2);
                        vm_compute; reflexivity].
  apply (rtc_r _ w4); [|apply (step_assign 1 (UserType 1) 42%nat w4 w5 1);
                        vm_compute; reflexivity].
  apply (rtc_r _ w3); [|apply (step_destroy 2 false w3 w4); vm_compute; reflexivity].
  apply (rtc_r _ w2); [|apply (step_create w2); vm_compute; reflexivity].
  apply (rtc_r _ w1); [|apply (step_create w1); vm_compute; reflexivity].
  apply (rtc_r _ w0); [|apply (step_create w0); vm_compute; reflexivity].
  apply rtc_once. apply step_subscribe.
Defined.

Lemma demo_world_wf : World_wf demo_world.
Proof. exact (proj1 (reachable_invariants demo_world demo_world_reachable)). Defined.

Lemma demo_world_containers_owned : containers_owned demo_world.
Proof. exact (proj1 (proj2 (reachable_invariants demo_world demo_world_reachable))). Defined.



Lemma demo_world_removed_run : rtc call (@newWorld nat) demo_world_removed.
Proof.
  apply (rtc_r _ demo_world).
  - apply (rtc_subrel step call); [|exact demo_world_reachable].
    intros x y Hstep. by apply call_step.
  - apply (call_remove 3 (UserType 1) demo_world demo_world_removed true).
    vm_compute. reflexivity.
Defined.

Lemma demo_world_created_others :
  ∀ p, p ∈ entities demo_world_created → p ≠ 2 →
    ∃ ep, deref demo_world_created p = Some ep ∧ isPendingDestroy ep = false.
Proof.
  intros p Hp Hne. change (entities demo_world_created) with [1; 2; 3] in Hp.
  apply elem_of_cons in Hp as [->|Hp].
  { exists {| components := ∅; id := 1; bPendingDestroy := false |}.
    split; vm_compute; reflexivity. }
  apply elem_of_cons in Hp as [->|Hp]; [done|].
  apply elem_of_cons in Hp as [->|Hp]; [|by apply elem_of_nil in Hp].
  exists {| components := ∅; id := 3; bPendingDestroy := false |}.
  split; vm_compute; reflexivity.
Defined.

(** ** The further properties on the sample Worlds *)

Lemma remove_returns_true_once_witness :
  (deref demo_world 1 = Some demo_entity_1)
  ∧ (containers_live demo_world demo_entity_1)
  ∧ (∃ w' e',
       remove 1 (UserType 1) demo_world = Some (w', has demo_entity_1 (UserType 1))
       ∧ deref w' 1 = Some e'
       ∧ has e' (UserType 1) = false
       ∧ get e' (UserType 1) = nullptr
       ∧ (∀ U, U ≠ (UserType 1) → get e' U = get demo_entity_1 U ∧ has e' U = has demo_entity_1 U)
       ∧ (has demo_entity_1 (UserType 1) = true → containerStore w' !! get demo_entity_1
           (UserType 1) = None)
       ∧ (∀ container, container ≠ get demo_entity_1 (UserType 1) →
            containerStore w' !! container = containerStore demo_world !! container)
       ∧ (∀ ent2, ent2 ≠ 1 → deref w' ent2 = deref demo_world ent2)
       ∧ entities w' = entities demo_world
       ∧ trace w' = trace demo_world
       ∧ remove 1 (UserType 1) w' = Some (w', false)).
Proof.
  split; [exact demo_entity_1_deref|].
  split; [exact demo_entity_1_containers_live|].
  refine (remove_returns_true_once demo_world 1 demo_entity_1 (UserType 1) _ _).
  - exact demo_entity_1_deref.
  - exact demo_entity_1_containers_live.
Defined.

Lemma assign_then_remove_restores_witness :
  (deref demo_world 1 = Some demo_entity_1)
  ∧ (has demo_entity_1 (UserType 2) = false)
  ∧ (∃ w1 (handle : ptr) w2,
       assign 1 (UserType 2) 7%nat demo_world = Some (w1, handle)
       ∧ remove 1 (UserType 2) w1 = Some (w2, true)
       ∧ entityStore w2 = entityStore demo_world
       ∧ containerStore w2 = containerStore demo_world
       ∧ entities w2 = entities demo_world
       ∧ subscribers w2 = subscribers demo_world
       ∧ lastEntityId w2 = lastEntityId demo_world
       ∧ emitted (trace w2) = emitted (trace demo_world) ++ [OnComponentAssigned (UserType 2) 1
           handle]).
Proof.
  split; [exact demo_entity_1_deref|].
  split; [reflexivity|].
  refine (assign_then_remove_restores demo_world 1 demo_entity_1 (UserType 2) 7%nat _ _).
  - exact demo_entity_1_deref.
  - reflexivity.
Defined.

Lemma removeAll_clears_entity_witness :
  (deref demo_world 3 = Some demo_entity_3)
  ∧ (∃ w' e',
       Entity_removeAll 3 demo_world = Some w'
       ∧ deref w' 3 = Some e'
       ∧ components e' = ∅
       ∧ getEntityId e' = getEntityId demo_entity_3
       ∧ isPendingDestroy e' = isPendingDestroy demo_entity_3
       ∧ (∀ T, has e' T = false ∧ get e' T = nullptr)
       ∧ (∀ T container, components demo_entity_3 !! T = Some container →
            containerStore w' !! container = None)
       ∧ entities w' = entities demo_world
       ∧ trace w' = trace demo_world
       ∧ (containers_owned demo_world →
          ∀ ent2 e2 U container,
            ent2 ≠ 3 → deref demo_world ent2 = Some e2 → components e2 !! U = Some container →
            deref w' ent2 = Some e2
            ∧ containerStore w' !! container = containerStore demo_world !! container)).
Proof.
  split; [exact demo_entity_3_deref|].
  refine (removeAll_clears_entity demo_world 3 demo_entity_3 _).
  - exact demo_entity_3_deref.
Defined.

Lemma with_calls_view_with_valid_handles_witness :
  (containers_live demo_world demo_entity_3)
  ∧ ((with_ demo_entity_3 (UserType 1) [UserType 2]).1 = has_all demo_entity_3 (UserType 1)
      [UserType 2]
     ∧ (has_all demo_entity_3 (UserType 1) [UserType 2] = false → (with_ demo_entity_3 (UserType
         1) [UserType 2]).2 = None)
     ∧ (has_all demo_entity_3 (UserType 1) [UserType 2] = true →
        (with_ demo_entity_3 (UserType 1) [UserType 2]).2 = Some ((λ U, get demo_entity_3 U) <$>
            ((UserType 1) :: [UserType 2]))
        ∧ Forall (λ handle, isValid handle = true ∧ is_Some (handle_get demo_world handle))
                 ((λ U, get demo_entity_3 U) <$> ((UserType 1) :: [UserType 2])))).
Proof.
  split; [exact demo_entity_3_containers_live|].
  refine (with_calls_view_with_valid_handles demo_world demo_entity_3 (UserType 1) [UserType 2]
      _).
  - exact demo_entity_3_containers_live.
Defined.

Lemma get_valid_iff_has_witness :
  (containers_live demo_world demo_entity_1)
  ∧ ((isValid (get demo_entity_1 (UserType 1)) = true ↔ has demo_entity_1 (UserType 1) = true)
     ∧ (has demo_entity_1 (UserType 1) = true → is_Some (handle_get demo_world (get demo_entity_1
         (UserType 1))))
     ∧ (has demo_entity_1 (UserType 1) = false → get demo_entity_1 (UserType 1) = nullptr ∧
         handle_get demo_world (get demo_entity_1 (UserType 1)) = None)).
Proof.
  split; [exact demo_entity_1_containers_live|].
  refine (get_valid_iff_has demo_world demo_entity_1 (UserType 1) _).
  - exact demo_entity_1_containers_live.
Defined.

Lemma getByIndex_null_iff_out_of_range_witness :
  (entities_live demo_world)
  ∧ ((getByIndex demo_world 1%nat = nullptr ↔ (getCount demo_world ≤ 1%nat)%nat)
     ∧ ((1%nat < getCount demo_world)%nat →
        entities demo_world !! 1%nat = Some (getByIndex demo_world 1%nat)
        ∧ is_Some (deref demo_world (getByIndex demo_world 1%nat)))).
Proof.
  split; [exact demo_world_entities_live|].
  refine (getByIndex_null_iff_out_of_range demo_world 1%nat _).
  - exact demo_world_entities_live.
Defined.

Lemma getById_getEntityId_round_trip_witness :
  (World_wf demo_world)
  ∧ (3 ∈ entities demo_world)
  ∧ (deref demo_world 3 = Some demo_entity_3)
  ∧ (getById demo_world (getEntityId demo_entity_3) = Some 3).
Proof.
  split; [exact demo_world_wf|].
  split; [by_computation|].
  split; [exact demo_entity_3_deref|].
  refine (getById_getEntityId_round_trip demo_world 3 demo_entity_3 _ _ _).
  - exact demo_world_wf.
  - by_computation.
  - exact demo_entity_3_deref.
Defined.

Lemma create_adds_fresh_entity_witness :
  (entities_live demo_world)
  ∧ ((create demo_world).2 ≠ nullptr
     ∧ deref demo_world (create demo_world).2 = None
     ∧ ((create demo_world).2 ∉ entities demo_world)
     ∧ deref (create demo_world).1 (create demo_world).2
       = Some {| components := ∅; id := (lastEntityId demo_world + 1) mod size_t_modulus;
                 bPendingDestroy := false |}
     ∧ entities (create demo_world).1 = entities demo_world ++ [(create demo_world).2]
     ∧ getCount (create demo_world).1 = S (getCount demo_world)
     ∧ (∀ ent, is_Some (deref demo_world ent) → deref (create demo_world).1 ent = deref
         demo_world ent)
     ∧ containerStore (create demo_world).1 = containerStore demo_world
     ∧ emitted (trace (create demo_world).1) = emitted (trace demo_world) ++ [OnEntityCreated
         (create demo_world).2]
     ∧ received (trace (create demo_world).1)
       = received (trace demo_world)
           ++ ((λ s, (s, OnEntityCreated (create demo_world).2)) <$> subscribers_of demo_world
               OnEntityCreated_t)).
Proof.
  split; [exact demo_world_entities_live|].
  refine (create_adds_fresh_entity demo_world _).
  - exact demo_world_entities_live.
Defined.

Lemma create_then_getById_witness :
  (World_wf demo_world)
  ∧ (lastEntityId demo_world + 1 < size_t_modulus)
  ∧ (getById (create demo_world).1 (lastEntityId demo_world + 1) = Some (create demo_world).2
     ∧ (∀ ent e, ent ∈ entities demo_world → deref demo_world ent = Some e →
          getById (create demo_world).1 (getEntityId e) = Some ent)).
Proof.
  split; [exact demo_world_wf|].
  split; [vm_compute; reflexivity|].
  refine (create_then_getById demo_world _ _).
  - exact demo_world_wf.
  - vm_compute; reflexivity.
Defined.

Lemma destroy_then_cleanup_is_immediate_destroy_witness :
  (entities_distinct demo_world_created)
  ∧ (2 ≠ nullptr)
  ∧ (2 ∈ entities demo_world_created)
  ∧ (deref demo_world_created 2 = Some {| components := ∅; id := 2; bPendingDestroy := false |})
  ∧ (∀ p, p ∈ entities demo_world_created → p ≠ 2 →
     ∃ ep, deref demo_world_created p = Some ep ∧ isPendingDestroy ep = false)
  ∧ (∃ w1 w2,
       destroy 2 false demo_world_created = Some w1
       ∧ cleanup w1 = Some (w2, true)
       ∧ destroy 2 true demo_world_created = Some w2).
Proof.
  split; [by_computation|].
  split; [vm_compute; discriminate|].
  split; [by_computation|].
  split; [vm_compute; reflexivity|].
  split; [exact demo_world_created_others|].
  refine (destroy_then_cleanup_is_immediate_destroy demo_world_created 2 {| components := ∅; id
      := 2; bPendingDestroy := false |} _ _ _ _ _).
  - by_computation.
  - vm_compute; discriminate.
  - by_computation.
  - vm_compute; reflexivity.
  - exact demo_world_created_others.
Defined.

Lemma cleanup_twice_is_cleanup_once_witness :
  (entities_distinct demo_world)
  ∧ (entities_live demo_world)
  ∧ (∃ w' (removed : bool),
       cleanup demo_world = Some (w', removed)
       ∧ cleanup w' = Some (w', false)).
Proof.
  split; [exact demo_world_entities_distinct|].
  split; [exact demo_world_entities_live|].
  refine (cleanup_twice_is_cleanup_once demo_world _ _).
  - exact demo_world_entities_distinct.
  - exact demo_world_entities_live.
Defined.

Lemma destroyed_entity_stays_until_cleanup_witness :
  (World_wf demo_world)
  ∧ (1 ∈ entities demo_world)
  ∧ (deref demo_world 1 = Some demo_entity_1)
  ∧ (isPendingDestroy demo_entity_1 = false)
  ∧ (∃ w',
       destroy 1 false demo_world = Some w'
       ∧ entities w' = entities demo_world
       ∧ getCount w' = getCount demo_world
       ∧ pending w' 1 = true
       ∧ getById w' (getEntityId demo_entity_1) = Some 1
       ∧ all w' true = all demo_world true
       ∧ all w' false = erase_remove 1 <$> all demo_world false
       ∧ (∀ T (Types : list CppType),
            each w' T Types true = each demo_world T Types true
            ∧ each w' T Types false = erase_remove 1 <$> each demo_world T Types false)).
Proof.
  split; [exact demo_world_wf|].
  split; [by_computation|].
  split; [exact demo_entity_1_deref|].
  split; [reflexivity|].
  refine (destroyed_entity_stays_until_cleanup demo_world 1 demo_entity_1 _ _ _ _).
  - exact demo_world_wf.
  - by_computation.
  - exact demo_entity_1_deref.
  - reflexivity.
Defined.

Lemma each_follows_assign_and_remove_witness :
  (entities_live demo_world)
  ∧ (deref demo_world 1 = Some demo_entity_1)
  ∧ (containers_live demo_world demo_entity_1)
  ∧ (∃ w1 (handle : ptr) w2,
       assign 1 (UserType 2) 7%nat demo_world = Some (w1, handle)
       ∧ remove 1 (UserType 2) demo_world = Some (w2, has demo_entity_1 (UserType 2))
       ∧ each w1 (UserType 2) [] false
         = Some (filter (λ p, (p = 1 ∨ has_types demo_world p (UserType 2) [] = true)
                              ∧ visible demo_world false p = true) (entities demo_world))
       ∧ each w2 (UserType 2) [] false
         = Some (filter (λ p, p ≠ 1 ∧ has_types demo_world p (UserType 2) [] = true
                              ∧ visible demo_world false p = true) (entities demo_world))
       ∧ (∀ U (Us : list CppType), (UserType 2) ∉ U :: Us →
            each w1 U Us false = each demo_world U Us false
            ∧ each w2 U Us false = each demo_world U Us false)).
Proof.
  split; [exact demo_world_entities_live|].
  split; [exact demo_entity_1_deref|].
  split; [exact demo_entity_1_containers_live|].
  refine (each_follows_assign_and_remove demo_world 1 demo_entity_1 (UserType 2) 7%nat false _ _
      _).
  - exact demo_world_entities_live.
  - exact demo_entity_1_deref.
  - exact demo_entity_1_containers_live.
Defined.

Lemma assign_leaves_other_components_witness :
  (containers_owned demo_world)
  ∧ (deref demo_world 1 = Some demo_entity_1)
  ∧ (∃ w' (handle : ptr),
       assign 1 (UserType 2) 7%nat demo_world = Some (w', handle)
       ∧ (∀ ent2 e2 U (container : ptr),
            deref demo_world ent2 = Some e2 →
            components e2 !! getTypeIndex U = Some container →
            ent2 ≠ 1 ∨ U ≠ (UserType 2) →
            (∃ e2', deref w' ent2 = Some e2'
                    ∧ components e2' !! getTypeIndex U = Some container)
            ∧ handle_get w' container = handle_get demo_world container)).
Proof.
  split; [exact demo_world_containers_owned|].
  split; [exact demo_entity_1_deref|].
  refine (assign_leaves_other_components demo_world 1 demo_entity_1 (UserType 2) 7%nat _ _).
  - exact demo_world_containers_owned.
  - exact demo_entity_1_deref.
Defined.

Lemma unregistered_system_is_not_ticked_witness :
  (entities_distinct (world demo_system_world))
  ∧ (entities_live (world demo_system_world))
  ∧ ((11 ∉ systems (unregisterSystem 11 demo_system_world))
     ∧ systemCalls (unregisterSystem 11 demo_system_world) = systemCalls demo_system_world ++
         [Unconfigured 11]
     ∧ (11 ∉ systems demo_system_world →
        systems (unregisterSystem 11 (registerSystem 11 demo_system_world)) = systems
            demo_system_world
        ∧ systemCalls (unregisterSystem 11 (registerSystem 11 demo_system_world))
          = systemCalls demo_system_world ++ [Configured 11; Unconfigured 11])
     ∧ ∃ sw',
         tick 5%nat (unregisterSystem 11 demo_system_world) = Some sw'
         ∧ systems sw' = erase_remove 11 (systems demo_system_world)
         ∧ systemCalls sw'
           = systemCalls demo_system_world ++ [Unconfigured 11]
               ++ ((λ s, Ticked s 5%nat) <$> erase_remove 11 (systems demo_system_world))
         ∧ ∀ d, Ticked 11 d ∉ (λ s, Ticked s 5%nat) <$> erase_remove 11 (systems
             demo_system_world)).
Proof.
  split; [exact demo_world_entities_distinct|].
  split; [exact demo_world_entities_live|].
  refine (unregistered_system_is_not_ticked demo_system_world 11 5%nat _ _).
  - exact demo_world_entities_distinct.
  - exact demo_world_entities_live.
Defined.



Lemma TypeRegistry_indices_are_distinct_witness :
  (N.of_nat 5 < uint32_modulus)
  ∧ ((TypeRegistry_construct_n 5 TypeRegistry_nextIndex_init).1 = N.of_nat <$> seq 1 5
     ∧ NoDup (TypeRegistry_construct_n 5 TypeRegistry_nextIndex_init).1
     ∧ (0 ∉ (TypeRegistry_construct_n 5 TypeRegistry_nextIndex_init).1)).
Proof.
  split; [vm_compute; reflexivity|].
  refine (TypeRegistry_indices_are_distinct 5 _).
  - vm_compute; reflexivity.
Defined.

Lemma iterator_eq_is_equivalence_witness :
  (flag_agrees demo_world demo_begin)
  ∧ (flag_agrees demo_world demo_end)
  ∧ (flag_agrees demo_world demo_past)
  ∧ ((∀ (idx : nat) (incl : bool), flag_agrees demo_world (Internal.construct demo_world idx
      false incl))
     ∧ (∀ incl : bool, flag_agrees demo_world (Internal.construct demo_world (getCount
         demo_world) true incl))
     ∧ (∀ (passes : Entity → bool) a',
          Internal.next passes demo_world demo_begin = Some a' → flag_agrees demo_world a')
     ∧ Internal.neq demo_world demo_begin demo_end = negb (iterator_eq demo_world demo_begin
         demo_end)
     ∧ (iterator_eq demo_world demo_begin demo_end = true ↔
          (Internal.isEnd demo_world demo_begin = true ∧ Internal.isEnd demo_world demo_end =
              true)
          ∨ (Internal.isEnd demo_world demo_begin = false ∧ Internal.isEnd demo_world demo_end =
              false
             ∧ Internal.index demo_begin = Internal.index demo_end))
     ∧ iterator_eq demo_world demo_begin demo_begin = true
     ∧ iterator_eq demo_world demo_begin demo_end = iterator_eq demo_world demo_end demo_begin
     ∧ (iterator_eq demo_world demo_begin demo_end = true → iterator_eq demo_world demo_end
         demo_past = true → iterator_eq demo_world demo_begin demo_past = true)).
Proof.
  split; [intros Hflag; vm_compute in Hflag; discriminate Hflag|].
  split; [intros _; vm_compute; lia|].
  split; [intros _; vm_compute; lia|].
  refine (iterator_eq_is_equivalence demo_world demo_begin demo_end demo_past _ _ _).
  - intros Hflag; vm_compute in Hflag; discriminate Hflag.
  - intros _; vm_compute; lia.
  - intros _; vm_compute; lia.
Defined.

Lemma has_and_each_ignore_type_order_witness :
  ((UserType 1) :: [UserType 2] ≡ₚ (UserType 2) :: [UserType 1])
  ∧ (entities_live demo_world)
  ∧ (has_all demo_entity_3 (UserType 1) [UserType 2] = forallb (has demo_entity_3) ((UserType 1)
      :: [UserType 2])
     ∧ has_all demo_entity_3 (UserType 1) [UserType 2] = has_all demo_entity_3 (UserType 2)
         [UserType 1]
     ∧ each demo_world (UserType 1) [UserType 2] false = each demo_world (UserType 2) [UserType
         1] false).
Proof.
  split; [apply perm_swap|].
  split; [exact demo_world_entities_live|].
  refine (has_and_each_ignore_type_order demo_world demo_entity_3 (UserType 1) (UserType 2)
      [UserType 2] [UserType 1] false _ _).
  - apply perm_swap.
  - exact demo_world_entities_live.
Defined.

Lemma calls_keep_invariants_witness :
  (World_wf (@newWorld nat))
  ∧ (containers_owned (@newWorld nat))
  ∧ (entities_listed (@newWorld nat))
  ∧ (containers_held (@newWorld nat))
  ∧ (rtc call (@newWorld nat) demo_world_removed)
  ∧ (World_wf demo_world_removed ∧ containers_owned demo_world_removed ∧ entities_listed
      demo_world_removed ∧ containers_held demo_world_removed).
Proof.
  split; [exact (proj1 newWorld_invariants)|].
  split; [exact (proj1 (proj2 newWorld_invariants))|].
  split; [exact (proj1 (proj2 (proj2 newWorld_invariants)))|].
  split; [exact (proj2 (proj2 (proj2 newWorld_invariants)))|].
  split; [exact demo_world_removed_run|].
  refine (calls_keep_invariants (@newWorld nat) demo_world_removed _ _ _ _ _).
  - exact (proj1 newWorld_invariants).
  - exact (proj1 (proj2 newWorld_invariants)).
  - exact (proj1 (proj2 (proj2 newWorld_invariants))).
  - exact (proj2 (proj2 (proj2 newWorld_invariants))).
  - exact demo_world_removed_run.
Defined.

Lemma destroy_immediate_releases_entity_witness :
  (3 ≠ nullptr)
  ∧ (deref demo_world 3 = Some demo_entity_3)
  ∧ (∃ w',
       destroy 3 true demo_world = Some w'
       ∧ deref w' 3 = None
       ∧ (3 ∉ entities w')
       ∧ entities w' = erase_remove 3 (entities demo_world)
       ∧ (∀ T container, components demo_entity_3 !! T = Some container →
            containerStore w' !! container = None)
       ∧ (∀ p, p ≠ 3 → deref w' p = deref demo_world p)
       ∧ (containers_owned demo_world →
          ∀ p ep U container,
            p ≠ 3 → deref demo_world p = Some ep → components ep !! U = Some container →
            containerStore w' !! container = containerStore demo_world !! container)
       ∧ (entities_distinct demo_world → 3 ∈ entities demo_world → S (getCount w') = getCount
           demo_world)).
Proof.
  split; [vm_compute; discriminate|].
  split; [exact demo_entity_3_deref|].
  refine (destroy_immediate_releases_entity demo_world 3 demo_entity_3 _ _).
  - vm_compute; discriminate.
  - exact demo_entity_3_deref.
Defined.

